(** * Replay memory and training loop of the Double-DQN harness

    A shallow embedding of [trainers.py]: the ring buffer [ReplayMemory]
    and the control loop of [Trainer], followed by the properties that the
    design document states about them.  Further properties of both, and of
    the dataset class of [data_utils.py], come after those.

    Conventions of the embedding.
    - Python integers are [Z]; attributes that only ever hold array sizes or
      array positions ([ptr], [filled], [mem_size]) are [nat].
    - A numpy array of dtype [uint8] is a list of [Z] in [[0, 256)], the
      wrap-around of a store written out as [mod 256].
    - A float is the rational number it denotes, and every floating-point
      operation is the exact operation followed by the IEEE-754 rounding of
      its format ([round_f32] for torch's and numpy's single precision,
      [round_f64] for Python floats and numpy's double precision).
      Infinities, NaN and overflow are outside the model.
    - A tensor or an image array is the flat list of its entries; shapes
      are not tracked.
    - Exceptions are values of [exception]; code that may raise returns a
      [result]. *)

From Stdlib Require Import ZArith QArith Qround Qabs Qpower Lia Lqa Ascii String.
From Stdlib Require Import SpecFloat.
From stdpp Require Import base tactics option list strings gmap.


(** ** Floating point: rounding to nearest, ties to even *)

Module IEEE.
Local Open Scope Q_scope.

(** [ilog2 q] is the integer [j] with [2^j <= q < 2^(j+1)], for [q > 0]. *)
Definition ilog2 (q : Q) : Z :=
  if Qle_bool 1 q then Z.log2 (Qfloor q)
  else (- Z.log2_up (Qceiling (/ q)))%Z.

(** Nearest integer, ties to the even one. *)
Definition rne (q : Q) : Z :=
  let f := Qfloor q in
  match Qcompare (q - inject_Z f) (1 # 2) with
  | Lt => f
  | Gt => (f + 1)%Z
  | Eq => if Z.even f then f else (f + 1)%Z
  end.

(** Exponent of the last place of [q] in a format with [prec] bits of
    precision whose smallest subnormal is [2^emin]. *)
Definition fexp (prec emin : Z) (q : Q) : Z :=
  Z.max (ilog2 (Qabs q) - (prec - 1)) emin.

(** Rounding to the nearest number of the format, ties to the one with an
    even last digit; the result in lowest terms. *)
Definition round (prec emin : Z) (q : Q) : Q :=
  if Qeq_bool q 0 then 0
  else let e := fexp prec emin q in
       Qred (inject_Z (rne (q / 2 ^ e)) * 2 ^ e).

(** binary32 and binary64 *)
Definition round_f32 : Q -> Q := round 24 (-149).
Definition round_f64 : Q -> Q := round 53 (-1074).

(** Conversion of a float to an integer type truncates toward zero. *)
Definition Qtrunc (q : Q) : Z := Z.quot (Qnum q) (Zpos (Qden q)).

(** The Standard Library specifies IEEE-754 arithmetic on mantissa and
    exponent ([SpecFloat]); these read its floats as rationals, to compare
    the two on examples. *)
Definition SF2Q (f : spec_float) : Q :=
  match f with
  | S754_finite s m e =>
      Qred ((if s then -1 else 1) * inject_Z (Zpos m) * 2 ^ e)
  | _ => 0
  end.

Definition binary32_of_Z (n : Z) : spec_float :=
  binary_normalize 24 128 n 0 false.
Definition binary64_of_Z (n : Z) : spec_float :=
  binary_normalize 53 1024 n 0 false.
Definition binary32_of_binary64 (f : spec_float) : spec_float :=
  match f with
  | S754_finite s m e => binary_normalize 24 128 (Zpos m) e s
  | _ => f
  end.
End IEEE.

(** ** Exceptions *)

Inductive exception :=
| AssertionError (msg : string)
| FileNotFoundError (msg : string)
| ZeroDivisionError
| IndexError
| ValueError
| TypeError
| KeyError.

Inductive result (A : Type) :=
| Ok (a : A)
| Raise (e : exception).
Arguments Ok {A} a.
Arguments Raise {A} e.

(** [result] is a monad in stdpp's sense, which gives [x ← r; k]. *)
Global Instance result_ret : MRet result := fun A a => Ok a.
Global Instance result_bind : MBind result := fun A B k r =>
  match r with
  | Ok a => k a
  | Raise e => Raise e
  end.

(** ** numpy and torch primitives used by the replay memory *)

Module np.
Import IEEE.

(** [x.astype(np.uint8)] for a float [x]: toward zero, then the low byte.
    (For values outside [[0, 256)] the C conversion that numpy performs is
    platform-defined; the wrap-around is what x86-64 does.) *)
Definition float_to_uint8 (x : Q) : Z := (Qtrunc x) mod 256.

(** Storing an integer into a [uint8] array keeps the low byte (numpy
    before 2.0, which this code was written for; from 2.0 on a Python
    integer out of range raises instead, a numpy integer still wraps).
    A Python integer beyond the range of a C [long] raises
    [OverflowError] in every version; that case is not represented: the
    actions of the trainer index a discrete action space. *)
Definition int_to_uint8 (n : Z) : Z := n mod 256.

(** [arr[i] = v] for one position of the leading axis.  The value is
    taken to have the shape of a row, or to broadcast to it; the
    [ValueError] of numpy for a value of another shape is not
    represented. *)
Definition setitem {A} (arr : list A) (i : nat) (v : A) : result (list A) :=
  if decide (i < length arr) then Ok (<[i := v]> arr) else Raise IndexError.

(** [arr[idx]] for an integer index array [idx] (a gather). *)
Fixpoint take_rows {A} (arr : list A) (idx : list nat) : result (list A) :=
  match idx with
  | [] => Ok []
  | i :: idx' =>
      match arr !! i with
      | Some v =>
          match take_rows arr idx' with
          | Ok vs => Ok (v :: vs)
          | Raise e => Raise e
          end
      | None => Raise IndexError
      end
  end.
End np.

(** ** The process-wide random generator

    [np.random] is a generator state threaded through the calls that draw
    from it.  Its only primitive here is numpy's [random_interval(max)],
    which returns an integer in [[0, max]]. *)

Class RandomState (R : Type) := {
  random_interval : R -> nat -> nat * R;
  random_interval_le : forall s max, (random_interval s max).1 <= max
}.

Module np_random.
Section with_generator.
Context {R : Type} `{!RandomState R}.

(** [x[i], x[j] = x[j], x[i]]; both positions exist when [j] is drawn by
    [random_interval i] for a position [i] of [x]. *)
Definition swap {A} (x : list A) (i j : nat) : list A :=
  match x !! i, x !! j with
  | Some a, Some b => <[j := a]> (<[i := b]> x)
  | _, _ => x
  end.

(** [shuffle]: [for i in reversed(range(1, n)): j = random_interval(i);
    swap x[i], x[j]].  The argument [i] counts down from [n - 1]. *)
Fixpoint shuffle_from {A} (i : nat) (x : list A) (s : R) : list A * R :=
  match i with
  | O => (x, s)
  | S i' =>
      let '(j, s') := random_interval s i in
      shuffle_from i' (swap x i j) s'
  end.

(** [permutation(n)] shuffles [arange(n)]. *)
Definition permutation (s : R) (n : nat) : list nat * R :=
  shuffle_from (n - 1) (seq 0 n) s.

(** [choice(a, size=size, replace=False)]: the first [size] entries of
    a random permutation of the positions of [a]. *)
Definition choice {A} (s : R) (a : list A) (size : Z)
  : result (list A * R) :=
  let pop_size := length a in
  if decide (size < 0)%Z then Raise ValueError
  else if decide (Z.of_nat pop_size < size)%Z then Raise ValueError
  else
    let '(perm, s') := permutation s pop_size in
    match np.take_rows a (take (Z.to_nat size) perm) with
    | Ok rows => Ok (rows, s')
    | Raise e => Raise e
    end.
End with_generator.
End np_random.

(** ** ReplayMemory *)

Import IEEE.

(** One environment transition, as [add_sample] receives it: the two frame
    stacks are float tensors, [action] a Python integer, [reward] a Python
    float and [done] a boolean. *)
Record Transition := {
  state : list Q;
  action : Z;
  next_state : list Q;
  reward : Q;
  done : bool
}.

Record ReplayMemory := {
  ptr : nat;
  filled : nat;
  device : string;
  stack_size : nat;
  mem_size : nat;
  states : list (list Z);       (* uint8, one flattened frame stack per row *)
  next_states : list (list Z);  (* uint8 *)
  actions : list Z;             (* uint8 *)
  rewards : list Q;             (* float32 *)
  terminal : list Z             (* uint8 *)
}.

(** What [get_batch] returns: five parallel tensors. *)
Record Batch := {
  batch_state : list (list Q);
  batch_action : list Z;
  batch_next_state : list (list Q);
  batch_reward : list Q;
  batch_done : list Q
}.

(** [np.zeros] of a negative dimension raises [ValueError]. *)
Definition ReplayMemory_init (memory_size : Z) (dev : string) (stack : Z)
  : result ReplayMemory :=
  if decide (memory_size < 0 \/ stack < 0)%Z then Raise ValueError
  else
    let M := Z.to_nat memory_size in
    let S := Z.to_nat stack in
    Ok {| ptr := 0;
          filled := 0;
          device := dev;
          stack_size := S;
          mem_size := M;
          states := replicate M (replicate (S * 84 * 84) 0%Z);
          next_states := replicate M (replicate (S * 84 * 84) 0%Z);
          actions := replicate M 0%Z;
          rewards := replicate M 0%Q;
          terminal := replicate M 0%Z |}.

(** [(state * 255)....astype(np.uint8)], entry by entry: a
    single-precision product, then the conversion to a byte. *)
Definition quantize (x : Q) : Z := np.float_to_uint8 (round_f32 (x * 255)).

Definition scale_to_uint8 (frames : list Q) : list Z := map quantize frames.

Definition _insert_transform (t : Transition)
  : list Z * Z * list Z * Q * Z :=
  (scale_to_uint8 (state t), action t, scale_to_uint8 (next_state t),
   reward t, Z.b2z (done t)).

Definition add_sample (m : ReplayMemory) (t : Transition)
  : result ReplayMemory :=
  let '(st, act, nst, rew, dn) := _insert_transform t in
  (states' ← np.setitem (states m) (ptr m) st;
   next_states' ← np.setitem (next_states m) (ptr m) nst;
   actions' ← np.setitem (actions m) (ptr m) (np.int_to_uint8 act);
   rewards' ← np.setitem (rewards m) (ptr m) (round_f32 rew);
   terminal' ← np.setitem (terminal m) (ptr m) (np.int_to_uint8 dn);
   if decide (mem_size m = 0) then Raise ZeroDivisionError
   else
     Ok {| ptr := (ptr m + 1) mod mem_size m;
           filled := (filled m + 1) `min` mem_size m;
           device := device m;
           stack_size := stack_size m;
           mem_size := mem_size m;
           states := states';
           next_states := next_states';
           actions := actions';
           rewards := rewards';
           terminal := terminal' |}).

(** [torch.from_numpy(rows / 255.0).float()], entry by entry: a
    double-precision quotient rounded to single precision. *)
Definition dequantize (b : Z) : Q :=
  round_f32 (round_f64 (inject_Z b / 255)).

Definition rescale_from_uint8 (row : list Z) : list Q := map dequantize row.

(** The gather of [get_batch] at the index array [idx]. *)
Definition gather (m : ReplayMemory) (idx : list nat) : result Batch :=
  (st ← np.take_rows (states m) idx;
   nst ← np.take_rows (next_states m) idx;
   act ← np.take_rows (actions m) idx;
   rew ← np.take_rows (rewards m) idx;
   dn ← np.take_rows (terminal m) idx;
   Ok {| batch_state := map rescale_from_uint8 st;
         batch_action := act;
         batch_next_state := map rescale_from_uint8 nst;
         batch_reward := rew;
         batch_done := map inject_Z dn |}).

Section get_batch.
Context {R : Type} `{!RandomState R}.

(** The index draw of [get_batch], after its assertion. *)
Definition draw_indices (s : R) (m : ReplayMemory) (batch_size : Z)
  : result (list nat * R) :=
  if decide (batch_size < Z.of_nat (filled m))%Z
  then np_random.choice s (seq 0 (filled m)) batch_size
  else Raise (AssertionError "Not enough samples yet").

Definition get_batch (s : R) (m : ReplayMemory) (batch_size : Z)
  : result (Batch * R) :=
  ('(idx, s') ← draw_indices s m batch_size;
   batch ← gather m idx;
   Ok (batch, s')).
End get_batch.

Global Arguments add_sample : simpl never.

(** Successive calls of [add_sample]. *)
Fixpoint add_samples (m : ReplayMemory) (ts : list Transition)
  : result ReplayMemory :=
  match ts with
  | [] => Ok m
  | t :: ts' => (m' ← add_sample m t; add_samples m' ts')
  end.


(** *** Reading the buffer *)

(** The row of the memory at one position, as it is stored. *)
Definition entry (m : ReplayMemory) (i : nat)
  : option (list Z * Z * list Z * Q * Z) :=
  st ← states m !! i;
  act ← actions m !! i;
  nst ← next_states m !! i;
  rew ← rewards m !! i;
  dn ← terminal m !! i;
  Some (st, act, nst, rew, dn).

(** What [add_sample] writes for a transition. *)
Definition stored (t : Transition) : list Z * Z * list Z * Q * Z :=
  (scale_to_uint8 (state t), np.int_to_uint8 (action t),
   scale_to_uint8 (next_state t), round_f32 (reward t),
   np.int_to_uint8 (Z.b2z (done t))).

(** The five arrays have [mem_size] rows, and the two counters are in
    range. *)
Record wf (m : ReplayMemory) : Prop := {
  wf_states : length (states m) = mem_size m;
  wf_next_states : length (next_states m) = mem_size m;
  wf_actions : length (actions m) = mem_size m;
  wf_rewards : length (rewards m) = mem_size m;
  wf_terminal : length (terminal m) = mem_size m;
  wf_filled : filled m <= mem_size m;
  wf_ptr : ptr m < mem_size m \/ mem_size m = 0
}.

(** ** Trainer *)

(** The configuration mapping; the entries for the environment and the
    agent are consumed by their constructors and not represented. *)
Module Config.
Record t := {
  frames_per_sample : Z;
  batch_size : Z;
  memory_size : Z;
  memory_init_steps : Z;
  learning_interval : Z;
  train_epochs : Z;
  episodes_per_epoch : Z;
  eval_every : Z;
  eval_episodes_per_epoch : Z
}.
End Config.

(** A metrics dictionary, in insertion order. *)
Definition dict := list (string * Q).

Fixpoint getitem (d : dict) (key : string) : result Q :=
  match d with
  | [] => Raise KeyError
  | (k, v) :: d' => if decide (k = key) then Ok v else getitem d' key
  end.

(** The collaborators of the trainer: the gym environment, the agent,
    [utils.AverageMeter] and numpy's generator.  Their code is not part of
    the component; each is a state type with the operations the trainer
    calls. *)
Class Collaborators := {
  Env : Type;
  Agent : Type;
  Generator : Type;
  Generator_random :: RandomState Generator;
  (** [make_env(gym.make(...), ...)] *)
  make_env : Env;
  (** [env.reset()] and [env.step(action)], frames as [uint8] entries *)
  env_reset : Env -> list Z * Env;
  env_step : Env -> Z -> (list Z * Q * bool) * Env;
  (** [env.action_space.sample()] and [env.action_space.n] *)
  action_space_sample : Env -> Z * Env;
  action_space_n : Env -> Z;
  (** [agents.DoubleDQN(config["agent"], n, device)] *)
  DoubleDQN : Z -> string -> Agent;
  (** [agent.select_action(state, train)] *)
  select_action : Agent -> list Q -> bool -> Z * Agent;
  (** [agent.learn_from_memory(batch)] *)
  learn_from_memory : Agent -> Batch -> Q * Agent;
  (** the counters [agent.action_steps] and [agent.learning_steps] *)
  action_steps : Agent -> Z;
  learning_steps : Agent -> Z;
  set_learning_steps : Agent -> Z -> Agent;
  (** [agent.train()] and [agent.eval()] *)
  agent_train : Agent -> Agent;
  agent_eval : Agent -> Agent;
  (** [AverageMeter]: what [return_dict()] reports after the given
      dictionaries were passed to [add], oldest first *)
  return_dict : list dict -> dict
}.

(** [os.path.join(a, b)] on POSIX. *)
Definition ends_with_slash (a : string) : bool :=
  match String.get (String.length a - 1) a with
  | Some c => if decide (c = "/"%char) then true else false
  | None => false
  end.

Definition path_join (a b : string) : string :=
  match b with
  | String "/" _ => b
  | _ => if decide (a = "") then b
         else if ends_with_slash a then a +:+ b
         else a +:+ "/" +:+ b
  end.

Section trainer.
Context `{C : Collaborators}.

(** What [torch.save] writes and [torch.load] reads back: the pickled
    object.  The trainer writes two kinds. *)
Inductive Artifact :=
| StateFile (epoch : Z) (agent : Agent) (memory : ReplayMemory)
    (best_return : Q)
| CheckpointFile (agent : Agent).

Record Trainer := {
  config : Config.t;
  output_dir : string;
  trainer_device : string;
  trainer_stack_size : Z;
  batch_size : Z;
  best_return : Q;
  start_epoch : Z;
  env : Env;
  agent : Agent;
  memory : ReplayMemory
}.

(** What the run leaves outside the process, in order. *)
Inductive Event :=
| wandb_log_train (epoch : Z) (metrics : dict)
| wandb_log_val (epoch : Z) (val_reward : Q)
| torch_save (path : string) (a : Artifact).

(** The trainer object together with what it reads and writes around
    it: the files, numpy's generator, and the trace of events. *)
Record World := {
  self : Trainer;
  disk : gmap string Artifact;
  np_random : Generator;
  trace : list Event
}.

Definition set_self (f : Trainer -> Trainer) (w : World) : World :=
  {| self := f (self w); disk := disk w; np_random := np_random w;
     trace := trace w |}.

Definition set_env (e : Env) (t : Trainer) : Trainer :=
  {| config := config t; output_dir := output_dir t;
     trainer_device := trainer_device t;
     trainer_stack_size := trainer_stack_size t;
     batch_size := batch_size t; best_return := best_return t;
     start_epoch := start_epoch t; env := e; agent := agent t;
     memory := memory t |}.

Definition set_agent (a : Agent) (t : Trainer) : Trainer :=
  {| config := config t; output_dir := output_dir t;
     trainer_device := trainer_device t;
     trainer_stack_size := trainer_stack_size t;
     batch_size := batch_size t; best_return := best_return t;
     start_epoch := start_epoch t; env := env t; agent := a;
     memory := memory t |}.

Definition set_memory (m : ReplayMemory) (t : Trainer) : Trainer :=
  {| config := config t; output_dir := output_dir t;
     trainer_device := trainer_device t;
     trainer_stack_size := trainer_stack_size t;
     batch_size := batch_size t; best_return := best_return t;
     start_epoch := start_epoch t; env := env t; agent := agent t;
     memory := m |}.

Definition set_best_return (b : Q) (t : Trainer) : Trainer :=
  {| config := config t; output_dir := output_dir t;
     trainer_device := trainer_device t;
     trainer_stack_size := trainer_stack_size t;
     batch_size := batch_size t; best_return := b;
     start_epoch := start_epoch t; env := env t; agent := agent t;
     memory := memory t |}.

Definition set_start_epoch (e : Z) (t : Trainer) : Trainer :=
  {| config := config t; output_dir := output_dir t;
     trainer_device := trainer_device t;
     trainer_stack_size := trainer_stack_size t;
     batch_size := batch_size t; best_return := best_return t;
     start_epoch := e; env := env t; agent := agent t;
     memory := memory t |}.

Definition set_output_dir (d : string) (t : Trainer) : Trainer :=
  {| config := config t; output_dir := d;
     trainer_device := trainer_device t;
     trainer_stack_size := trainer_stack_size t;
     batch_size := batch_size t; best_return := best_return t;
     start_epoch := start_epoch t; env := env t; agent := agent t;
     memory := memory t |}.

(** *** The monad of trainer methods

    A method transforms the world and returns, raises, or runs out of
    fuel in one of its [while] loops.  The world is kept in all three
    cases: what was written before an exception stays written. *)
Inductive outcome (A : Type) :=
| Return (a : A)
| Throw (e : exception)
| Timeout.
Global Arguments Return {A} a.
Global Arguments Throw {A} e.
Global Arguments Timeout {A}.

Definition M (A : Type) : Type := World -> outcome A * World.

Global Instance M_ret : MRet M := fun A a w => (Return a, w).
Global Instance M_bind : MBind M := fun A B k m w =>
  match m w with
  | (Return a, w') => k a w'
  | (Throw e, w') => (Throw e, w')
  | (Timeout, w') => (Timeout, w')
  end.

Global Instance M_fmap : FMap M := fun A B f m =>
  a ← m; mret (f a).

Definition throw {A} (e : exception) : M A := fun w => (Throw e, w).
Definition timeout {A} : M A := fun w => (Timeout, w).
Definition lift {A} (r : result A) : M A :=
  match r with
  | Ok a => mret a
  | Raise e => throw e
  end.
Definition gets {A} (f : Trainer -> A) : M A :=
  fun w => (Return (f (self w)), w).
Definition modify (f : Trainer -> Trainer) : M unit :=
  fun w => (Return tt, set_self f w).
Definition emit (e : Event) : M unit :=
  fun w => (Return tt,
            {| self := self w; disk := disk w; np_random := np_random w;
               trace := trace w ++ [e] |}).

(** [torch.save(obj, path)]; [os.path.exists(path)] and
    [torch.load(path)]. *)
Definition torch_save_to (path : string) (a : Artifact) : M unit :=
  fun w => (Return tt,
            {| self := self w; disk := <[path := a]> (disk w);
               np_random := np_random w;
               trace := trace w ++ [torch_save path a] |}).
Definition torch_load (path : string) : M (option Artifact) :=
  fun w => (Return (disk w !! path), w).

(** Calls into the collaborators, on the attributes of the trainer. *)
Definition call_env {A} (f : Env -> A * Env) : M A :=
  fun w => let '(a, e) := f (env (self w)) in
           (Return a, set_self (set_env e) w).
Definition call_agent {A} (f : Agent -> A * Agent) : M A :=
  fun w => let '(a, ag) := f (agent (self w)) in
           (Return a, set_self (set_agent ag) w).

(** *** Persistence *)

Definition save_state (epoch : Z) : M unit :=
  t ← gets id;
  torch_save_to (path_join (output_dir t) "last_state.pt")
    (StateFile epoch (agent t) (memory t) (best_return t)).

Definition load_state (state_dir : string) : M unit :=
  let file := path_join state_dir "last_state.pt" in
  found ← torch_load file;
  match found with
  | Some (StateFile epoch ag mem best) =>
      modify (set_agent ag);;
      modify (set_memory mem);;
      modify (set_best_return best);;
      modify (set_start_epoch (epoch + 1));;
      modify (set_output_dir state_dir)
  | Some (CheckpointFile _) =>
      (* [state["agent"]] on an object that is not a mapping *)
      throw TypeError
  | None =>
      throw (FileNotFoundError ("Could not find saved state at " +:+ state_dir))
  end.

Definition save_checkpoint : M unit :=
  t ← gets id;
  torch_save_to (path_join (output_dir t) "checkpoint.pt")
    (CheckpointFile (agent t)).

Definition load_checkpoint (ckpt_dir : string) : M unit :=
  let file := path_join ckpt_dir "checkpoint.pt" in
  found ← torch_load file;
  match found with
  | Some (CheckpointFile ag) =>
      modify (set_agent ag);;
      modify (set_output_dir ckpt_dir)
  | Some (StateFile _ _ _ _) =>
      (* the mapping would become [self.agent] and fail at its first
         use as an agent *)
      throw TypeError
  | None =>
      throw (FileNotFoundError ("Could not find checkpoint at " +:+ ckpt_dir))
  end.
End trainer.

(** ** Trainer: episodes and the epoch loop *)

(** Arithmetic of Python numbers. *)
Definition py_mod (a b : Z) : result Z :=
  if decide (b = 0)%Z then Raise ZeroDivisionError else Ok (a mod b)%Z.

(** [x / n] for a float [x] and an integer [n]. *)
Definition py_truediv (x : Q) (n : Z) : result Q :=
  if decide (n = 0)%Z then Raise ZeroDivisionError
  else Ok (round_f64 (x / inject_Z n)).

(** [sum(xs)] for floats. *)
Definition py_sum (xs : list Q) : Q :=
  fold_left (fun acc x => round_f64 (acc + x)) xs 0%Q.

(** [range(n)] and [range(a, b)]. *)
Definition range (n : Z) : list Z := seqZ 0 n.
Definition range_from (a b : Z) : list Z := seqZ a (b - a)%Z.

(** What the constructor of [Trainer] receives: the configuration, output
    directory and device that [utils.initialize_experiment] derives from the
    command line, and the two optional paths. *)
Record Args := {
  args_config : Config.t;
  args_output_dir : string;
  args_device : string;
  resume : option string;
  load : option string
}.

Section trainer_loops.
Context `{C : Collaborators}.

(** [Trainer.__init__], up to the construction of the memory. *)
Definition Trainer_new (args : Args) (files : gmap string Artifact)
    (generator : Generator) : result World :=
  let cfg := args_config args in
  let e := make_env in
  m ← ReplayMemory_init (Config.memory_size cfg) (args_device args)
         (Config.frames_per_sample cfg);
  Ok {| self := {| config := cfg;
                   output_dir := args_output_dir args;
                   trainer_device := args_device args;
                   trainer_stack_size := Config.frames_per_sample cfg;
                   batch_size := Config.batch_size cfg;
                   best_return := 0;
                   start_epoch := 1;
                   env := e;
                   agent := DoubleDQN (action_space_n e) (args_device args);
                   memory := m |};
        disk := files;
        np_random := generator;
        trace := [] |}.

(** The rest of [Trainer.__init__]: the optional resume and load. *)
Definition Trainer_restore (args : Args) : M unit :=
  match resume args with
  | Some dir => load_state dir
  | None => mret tt
  end;;
  match load args with
  | Some dir => load_checkpoint dir
  | None => mret tt
  end.

Definition Trainer_init (args : Args) (files : gmap string Artifact)
    (generator : Generator) : result (outcome unit * World) :=
  w ← Trainer_new args files generator;
  Ok (Trainer_restore args w).

(** [torch.from_numpy(state) / 255.0]: a single-precision quotient.  The
    frames of the environment are represented by their entries in the
    order of the transposed, channel-first array, so that
    [transpose((2, 0, 1))] is the identity on them; [unsqueeze(0)] adds an
    axis and no entry. *)
Definition process_state (frames : list Z) : list Q :=
  map (fun b => round_f32 (inject_Z b / 255)) frames.

(** [self.memory.add_sample(...)] and [self.memory.get_batch(...)] *)
Definition memory_add_sample (t : Transition) : M unit :=
  m ← gets memory;
  m' ← lift (add_sample m t);
  modify (set_memory m').

Definition memory_get_batch (size : Z) : M Batch :=
  fun w =>
    match get_batch (np_random w) (memory (self w)) size with
    | Ok (b, s') =>
        (Return b,
         {| self := self w; disk := disk w; np_random := s';
            trace := trace w |})
    | Raise e => (Throw e, w)
    end.

(** One learning update: sample, learn, count. *)
Definition learning_update : M Q :=
  size ← gets batch_size;
  batch ← memory_get_batch size;
  loss ← call_agent (fun a => learn_from_memory a batch);
  call_agent (fun a => (tt, set_learning_steps a (learning_steps a + 1)%Z));;
  mret loss.

Fixpoint initialize_memory_loop (steps : list Z) (st : list Q) : M unit :=
  match steps with
  | [] => mret tt
  | step :: steps' =>
      act ← call_env action_space_sample;
      '(next_frames, rew, dn) ← call_env (fun e => env_step e act);
      let next_st := process_state next_frames in
      memory_add_sample {| state := st; action := act;
                           next_state := next_st; reward := rew;
                           done := dn |};;
      st' ← (if (dn : bool) then process_state <$> call_env env_reset
             else mret next_st);
      cfg ← gets config;
      r ← lift (py_mod step (Config.learning_interval cfg));
      m ← gets memory;
      size ← gets batch_size;
      (if decide (r = 0 /\ size < Z.of_nat (filled m))%Z
       then learning_update;; mret tt
       else mret tt);;
      initialize_memory_loop steps' st'
  end.

Definition initialize_memory : M unit :=
  st ← process_state <$> call_env env_reset;
  cfg ← gets config;
  initialize_memory_loop (range (Config.memory_init_steps cfg)) st.

(** The [while not episode_finished] loop of [train_episode]; one unit of
    fuel per iteration. *)
Fixpoint train_episode_loop (fuel : nat) (st : list Q) (total_reward : Q)
    (losses : list Q) : M (Q * list Q) :=
  match fuel with
  | O => timeout
  | S fuel' =>
      act ← call_agent (fun a => select_action a st true);
      '(next_frames, rew, dn) ← call_env (fun e => env_step e act);
      let next_st := process_state next_frames in
      memory_add_sample {| state := st; action := act;
                           next_state := next_st; reward := rew;
                           done := dn |};;
      let total_reward := round_f64 (total_reward + rew) in
      steps ← gets (fun t => action_steps (agent t));
      cfg ← gets config;
      r ← lift (py_mod steps (Config.learning_interval cfg));
      losses ← (if decide (r = 0)%Z
                then loss ← learning_update; mret (losses ++ [loss])
                else mret losses);
      if (dn : bool) then mret (total_reward, losses)
      else train_episode_loop fuel' next_st total_reward losses
  end.

(** The last two lines of [train_episode]: [avg_loss] is computed and
    not used; the returned dictionary divides again. *)
Definition train_episode_metrics (total_reward : Q) (losses : list Q)
    : result dict :=
  avg_loss ← (if decide (length losses = 0) then Ok 0%Q
              else py_truediv (py_sum losses) (Z.of_nat (length losses)));
  loss ← py_truediv (py_sum losses) (Z.of_nat (length losses));
  Ok [("loss", loss); ("reward", total_reward)].

Definition train_episode (fuel : nat) : M dict :=
  st ← process_state <$> call_env env_reset;
  '(total_reward, losses) ← train_episode_loop fuel st 0%Q [];
  lift (train_episode_metrics total_reward losses).

Fixpoint eval_episode_loop (fuel : nat) (st : list Q) (total_reward : Q)
    : M Q :=
  match fuel with
  | O => timeout
  | S fuel' =>
      act ← call_agent (fun a => select_action a st false);
      '(next_frames, rew, dn) ← call_env (fun e => env_step e act);
      let next_st := process_state next_frames in
      let total_reward := round_f64 (total_reward + rew) in
      if (dn : bool) then mret total_reward
      else eval_episode_loop fuel' next_st total_reward
  end.

Definition eval_episode (fuel : nat) : M dict :=
  st ← process_state <$> call_env env_reset;
  total_reward ← eval_episode_loop fuel st 0%Q;
  mret [("reward", total_reward)].

(** [for episode in range(n): meter.add(episode())]: the dictionaries
    added to the meter, oldest first. *)
Fixpoint run_episodes (episodes : list Z) (episode : M dict)
    : M (list dict) :=
  match episodes with
  | [] => mret []
  | _ :: rest =>
      d ← episode;
      ds ← run_episodes rest episode;
      mret (d :: ds)
  end.

(** The comparison that ends an evaluation pass. *)
Definition evaluation_update (avg_reward : Q) : M unit :=
  best ← gets best_return;
  if Qlt_le_dec best avg_reward
  then modify (set_best_return avg_reward);; save_checkpoint
  else mret tt.

(** The body of the epoch loop of [train]. *)
Definition train_epoch (fuel : nat) (epoch : Z) : M unit :=
  call_agent (fun a => (tt, agent_train a));;
  cfg ← gets config;
  train_dicts ← run_episodes (range (Config.episodes_per_epoch cfg))
                  (train_episode fuel);
  emit (wandb_log_train epoch (return_dict train_dicts));;
  save_state epoch;;
  r ← lift (py_mod epoch (Config.eval_every cfg));
  if decide (r = 0)%Z then
    call_agent (fun a => (tt, agent_eval a));;
    val_dicts ← run_episodes (range (Config.eval_episodes_per_epoch cfg))
                  (eval_episode fuel);
    let avg_metrics := return_dict val_dicts in
    val_reward ← lift (getitem avg_metrics "reward");
    emit (wandb_log_val epoch val_reward);;
    evaluation_update val_reward
  else mret tt.

Fixpoint train_epochs_loop (fuel : nat) (epochs : list Z) : M unit :=
  match epochs with
  | [] => mret tt
  | epoch :: rest => train_epoch fuel epoch;; train_epochs_loop fuel rest
  end.

(** The epochs that [train] runs. *)
Definition epochs_to_run (t : Trainer) : list Z :=
  range_from (start_epoch t) (Config.train_epochs (config t) + 1)%Z.

Definition train (fuel : nat) : M unit :=
  initialize_memory;;
  t ← gets id;
  train_epochs_loop fuel (epochs_to_run t).

(** *** Reading a trace *)

(** The evaluation passes of a trace: each averaged reward that was
    logged, with whether the best-performance checkpoint was written
    right after it. *)
Fixpoint eval_passes (events : list Event) : list (Q * bool) :=
  match events with
  | [] => []
  | wandb_log_val _ r :: rest =>
      (r, match rest with
          | torch_save _ (CheckpointFile _) :: _ => true
          | _ => false
          end) :: eval_passes rest
  | _ :: rest => eval_passes rest
  end.
End trainer_loops.

Section trace_reading.
Context `{C : Collaborators}.

(** The value of [best_return] after evaluation passes with the given
    averaged rewards, from the value [b]. *)
Definition running_best (b : Q) (rs : list Q) : Q :=
  fold_left (fun b r => if Qlt_le_dec b r then r else b) rs b.

(** Events other than those of an evaluation pass. *)
Definition quiet_event (e : Event) : Prop :=
  match e with
  | wandb_log_val _ _ => False
  | torch_save _ (CheckpointFile _) => False
  | _ => True
  end.

(** The design document's reading of the passes: a checkpoint exactly
    where the reward exceeds every earlier one. *)
Definition saved_iff_exceeds_earlier (passes : list (Q * bool)) : Prop :=
  forall i r s, passes !! i = Some (r, s) ->
    (s = true <-> Forall (fun p => (p.1 < r)%Q) (take i passes)).

(** The same, with the value that [best_return] had before the passes
    counted among the earlier rewards. *)
Definition saved_iff_exceeds_best (b : Q) (passes : list (Q * bool))
  : Prop :=
  forall i r s, passes !! i = Some (r, s) ->
    (s = true <->
     (b < r)%Q /\ Forall (fun p => (p.1 < r)%Q) (take i passes)).

(** The passes that the comparison against [best_return] produces for
    averaged rewards [rs], from the value [b]. *)
Fixpoint expected_passes (b : Q) (rs : list Q) : list (Q * bool) :=
  match rs with
  | [] => []
  | r :: rs' =>
      if Qlt_le_dec b r then (r, true) :: expected_passes r rs'
      else (r, false) :: expected_passes b rs'
  end.

Definition not_checkpoint_first (events : list Event) : Prop :=
  match events with
  | torch_save _ (CheckpointFile _) :: _ => False
  | _ => True
  end.

(** [m] relates every world to the world it leaves. *)
Definition preserves (P : relation World) {A} (m : M A) : Prop :=
  forall w, P w (m w).2.

(** Nothing of an evaluation pass happens between [w] and [w']. *)
Definition quiet (w w' : World) : Prop :=
  best_return (self w') = best_return (self w)
  /\ exists evs, trace w' = trace w ++ evs /\ Forall quiet_event evs.

(** Between [w] and [w'], [best_return] and the checkpoints follow the
    logged rewards. *)
Definition tracks (w w' : World) : Prop :=
  exists evs,
    trace w' = trace w ++ evs
    /\ not_checkpoint_first evs
    /\ eval_passes evs
       = expected_passes (best_return (self w)) (eval_passes evs).*1
    /\ best_return (self w')
       = running_best (best_return (self w)) (eval_passes evs).*1.
End trace_reading.

(** ** The round trip of one pixel

    For the byte [k] with [c = k + 1] in the binade [(2^j, 2^(j+1)]]: [c]
    and [k - 1/2] are single-precision numbers, and the value that comes
    back for [k] is within [1/255] of every product that rounds into
    [[k, k + 1)], that is, of every product between [k - 1/2] and the
    midpoint [c - 2^(j-24)] below [c].  All of it is decided by
    computation. *)
Definition roundtrip_check (k : Z) : bool :=
  let c := (k + 1)%Z in
  let j := (Z.log2_up c - 1)%Z in
  Qeq_bool (round_f32 (inject_Z c)) (inject_Z c)
  && Qeq_bool (round_f32 (inject_Z k - (1 # 2))) (inject_Z k - (1 # 2))
  && (-1 <=? j)%Z && (j <=? 7)%Z
  && negb (Qle_bool (inject_Z c) (2 ^ j))
  && Qle_bool (inject_Z c) (2 ^ (j + 1))
  && Qle_bool (inject_Z c - 2 ^ (j - 24) - 255 * dequantize k) 1
  && Qle_bool (255 * dequantize k - (inject_Z k - (1 # 2))) 1.

(** ** Reading the memory, the files and the trace

    Predicates and relations in which the further properties of the
    memory and of the trainer are stated. *)

(** A value of a [uint8] array, and a value of a scaled frame. *)
Definition is_byte (b : Z) : Prop := (0 <= b < 256)%Z.
Definition unit_interval (x : Q) : Prop := (0 <= x /\ x <= 1)%Q.

(** The [uint8] arrays of the memory hold bytes, the terminal flags 0
    or 1. *)
Record stores_bytes (m : ReplayMemory) : Prop := {
  bytes_states : Forall (Forall is_byte) (states m);
  bytes_next_states : Forall (Forall is_byte) (next_states m);
  bytes_actions : Forall is_byte (actions m);
  bytes_terminal : Forall (fun d => d = 0 \/ d = 1)%Z (terminal m)
}.

(** A tensor whose entries are the single-precision quotients by 255 of
    the bytes [ks], in the order of [ks]. *)
Definition scaled_bytes (ks : list Z) : list Q :=
  map (fun k => round_f32 (inject_Z k / 255)) ks.

(** For the byte [k]: [get_batch] and [process_state] scale it to the same
    single-precision number of [[0, 1]], and [_insert_transform] takes
    that number back to [k].  Decided by computation. *)
Definition byte_check (k : Z) : bool :=
  Qeq_bool (dequantize k) (round_f32 (inject_Z k / 255))
  && (quantize (round_f32 (inject_Z k / 255)) =? k)%Z
  && Qle_bool 0 (dequantize k) && Qle_bool (dequantize k) 1.

Section trainer_reading.
Context `{C : Collaborators}.

(** Everything but the environment and the agent is the same in [w] and
    [w']. *)
Definition only_env_agent (w w' : World) : Prop :=
  config (self w') = config (self w)
  /\ output_dir (self w') = output_dir (self w)
  /\ batch_size (self w') = batch_size (self w)
  /\ best_return (self w') = best_return (self w)
  /\ start_epoch (self w') = start_epoch (self w)
  /\ memory (self w') = memory (self w)
  /\ disk w' = disk w
  /\ np_random w' = np_random w
  /\ trace w' = trace w.

(** The memory, the batch size and the configuration are the same in [w]
    and [w']. *)
Definition same_memory (w w' : World) : Prop :=
  memory (self w') = memory (self w)
  /\ batch_size (self w') = batch_size (self w)
  /\ config (self w') = config (self w).

(** The batch size is kept, and a well-formed memory stays well-formed and
    loses no transition. *)
Definition memory_grows (w w' : World) : Prop :=
  batch_size (self w') = batch_size (self w)
  /\ (wf (memory (self w)) ->
      wf (memory (self w'))
      /\ filled (memory (self w)) <= filled (memory (self w'))).

(** The memory holds more transitions than a batch takes. *)
Definition enough_samples (w : World) : Prop :=
  wf (memory (self w))
  /\ (batch_size (self w) < Z.of_nat (filled (memory (self w))))%Z.

(** The outcome is a failed assertion. *)
Definition asserts {A} (o : outcome A) : Prop :=
  match o with
  | Throw (AssertionError _) => True
  | _ => False
  end.

(** The two files of a trainer. *)
Definition state_file (t : Trainer) : string :=
  path_join (output_dir t) "last_state.pt".
Definition checkpoint_file (t : Trainer) : string :=
  path_join (output_dir t) "checkpoint.pt".

(** A [torch.save] of a snapshot to the snapshot file, or of a checkpoint
    to the checkpoint file, or another event. *)
Definition own_file_event (t : Trainer) (e : Event) : Prop :=
  match e with
  | torch_save path (StateFile _ _ _ _) => path = state_file t
  | torch_save path (CheckpointFile _) => path = checkpoint_file t
  | _ => True
  end.

(** Between [w] and [w'] the configuration, the output directory and the
    first epoch are kept, and nothing is written but the two files of the
    trainer. *)
Definition writes_own_files (w w' : World) : Prop :=
  config (self w') = config (self w)
  /\ output_dir (self w') = output_dir (self w)
  /\ start_epoch (self w') = start_epoch (self w)
  /\ (forall path, path <> state_file (self w) ->
        path <> checkpoint_file (self w) ->
        disk w' !! path = disk w !! path)
  /\ exists evs, trace w' = trace w ++ evs
                 /\ Forall (own_file_event (self w)) evs.

(** The checkpoints that a trace records, wherever they stand in it. *)
Definition is_checkpoint_save (e : Event) : bool :=
  match e with
  | torch_save _ (CheckpointFile _) => true
  | _ => false
  end.

Definition checkpoint_saves (events : list Event) : list Event :=
  List.filter is_checkpoint_save events.

(** Between [w] and [w'] as many checkpoints are written as evaluation
    passes are followed by one: no checkpoint is written elsewhere. *)
Definition counts_checkpoints (w w' : World) : Prop :=
  exists evs,
    trace w' = trace w ++ evs
    /\ not_checkpoint_first evs
    /\ length (checkpoint_saves evs)
       = length (List.filter snd (eval_passes evs)).

(** What a trace tells about the epochs: the training metrics logged and
    the snapshots written, in order. *)
Inductive EpochMark :=
| epoch_logged (epoch : Z)
| epoch_saved (epoch : Z).

Fixpoint epoch_marks (events : list Event) : list EpochMark :=
  match events with
  | [] => []
  | wandb_log_train epoch _ :: rest => epoch_logged epoch :: epoch_marks rest
  | torch_save _ (StateFile epoch _ _ _) :: rest =>
      epoch_saved epoch :: epoch_marks rest
  | _ :: rest => epoch_marks rest
  end.

(** Between [w] and [w'] no epoch is logged and no snapshot is written;
    [best_return] does not decrease. *)
Definition keeps_snapshot (w w' : World) : Prop :=
  config (self w') = config (self w)
  /\ output_dir (self w') = output_dir (self w)
  /\ start_epoch (self w') = start_epoch (self w)
  /\ disk w' !! state_file (self w) = disk w !! state_file (self w)
  /\ (best_return (self w) <= best_return (self w'))%Q
  /\ exists evs, trace w' = trace w ++ evs /\ epoch_marks evs = [].
End trainer_reading.

(** A relation between worlds that the calls into the environment and the
    agent, the sampling of a batch and the insertion of a transition
    preserve: the episodes and the memory initialization preserve it
    then. *)
Class Stable `{C : Collaborators} (P : relation World) : Prop := {
  Stable_preorder :: PreOrder P;
  Stable_call_env : forall A (f : Env -> A * Env), preserves P (call_env f);
  Stable_call_agent :
    forall A (f : Agent -> A * Agent), preserves P (call_agent f);
  Stable_get_batch : forall size, preserves P (memory_get_batch size);
  Stable_add_sample : forall t, preserves P (memory_add_sample t)
}.

(** ** The dataset of recorded experience ([data_utils.py])

    [ExperienceDataset] serves recorded frames and actions to a data
    loader.  A frame is a numpy array of shape [(height, width, channels)]
    and dtype [uint8]; here its shape is kept beside the flat list of its
    entries in row-major order, since [__getitem__] reorders them. *)

(** [xs[idx]] for a Python integer [idx]: a negative index counts from the
    end. *)
Definition py_getitem {A} (xs : list A) (idx : Z) : result A :=
  let n := Z.of_nat (length xs) in
  let i := if decide (idx < 0)%Z then (idx + n)%Z else idx in
  if decide (0 <= i < n)%Z then
    match xs !! Z.to_nat i with
    | Some x => Ok x
    | None => Raise IndexError
    end
  else Raise IndexError.

(** [x.permute(2, 0, 1).contiguous()] for a tensor [x] of shape
    [(H, W, C)] given by its entries in row-major order: the entries of
    the tensor of shape [(C, H, W)], in row-major order. *)
Definition permute_2_0_1 {A} (d : A) (H W C : nat) (x : list A) : list A :=
  c ← seq 0 C; h ← seq 0 H; w ← seq 0 W; [nth ((h * W + w) * C + c) x d].

Module data_utils.

Record Frame := {
  height : nat;
  width : nat;
  channels : nat;
  pixels : list Z               (* uint8 *)
}.

(** What every numpy array satisfies. *)
Definition well_shaped (f : Frame) : Prop :=
  length (pixels f) = height f * width f * channels f.

(** A contiguous [float32] tensor. *)
Record Tensor := {
  shape : list nat;
  entries : list Q
}.

Record ExperienceDataset := {
  states : list Frame;
  actions : list Z
}.

Definition __len__ (self : ExperienceDataset) : nat := length (states self).

(** [self.states[idx] / 255.0] is a double-precision quotient, [.float()]
    rounds it to single precision, and [.long()] keeps an integer
    action. *)
Definition __getitem__ (self : ExperienceDataset) (idx : Z)
  : result (Tensor * Z) :=
  f ← py_getitem (states self) idx;
  let scaled := map (fun b => round_f64 (inject_Z b / 255)) (pixels f) in
  let permuted :=
    permute_2_0_1 0%Q (height f) (width f) (channels f) scaled in
  let item := {| shape := [channels f; height f; width f];
                 entries := map round_f32 permuted |} in
  a ← py_getitem (actions self) idx;
  Ok (item, a).
End data_utils.

(** ** A concrete generator for running the model

    A linear congruential generator; [random_interval] reduces its high
    bits to the requested range. *)

Definition lcg_interval (s : N) (max : nat) : nat * N :=
  (N.to_nat (s / 65536) mod S max, ((s * 1103515245 + 12345) mod 2 ^ 31)%N).

Lemma lcg_interval_le s max : (lcg_interval s max).1 <= max.
Proof.
  unfold lcg_interval. cbn [fst].
  pose proof (Nat.mod_upper_bound (N.to_nat (s / 65536)) (S max)). lia.
Qed.

Global Instance lcg : RandomState N :=
  {| random_interval := lcg_interval; random_interval_le := lcg_interval_le |}.

(** ** Example data

    Transitions over two-pixel frames (shapes are not tracked), and a
    buffer of capacity 4 that holds three of them. *)

Definition example_transition (k : Z) : Transition :=
  {| state := [inject_Z k / 255; 1 # 3]%Q;
     action := k;
     next_state := [inject_Z (k + 1) / 255; 1 # 3]%Q;
     reward := inject_Z k;
     done := false |}.

Definition example_memory : ReplayMemory :=
  {| ptr := 3;
     filled := 3;
     device := "cpu";
     stack_size := 4;
     mem_size := 4;
     states := [[0; 85]; [1; 85]; [2; 85]; [0; 0]]%Z;
     next_states := [[1; 85]; [2; 85]; [3; 85]; [0; 0]]%Z;
     actions := [0; 1; 2; 0]%Z;
     rewards := [0; 1; 2; 0]%Q;
     terminal := [0; 0; 0; 0]%Z |}.

(** The example buffer after one more insertion, with the action 300, and
    a batch of three drawn from it. *)
Definition example_memory_300 : ReplayMemory :=
  Eval vm_compute in
    match add_sample example_memory (example_transition 300) with
    | Ok m => m
    | Raise _ => example_memory
    end.

Definition example_batch : Batch * N :=
  Eval vm_compute in
    match get_batch 42%N example_memory_300 3 with
    | Ok r => r
    | Raise _ => (Build_Batch [] [] [] [] [], 0%N)
    end.

(** The same with a transition whose frames lie in [[0, 1]]. *)
Definition example_memory_7 : ReplayMemory :=
  Eval vm_compute in
    match add_sample example_memory (example_transition 7) with
    | Ok m => m
    | Raise _ => example_memory
    end.

Definition example_batch_7 : Batch * N :=
  Eval vm_compute in
    match get_batch 42%N example_memory_7 3 with
    | Ok r => r
    | Raise _ => (Build_Batch [] [] [] [] [], 0%N)
    end.

(** ** Example collaborators

    A scripted environment: each step takes its reward and terminal flag
    from the head of the script.  The agent counts the actions it selects
    in training mode, and reports the loss [1/2] for every update.  The
    meter averages each key exactly. *)

Record ExampleAgent := {
  example_action_steps : Z;
  example_learning_steps : Z;
  example_training : bool
}.

Definition example_frames : list Z := [0; 128]%Z.

Definition example_env_step (e : list (Q * bool)) (a : Z)
  : (list Z * Q * bool) * list (Q * bool) :=
  match e with
  | [] => ((example_frames, 0%Q, true), [])
  | (r, d) :: e' => ((example_frames, r, d), e')
  end.

Definition example_select_action (a : ExampleAgent) (st : list Q)
    (train : bool) : Z * ExampleAgent :=
  (0%Z,
   {| example_action_steps :=
        (if train then example_action_steps a + 1
         else example_action_steps a)%Z;
      example_learning_steps := example_learning_steps a;
      example_training := example_training a |}).

Definition example_mean (key : string) (ds : list dict) : list Q :=
  omap (fun d => match getitem d key with Ok v => Some v | Raise _ => None end)
    ds.

Definition example_return_dict (ds : list dict) : dict :=
  match ds with
  | [] => []
  | d :: _ =>
      map (fun kv =>
             let vs := example_mean kv.1 ds in
             (kv.1, Qred (fold_right Qplus 0%Q vs
                          / inject_Z (Z.of_nat (length vs)))))
        d
  end.

Definition example_collaborators (script : list (Q * bool))
  : Collaborators :=
  {| Env := list (Q * bool);
     Agent := ExampleAgent;
     Generator := N;
     Generator_random := lcg;
     make_env := script;
     env_reset := fun e => (example_frames, e);
     env_step := example_env_step;
     action_space_sample := fun e => (0%Z, e);
     action_space_n := fun _ => 4%Z;
     DoubleDQN := fun _ _ =>
       {| example_action_steps := 0; example_learning_steps := 0;
          example_training := true |};
     select_action := example_select_action;
     learn_from_memory := fun a _ => (1 # 2, a);
     action_steps := example_action_steps;
     learning_steps := example_learning_steps;
     set_learning_steps := fun a n =>
       {| example_action_steps := example_action_steps a;
          example_learning_steps := n;
          example_training := example_training a |};
     agent_train := fun a =>
       {| example_action_steps := example_action_steps a;
          example_learning_steps := example_learning_steps a;
          example_training := true |};
     agent_eval := fun a =>
       {| example_action_steps := example_action_steps a;
          example_learning_steps := example_learning_steps a;
          example_training := false |};
     return_dict := example_return_dict |}.

Definition example_config (interval : Z) : Config.t :=
  {| Config.frames_per_sample := 4;
     Config.batch_size := 1;
     Config.memory_size := 4;
     Config.memory_init_steps := 2;
     Config.learning_interval := interval;
     Config.train_epochs := 2;
     Config.episodes_per_epoch := 1;
     Config.eval_every := 1;
     Config.eval_episodes_per_epoch := 1 |}.

Definition example_args (interval : Z) : Args :=
  {| args_config := example_config interval;
     args_output_dir := "outputs/double_q/breakout/run";
     args_device := "cpu";
     resume := None;
     load := None |}.

(** The fresh trainer that [Trainer.__init__] builds from these arguments
    over a script, with no files on disk. *)
Definition example_fresh_memory : ReplayMemory :=
  {| ptr := 0;
     filled := 0;
     device := "cpu";
     stack_size := 4;
     mem_size := 4;
     states := replicate 4 (replicate (4 * 84 * 84) 0%Z);
     next_states := replicate 4 (replicate (4 * 84 * 84) 0%Z);
     actions := replicate 4 0%Z;
     rewards := replicate 4 0%Q;
     terminal := replicate 4 0%Z |}.

Definition example_world (interval : Z) (script : list (Q * bool))
  : @World (example_collaborators script) :=
  let t : @Trainer (example_collaborators script) :=
    {| config := example_config interval;
       output_dir := "outputs/double_q/breakout/run";
       trainer_device := "cpu";
       trainer_stack_size := 4;
       batch_size := 1;
       best_return := 0;
       start_epoch := 1;
       env := script : @Env (example_collaborators script);
       agent := {| example_action_steps := 0;
                   example_learning_steps := 0;
                   example_training := true |}
                : @Agent (example_collaborators script);
       memory := example_fresh_memory |} in
  {| self := t;
     disk := ∅;
     np_random := 42%N : @Generator (example_collaborators script);
     trace := [] |}.

(** Two steps for the memory initialization, then per epoch one training
    episode with reward 1 and one evaluation episode, with rewards -5 and
    -3; every episode ends at its first step. *)
Definition example_script : list (Q * bool) :=
  [(0, true); (0, true); (1, true); (-5, true); (1, true); (-3, true)]%Q.

(** ** Further example data *)

(** A transition whose frame stacks are bytes divided by 255. *)
Definition example_frames_transition : Transition :=
  {| state := scaled_bytes [7; 85]%Z;
     action := 1;
     next_state := scaled_bytes [8; 255]%Z;
     reward := 1;
     done := true |}.

Definition example_memory_frames : ReplayMemory :=
  Eval vm_compute in
    match add_sample example_memory example_frames_transition with
    | Ok m => m
    | Raise _ => example_memory
    end.

Definition example_batch_frames : Batch * N :=
  Eval vm_compute in
    match get_batch 42%N example_memory_frames 3 with
    | Ok r => r
    | Raise _ => (Build_Batch [] [] [] [] [], 0%N)
    end.

(** A buffer of capacity 4 (and stack size 0) after three insertions, and
    a batch of two drawn from it. *)
Definition example_memory_built : ReplayMemory :=
  Eval vm_compute in
    match (m0 ← ReplayMemory_init 4 "cpu" 0;
           add_samples m0 (map example_transition (seqZ 0 3))) with
    | Ok m => m
    | Raise _ => example_memory
    end.

Definition example_batch_built : Batch * N :=
  Eval vm_compute in
    match get_batch 42%N example_memory_built 2 with
    | Ok r => r
    | Raise _ => (Build_Batch [] [] [] [] [], 0%N)
    end.

(** Files of two earlier runs: the snapshot of epoch 1 of one, the best
    checkpoint of the other. *)
Definition example_snapshot_agent : ExampleAgent :=
  {| example_action_steps := 7; example_learning_steps := 3;
     example_training := true |}.
Definition example_checkpoint_agent : ExampleAgent :=
  {| example_action_steps := 5; example_learning_steps := 2;
     example_training := false |}.

Definition example_files
  : gmap string (@Artifact (example_collaborators example_script)) :=
  {[ "runs/a/last_state.pt" :=
       StateFile (C := example_collaborators example_script) 1
         example_snapshot_agent example_memory (3 # 2);
     "runs/b/checkpoint.pt" :=
       CheckpointFile (C := example_collaborators example_script)
         example_checkpoint_agent ]}.

Definition example_args_restore (resume_dir load_dir : option string)
  : Args :=
  {| args_config := example_config 1;
     args_output_dir := "outputs/double_q/breakout/run";
     args_device := "cpu";
     resume := resume_dir;
     load := load_dir |}.

(** The example trainer with [eval_every = 0]. *)
Definition example_config_no_eval : Config.t :=
  {| Config.frames_per_sample := 4;
     Config.batch_size := 1;
     Config.memory_size := 4;
     Config.memory_init_steps := 2;
     Config.learning_interval := 1;
     Config.train_epochs := 2;
     Config.episodes_per_epoch := 1;
     Config.eval_every := 0;
     Config.eval_episodes_per_epoch := 1 |}.

Definition example_world_no_eval
  : @World (example_collaborators example_script) :=
  let w := example_world 1 example_script in
  {| self := {| config := example_config_no_eval;
                output_dir := output_dir (self w);
                trainer_device := trainer_device (self w);
                trainer_stack_size := trainer_stack_size (self w);
                batch_size := batch_size (self w);
                best_return := best_return (self w);
                start_epoch := start_epoch (self w);
                env := env (self w);
                agent := agent (self w);
                memory := memory (self w) |};
     disk := disk w;
     np_random := np_random w;
     trace := trace w |}.

(** A dataset of two frames of one row, two columns and two channels. *)
Definition example_frame : data_utils.Frame :=
  {| data_utils.height := 1;
     data_utils.width := 2;
     data_utils.channels := 2;
     data_utils.pixels := [10; 20; 30; 40]%Z |}.

Definition example_dataset : data_utils.ExperienceDataset :=
  {| data_utils.states := [example_frame; example_frame];
     data_utils.actions := [3; 1]%Z |}.

(** * Properties *)

(** ** The ring buffer *)

Lemma ReplayMemory_init_ok (M : nat) dev (stack : Z) :
  (0 <= stack)%Z ->
  exists m0, ReplayMemory_init (Z.of_nat M) dev stack = Ok m0
    /\ wf m0 /\ mem_size m0 = M /\ ptr m0 = 0 /\ filled m0 = 0.
Proof.
  intros Hs. unfold ReplayMemory_init.
  destruct (decide _) as [[?|?]|_]; [lia | lia |].
  eexists; split; [reflexivity|]. rewrite Nat2Z.id.
  split; [|done].
  constructor; simpl; rewrite ?length_replicate; lia.
Qed.

Lemma setitem_ok {A} (arr : list A) i v :
  i < length arr -> np.setitem arr i v = Ok (<[i := v]> arr).
Proof. intros. unfold np.setitem. by rewrite decide_True. Qed.

Lemma add_sample_ok m t :
  wf m -> 0 < mem_size m ->
  exists m', add_sample m t = Ok m'
    /\ wf m'
    /\ mem_size m' = mem_size m
    /\ ptr m' = (ptr m + 1) mod mem_size m
    /\ filled m' = (filled m + 1) `min` mem_size m
    /\ entry m' (ptr m) = Some (stored t)
    /\ forall i, i <> ptr m -> entry m' i = entry m i.
Proof.
  intros [] HM.
  assert (ptr m < mem_size m) as Hp by lia.
  unfold add_sample, _insert_transform.
  rewrite !setitem_ok by lia. cbn [mbind result_bind].
  rewrite decide_False by lia.
  eexists; split; [reflexivity|].
  split; [constructor; cbn; rewrite ?length_insert; try lia|].
  { left. apply Nat.mod_upper_bound. lia. }
  do 3 (split; [done|]).
  unfold entry, stored; cbn. split.
  - rewrite !list_lookup_insert_eq by lia. done.
  - intros i Hi. rewrite !list_lookup_insert_ne by done. done.
Qed.

Lemma add_samples_app m ts t :
  add_samples m (ts ++ [t]) = (m' ← add_samples m ts; add_sample m' t).
Proof.
  revert m. induction ts as [|t' ts IH]; intros m; cbn.
  - unfold mbind, result_bind. by destruct (add_sample m t).
  - unfold mbind, result_bind at 1 3.
    destruct (add_sample m t'); [apply IH | done].
Qed.

(** After [N] insertions into a fresh buffer of capacity [M]: the counters,
    and where each of the last [M] transitions lies. *)
Lemma add_samples_fresh (M : nat) dev stack (ts : list Transition) :
  0 < M -> (0 <= stack)%Z ->
  exists m0 m,
    ReplayMemory_init (Z.of_nat M) dev stack = Ok m0
    /\ add_samples m0 ts = Ok m
    /\ wf m /\ mem_size m = M
    /\ filled m = length ts `min` M
    /\ ptr m = length ts mod M
    /\ forall j t, ts !! j = Some t -> length ts <= j + M ->
         entry m (j mod M) = Some (stored t).
Proof.
  intros HM Hs.
  destruct (ReplayMemory_init_ok M dev stack Hs)
    as (m0 & Hinit & Hwf0 & HM0 & Hp0 & Hf0).
  exists m0. induction ts as [|t ts IH] using rev_ind.
  - exists m0. do 4 (split; [done|]). cbn. rewrite Hf0, Hp0.
    split; [done|]. split; [by rewrite Nat.Div0.mod_0_l|].
    intros j t Hj. by rewrite lookup_nil in Hj.
  - destruct IH as (m & _ & Hrun & Hwf & HMm & Hf & Hp & Hent).
    destruct (add_sample_ok m t Hwf ltac:(lia))
      as (m' & Hadd & Hwf' & HM' & Hp' & Hf' & Hnew & Hold).
    exists m'. rewrite add_samples_app, Hrun. cbn.
    rewrite length_app. cbn [length].
    split; [done|]. split; [done|]. split; [done|].
    split; [congruence|]. split; [lia|]. split.
    + rewrite Hp', Hp, HMm.
      rewrite Nat.Div0.add_mod_idemp_l. done.
    + intros j t' Hj Hlen.
      destruct (decide (j = length ts)) as [->|Hne].
      * rewrite list_lookup_middle in Hj by done. injection Hj as <-.
        rewrite <- Hp. done.
      * assert (j < length ts) as Hlt.
        { apply lookup_lt_Some in Hj. rewrite length_app in Hj.
          cbn in Hj. lia. }
        rewrite lookup_app_l in Hj by done.
        rewrite Hold; [apply Hent; [done | lia]|].
        rewrite Hp. intros Heq.
        pose proof (Nat.div_mod_eq j M) as Hdj.
        pose proof (Nat.div_mod_eq (length ts) M) as Hdn.
        rewrite <- Heq in Hdn.
        assert (j `div` M < length ts `div` M) by nia.
        nia.
Qed.

(** Every buffer that the constructor and [add_sample] produce is well
    formed. *)
Lemma add_sample_wf m t m' : wf m -> add_sample m t = Ok m' -> wf m'.
Proof.
  intros Hwf Hadd.
  destruct (decide (mem_size m = 0)) as [H0|H0].
  - exfalso. unfold add_sample, _insert_transform, np.setitem in Hadd.
    destruct Hwf as [Hs _ _ _ _ _ _].
    repeat case_decide; try done; lia.
  - destruct (add_sample_ok m t Hwf ltac:(lia)) as (m'' & Hadd' & Hwf' & _).
    congruence.
Qed.

Lemma add_samples_wf m ts m' : wf m -> add_samples m ts = Ok m' -> wf m'.
Proof.
  revert m. induction ts as [|t ts IH]; intros m Hwf; cbn.
  - by intros [= <-].
  - destruct (add_sample m t) as [m1|] eqn:Hadd; [|done]. cbn.
    apply IH. by eapply add_sample_wf.
Qed.

Lemma ReplayMemory_init_wf memory_size dev stack m :
  ReplayMemory_init memory_size dev stack = Ok m -> wf m.
Proof.
  unfold ReplayMemory_init. case_decide; [done|]. intros [= <-].
  constructor; cbn; rewrite ?length_replicate; lia.
Qed.

(** C1 (ring invariant).  After any [N] calls of [add_sample] on a buffer
    constructed with capacity [M > 0], [filled = min N M] and
    [ptr = N mod M]; in particular [ptr] lies in [[0, M)]. *)
Theorem ring_invariant (M : nat) (dev : string) (stack : Z)
    (ts : list Transition) :
  0 < M -> (0 <= stack)%Z ->
  exists m0 m,
    ReplayMemory_init (Z.of_nat M) dev stack = Ok m0
    /\ add_samples m0 ts = Ok m
    /\ filled m = length ts `min` M
    /\ ptr m = length ts mod M
    /\ ptr m < M.
Proof.
  intros HM Hs.
  destruct (add_samples_fresh M dev stack ts HM Hs)
    as (m0 & m & Hinit & Hrun & Hwf & HMm & Hf & Hp & _).
  exists m0, m. do 4 (split; [done|]).
  rewrite Hp. apply Nat.mod_upper_bound. lia.
Qed.

(** C5 (overwrite correctness).  After [M + k] insertions ([k < M]) into a
    fresh buffer of capacity [M], position [i < k] holds the transition
    inserted as number [M + i] (counting from 0) and position [i] in
    [[k, M)] still holds transition number [i].  With [M = 10] and 15
    transitions whose actions are the markers 0..14: [filled = 10],
    [ptr = 5] and the markers stored at positions 0..9 are
    10,11,12,13,14,5,6,7,8,9. *)
Theorem overwrite_correctness (M k : nat) (dev : string) (stack : Z)
    (ts : list Transition) :
  k < M -> (0 <= stack)%Z -> length ts = M + k ->
  exists m0 m,
    ReplayMemory_init (Z.of_nat M) dev stack = Ok m0
    /\ add_samples m0 ts = Ok m
    /\ (forall i, i < k ->
          exists t, ts !! (M + i) = Some t /\ entry m i = Some (stored t))
    /\ (forall i, k <= i < M ->
          exists t, ts !! i = Some t /\ entry m i = Some (stored t))
    /\ (M = 10 -> map action ts = seqZ 0 15 ->
          filled m = 10 /\ ptr m = 5
          /\ actions m = [10; 11; 12; 13; 14; 5; 6; 7; 8; 9]%Z).
Proof.
  intros Hk Hs Hlen.
  destruct (add_samples_fresh M dev stack ts ltac:(lia) Hs)
    as (m0 & m & Hinit & Hrun & Hwf & HMm & Hf & Hp & Hent).
  exists m0, m. do 2 (split; [done|]).
  assert (forall j, j < M + k -> M + k <= j + M ->
            exists t, ts !! j = Some t
                      /\ entry m (j mod M) = Some (stored t)) as Hj.
  { intros j Hlt Hge.
    destruct (lookup_lt_is_Some_2 ts j ltac:(lia)) as [t Ht].
    exists t. split; [done|]. apply Hent; [done | lia]. }
  assert (forall i, i < k ->
            exists t, ts !! (M + i) = Some t /\ entry m i = Some (stored t))
    as Hlow.
  { intros i Hi. destruct (Hj (M + i) ltac:(lia) ltac:(lia)) as (t & ? & Ht).
    exists t. split; [done|].
    replace ((M + i) mod M) with i in Ht; [done|].
    rewrite <- Nat.Div0.add_mod_idemp_l, Nat.Div0.mod_same, Nat.add_0_l.
    symmetry. apply Nat.mod_small. lia. }
  assert (forall i, k <= i < M ->
            exists t, ts !! i = Some t /\ entry m i = Some (stored t))
    as Hhigh.
  { intros i Hi. destruct (Hj i ltac:(lia) ltac:(lia)) as (t & ? & Ht).
    exists t. split; [done|]. by rewrite Nat.mod_small in Ht by lia. }
  do 2 (split; [done|]).
  intros -> Hact.
  assert (k = 5) as ->.
  { apply (f_equal length) in Hact.
    rewrite length_map, length_seqZ in Hact. lia. }
  split; [by rewrite Hf, Hlen|]. split; [by rewrite Hp, Hlen|].
  assert (forall i j t, ts !! j = Some t -> entry m i = Some (stored t) ->
            actions m !! i = Some (Z.of_nat j)) as Hmark.
  { intros i j t Hjt He.
    pose proof (lookup_lt_Some _ _ _ Hjt) as Hjl.
    assert (action t = Z.of_nat j) as Ha.
    { apply (f_equal (fun l => l !! j)) in Hact.
      rewrite list_lookup_fmap, Hjt in Hact. cbn in Hact.
      rewrite lookup_seqZ_lt in Hact by lia. injection Hact as ->. lia. }
    unfold entry, stored in He.
    destruct (states m !! i); [|done]. cbn in He.
    destruct (actions m !! i) as [a|]; [|done]. cbn in He.
    destruct (next_states m !! i); [|done]. cbn in He.
    destruct (rewards m !! i); [|done]. cbn in He.
    destruct (terminal m !! i); [|done]. cbn in He.
    injection He as _ -> _ _ _. rewrite Ha. unfold np.int_to_uint8.
    f_equal. apply Z.mod_small. lia. }
  destruct Hwf as [_ _ Hla _ _ _ _]. rewrite HMm in Hla.
  apply list_eq. intros i.
  destruct (decide (i < 5)) as [Hi|Hi].
  - destruct (Hlow i Hi) as (t & Ht & He).
    rewrite (Hmark _ _ _ Ht He).
    do 5 (destruct i as [|i]; [done|]). lia.
  - destruct (decide (i < 10)) as [Hi'|Hi'].
    + destruct (Hhigh i ltac:(lia)) as (t & Ht & He).
      rewrite (Hmark _ _ _ Ht He).
      do 5 (destruct i as [|i]; [lia|]).
      do 5 (destruct i as [|i]; [done|]). lia.
    + rewrite !lookup_ge_None_2; [done | cbn; lia | lia].
Qed.

(** ** Sampling *)

Lemma take_rows_spec {A} (arr : list A) idx rows :
  np.take_rows arr idx = Ok rows ->
  Forall2 (fun i v => arr !! i = Some v) idx rows.
Proof.
  revert rows. induction idx as [|i idx IH]; intros rows; cbn.
  - intros [= <-]. constructor.
  - destruct (arr !! i) as [v|] eqn:Hv; [|done].
    destruct (np.take_rows arr idx) as [vs|]; [|done].
    intros [= <-]. constructor; auto.
Qed.

Lemma take_rows_ok {A} (arr : list A) idx :
  Forall (fun i => i < length arr) idx ->
  exists rows, np.take_rows arr idx = Ok rows.
Proof.
  induction 1 as [|i idx Hi _ [rows IH]]; cbn; [by eexists|].
  destruct (lookup_lt_is_Some_2 arr i Hi) as [v ->].
  rewrite IH. by eexists.
Qed.

Lemma take_rows_arange n idx :
  Forall (fun i => i < n) idx -> np.take_rows (seq 0 n) idx = Ok idx.
Proof.
  induction 1 as [|i idx Hi _ IH]; cbn; [done|].
  rewrite lookup_seq_lt by done. rewrite IH. done.
Qed.

Section sampling.
Context {R : Type} `{!RandomState R}.

Lemma swap_Permutation {A} (x : list A) i j : np_random.swap x i j ≡ₚ x.
Proof.
  unfold np_random.swap.
  destruct (x !! i) eqn:Hi; [|done].
  destruct (x !! j) eqn:Hj; [|done].
  by apply Permutation_insert_swap.
Qed.

Lemma shuffle_from_Permutation {A} i (x : list A) (s : R) :
  (np_random.shuffle_from i x s).1 ≡ₚ x.
Proof.
  revert x s. induction i as [|i IH]; intros x s; cbn; [done|].
  destruct (random_interval s (S i)) as [j s'].
  rewrite IH. apply swap_Permutation.
Qed.

Lemma permutation_Permutation (s : R) n :
  (np_random.permutation s n).1 ≡ₚ seq 0 n.
Proof. apply shuffle_from_Permutation. Qed.

(** [choice] on [arange(n)] without replacement: [size] pairwise
    distinct numbers below [n]. *)
Lemma choice_arange (s : R) (n : nat) (size : Z) :
  (0 <= size <= Z.of_nat n)%Z ->
  exists idx s',
    np_random.choice s (seq 0 n) size = Ok (idx, s')
    /\ length idx = Z.to_nat size
    /\ NoDup idx
    /\ Forall (fun i => i < n) idx.
Proof.
  intros Hsize. unfold np_random.choice.
  rewrite decide_False by lia. rewrite length_seq.
  rewrite decide_False by lia.
  pose proof (permutation_Permutation s n) as Hperm.
  destruct (np_random.permutation s n) as [perm s']. cbn in Hperm.
  assert (Forall (fun i => i < n) (take (Z.to_nat size) perm)) as Hlt.
  { apply Forall_forall. intros i Hi%subseteq_take.
    rewrite Hperm in Hi. apply elem_of_seq in Hi. lia. }
  rewrite take_rows_arange by done.
  eexists _, _. split; [done|]. split; [|split; [|done]].
  - rewrite length_take_le; [done|].
    rewrite Hperm, length_seq. lia.
  - eapply sublist_NoDup; [|apply sublist_take].
    rewrite Hperm. apply NoDup_seq.
Qed.

Lemma get_batch_inv (s s' : R) m bs b :
  get_batch s m bs = Ok (b, s') ->
  exists idx, draw_indices s m bs = Ok (idx, s') /\ gather m idx = Ok b.
Proof.
  unfold get_batch. destruct (draw_indices s m bs) as [[idx s'']|]; [|done].
  cbn. destruct (gather m idx) as [b'|] eqn:Hg; [|done]. cbn.
  intros [= <- <-]. by exists idx.
Qed.
End sampling.

(** The rows of a gathered batch, position by position. *)
Lemma gather_inv m idx b :
  gather m idx = Ok b ->
  Forall2 (fun i v => rescale_from_uint8 <$> states m !! i = Some v)
    idx (batch_state b)
  /\ Forall2 (fun i v => actions m !! i = Some v) idx (batch_action b)
  /\ Forall2 (fun i v => rescale_from_uint8 <$> next_states m !! i = Some v)
       idx (batch_next_state b)
  /\ Forall2 (fun i v => rewards m !! i = Some v) idx (batch_reward b)
  /\ Forall2 (fun i v => inject_Z <$> terminal m !! i = Some v)
       idx (batch_done b).
Proof.
  unfold gather.
  destruct (np.take_rows (states m) idx) as [st|] eqn:Hst; [|done].
  destruct (np.take_rows (next_states m) idx) as [nst|] eqn:Hnst; [|done].
  destruct (np.take_rows (actions m) idx) as [act|] eqn:Hact; [|done].
  destruct (np.take_rows (rewards m) idx) as [rew|] eqn:Hrew; [|done].
  destruct (np.take_rows (terminal m) idx) as [dn|] eqn:Hdn; [|done].
  cbn. intros [= <-]. cbn.
  apply take_rows_spec in Hst, Hnst, Hact, Hrew, Hdn.
  repeat split; try done.
  - apply Forall2_fmap_r. eapply Forall2_impl; [done|].
    intros i v ->. done.
  - apply Forall2_fmap_r. eapply Forall2_impl; [done|].
    intros i v ->. done.
  - apply Forall2_fmap_r. eapply Forall2_impl; [done|].
    intros i v ->. done.
Qed.

Lemma gather_ok m idx :
  wf m -> Forall (fun i => i < mem_size m) idx ->
  exists b, gather m idx = Ok b.
Proof.
  intros [H1 H2 H3 H4 H5 _ _] Hidx. unfold gather.
  destruct (take_rows_ok (states m) idx) as [? ->]; [by rewrite H1|].
  destruct (take_rows_ok (next_states m) idx) as [? ->]; [by rewrite H2|].
  destruct (take_rows_ok (actions m) idx) as [? ->]; [by rewrite H3|].
  destruct (take_rows_ok (rewards m) idx) as [? ->]; [by rewrite H4|].
  destruct (take_rows_ok (terminal m) idx) as [? ->]; [by rewrite H5|].
  cbn. by eexists.
Qed.

(** C3 (sampling without replacement), amended with [0 <= b].  On a
    well-formed buffer, [get_batch b] with [0 <= b < filled] returns; its
    five arrays have exactly [b] rows, gathered at [b] pairwise distinct
    positions that all lie in [[0, filled)]: row [j] of each array is the
    entry of the buffer at the [j]-th position drawn, the frames divided
    by 255 in double precision and rounded to single precision, the
    action and the reward as stored, the terminal flag as a float. *)
Theorem get_batch_distinct {R : Type} `{!RandomState R}
    (s : R) (m : ReplayMemory) (b : Z) :
  wf m -> (0 <= b < Z.of_nat (filled m))%Z ->
  exists idx batch s',
    draw_indices s m b = Ok (idx, s')
    /\ get_batch s m b = Ok (batch, s')
    /\ gather m idx = Ok batch
    /\ length idx = Z.to_nat b
    /\ NoDup idx
    /\ Forall (fun i => i < filled m) idx
    /\ length (batch_state batch) = Z.to_nat b
    /\ length (batch_action batch) = Z.to_nat b
    /\ length (batch_next_state batch) = Z.to_nat b
    /\ length (batch_reward batch) = Z.to_nat b
    /\ length (batch_done batch) = Z.to_nat b
    /\ forall j i, idx !! j = Some i ->
         exists st act nst rew dn,
           states m !! i = Some st
           /\ actions m !! i = Some act
           /\ next_states m !! i = Some nst
           /\ rewards m !! i = Some rew
           /\ terminal m !! i = Some dn
           /\ batch_state batch !! j
              = Some (map (fun k => round_f32 (round_f64 (inject_Z k / 255)))
                        st)
           /\ batch_action batch !! j = Some act
           /\ batch_next_state batch !! j
              = Some (map (fun k => round_f32 (round_f64 (inject_Z k / 255)))
                        nst)
           /\ batch_reward batch !! j = Some rew
           /\ batch_done batch !! j = Some (inject_Z dn).
Proof.
  intros Hwf Hb.
  destruct (choice_arange s (filled m) b ltac:(lia))
    as (idx & s' & Hc & Hlen & Hnd & Hlt).
  assert (draw_indices s m b = Ok (idx, s')) as Hdraw.
  { unfold draw_indices. by rewrite decide_True by lia. }
  destruct (gather_ok m idx Hwf) as [batch Hg].
  { eapply Forall_impl; [done|]. cbn. intros i Hi.
    pose proof (wf_filled m Hwf). lia. }
  exists idx, batch, s'. split; [done|]. split.
  { unfold get_batch. rewrite Hdraw. cbn. rewrite Hg. done. }
  do 4 (split; [done|]).
  destruct (gather_inv m idx batch Hg) as (H1 & H2 & H3 & H4 & H5).
  pose proof (Forall2_length _ _ _ H1). pose proof (Forall2_length _ _ _ H2).
  pose proof (Forall2_length _ _ _ H3). pose proof (Forall2_length _ _ _ H4).
  pose proof (Forall2_length _ _ _ H5).
  do 5 (split; [congruence|]).
  intros j i Hj.
  destruct (Forall2_lookup_l _ _ _ _ _ H1 Hj) as (v1 & Hv1 & E1).
  destruct (Forall2_lookup_l _ _ _ _ _ H2 Hj) as (v2 & Hv2 & E2).
  destruct (Forall2_lookup_l _ _ _ _ _ H3 Hj) as (v3 & Hv3 & E3).
  destruct (Forall2_lookup_l _ _ _ _ _ H4 Hj) as (v4 & Hv4 & E4).
  destruct (Forall2_lookup_l _ _ _ _ _ H5 Hj) as (v5 & Hv5 & E5).
  destruct (states m !! i) as [st|]; [|done].
  destruct (next_states m !! i) as [nst|]; [|done].
  destruct (terminal m !! i) as [dn|]; [|done].
  cbn in E1, E3, E5. injection E1 as <-. injection E3 as <-.
  injection E5 as <-.
  exists st, v2, nst, v4, dn. by repeat split.
Qed.

(** C4 (insufficient samples).  [get_batch b] with [b >= filled] fails on
    its assertion, whatever the buffer and the generator: no batch is
    returned. *)
Theorem get_batch_insufficient {R : Type} `{!RandomState R}
    (s : R) (m : ReplayMemory) (b : Z) :
  (Z.of_nat (filled m) <= b)%Z ->
  get_batch s m b = Raise (AssertionError "Not enough samples yet")
  /\ forall batch s', get_batch s m b <> Ok (batch, s').
Proof.
  intros Hb.
  assert (get_batch s m b = Raise (AssertionError "Not enough samples yet"))
    as Hfail.
  { unfold get_batch, draw_indices. by rewrite decide_False by lia. }
  split; [done|]. intros batch s'. by rewrite Hfail.
Qed.

(** C10 (actions are bytes).  The action that [get_batch] returns for an
    entry written by [add_sample] with action [a] is [a mod 256]: an action
    in [[0, 255]] comes back unchanged, an action of 256 or more comes back
    as a different, smaller number. *)
Theorem action_wraps_mod_256 {R : Type} `{!RandomState R}
    (s s' : R) (m m' : ReplayMemory) (t : Transition) (bs : Z)
    (batch : Batch) :
  add_sample m t = Ok m' ->
  get_batch s m' bs = Ok (batch, s') ->
  actions m' !! ptr m = Some (action t mod 256)%Z
  /\ exists idx,
       draw_indices s m' bs = Ok (idx, s')
       /\ forall j, idx !! j = Some (ptr m) ->
            batch_action batch !! j = Some (action t mod 256)%Z
            /\ ((0 <= action t <= 255)%Z ->
                batch_action batch !! j = Some (action t))
            /\ ((256 <= action t)%Z ->
                batch_action batch !! j <> Some (action t)).
Proof.
  intros Hadd Hget.
  assert (actions m' !! ptr m = Some (action t mod 256)%Z) as Hst.
  { unfold add_sample, _insert_transform, np.setitem in Hadd.
    repeat case_decide; try done. cbn in Hadd.
    repeat case_decide; try done. injection Hadd as <-. cbn.
    by rewrite list_lookup_insert_eq by done. }
  split; [done|].
  destruct (get_batch_inv _ _ _ _ _ Hget) as (idx & Hdraw & Hg).
  exists idx. split; [done|]. intros j Hj.
  destruct (gather_inv _ _ _ Hg) as (_ & Hact & _).
  destruct (Forall2_lookup_l _ _ _ _ _ Hact Hj) as (a & Ha & Hm).
  rewrite Hst in Hm. injection Hm as <-.
  split; [done|]. split.
  - intros Hr. by rewrite Ha, Z.mod_small by lia.
  - intros Hr. rewrite Ha. intros [= Heq].
    pose proof (Z.mod_pos_bound (action t) 256). lia.
Qed.

(** C1, run on a buffer of capacity 3 and five insertions. *)
Lemma ring_invariant_witness :
  0 < 3 /\ (0 <= 4)%Z
  /\ exists m0 m,
       ReplayMemory_init (Z.of_nat 3) "cpu" 4 = Ok m0
       /\ add_samples m0 (map example_transition (seqZ 0 5)) = Ok m
       /\ filled m = length (map example_transition (seqZ 0 5)) `min` 3
       /\ ptr m = length (map example_transition (seqZ 0 5)) mod 3
       /\ ptr m < 3.
Proof.
  split; [lia|]. split; [lia|].
  apply (ring_invariant 3 "cpu" 4 (map example_transition (seqZ 0 5))); lia.
Defined.

(** C5, run on the scenario of the design document. *)
Lemma overwrite_correctness_witness :
  5 < 10 /\ (0 <= 4)%Z
  /\ length (map example_transition (seqZ 0 15)) = 10 + 5
  /\ exists m,
       (m0 ← ReplayMemory_init 10 "cpu" 4;
        add_samples m0 (map example_transition (seqZ 0 15))) = Ok m
       /\ filled m = 10 /\ ptr m = 5
       /\ actions m = [10; 11; 12; 13; 14; 5; 6; 7; 8; 9]%Z.
Proof.
  split; [lia|]. split; [lia|]. split; [reflexivity|].
  destruct (overwrite_correctness 10 5 "cpu" 4
              (map example_transition (seqZ 0 15)))
    as (m0 & m & Hinit & Hrun & _ & _ & Hscenario);
    [lia | lia | reflexivity |].
  exists m. split.
  - change (Z.of_nat 10) with 10%Z in Hinit. rewrite Hinit. exact Hrun.
  - apply Hscenario; reflexivity.
Defined.

Lemma example_memory_wf : wf example_memory.
Proof. constructor; cbn; lia. Qed.

(** C3, run on the example buffer with the example generator. *)
Lemma get_batch_distinct_witness :
  wf example_memory /\ (0 <= 2 < Z.of_nat (filled example_memory))%Z
  /\ exists idx batch s',
       get_batch 42%N example_memory 2 = Ok (batch, s')
       /\ gather example_memory idx = Ok batch
       /\ length idx = 2 /\ NoDup idx
       /\ Forall (fun i => i < 3) idx
       /\ length (batch_state batch) = 2
       /\ length (batch_action batch) = 2
       /\ forall j i, idx !! j = Some i ->
            exists act, actions example_memory !! i = Some act
                        /\ batch_action batch !! j = Some act.
Proof.
  assert (wf example_memory) as Hwf by (constructor; cbn; lia).
  assert (0 <= 2 < Z.of_nat (filled example_memory))%Z as Hb by (cbn; lia).
  split; [exact Hwf|]. split; [exact Hb|].
  destruct (get_batch_distinct 42%N example_memory 2 Hwf Hb)
    as (idx & batch & s' & _ & Hget & Hg & Hlen & Hnd & Hlt & H1 & H2
        & _ & _ & _ & Hrows).
  exists idx, batch, s'. do 7 (split; [assumption|]).
  intros j i Hj.
  destruct (Hrows j i Hj)
    as (st & act & nst & rew & dn & _ & Ha & _ & _ & _ & _ & Hb' & _).
  exists act. split; [exact Ha | exact Hb'].
Defined.

(** C3 as the design document states it, for every [b < filled], fails
    for a negative batch size: on the example buffer [-1 < filled], the
    assertion passes, and the draw raises [ValueError]; no batch is
    returned. *)
Lemma get_batch_distinct_counterexample :
  (-1 < Z.of_nat (filled example_memory))%Z
  /\ get_batch 42%N example_memory (-1) = Raise ValueError
  /\ forall batch s',
       get_batch 42%N example_memory (-1) <> Ok (batch, s').
Proof.
  assert (get_batch 42%N example_memory (-1) = Raise ValueError) as H
    by reflexivity.
  split; [cbn; lia|]. split; [exact H|].
  intros batch s'. rewrite H. discriminate.
Qed.

(** C4, run on the example buffer: a batch of 3 out of 3 entries. *)
Lemma get_batch_insufficient_witness :
  (Z.of_nat (filled example_memory) <= 3)%Z
  /\ get_batch 42%N example_memory 3
     = Raise (AssertionError "Not enough samples yet").
Proof.
  split; [cbn; lia|].
  apply (get_batch_insufficient 42%N example_memory 3). cbn. lia.
Defined.

(** C10, run on the example buffer with the action 300. *)
Lemma action_wraps_mod_256_witness :
  add_sample example_memory (example_transition 300) = Ok example_memory_300
  /\ get_batch 42%N example_memory_300 3 = Ok example_batch
  /\ actions example_memory_300 !! 3 = Some 44%Z
  /\ batch_action example_batch.1 !! 0 = Some 44%Z.
Proof.
  assert (add_sample example_memory (example_transition 300)
          = Ok example_memory_300) as Hadd by (vm_compute; reflexivity).
  assert (get_batch 42%N example_memory_300 3
          = Ok (example_batch.1, example_batch.2)) as Hget
    by (vm_compute; reflexivity).
  split; [exact Hadd|]. split; [exact Hget|].
  destruct (action_wraps_mod_256 _ _ _ _ _ _ _ Hadd Hget)
    as (Hst & idx & Hdraw & Hidx).
  split; [exact Hst|].
  assert (idx = [3; 2; 1]) as -> by (vm_compute in Hdraw; congruence).
  exact (proj1 (Hidx 0 eq_refl)).
Defined.

(** ** Persistence *)

Section persistence.
Context `{C : Collaborators}.

(** C7 (resumability).  [save_state e] writes an artifact holding [e],
    the agent, the memory and [best_return]; [load_state] on the
    directory it was written to, in this trainer or in a later one that
    finds the artifact on disk, returns and restores the same memory
    (hence the same [filled], [ptr] and rows), agent and [best_return],
    and sets [start_epoch] to [e + 1], so that [train] resumes with epoch
    [e + 1]. *)
Theorem save_then_load_state (w : World) (e : Z) (later : Trainer)
    (generator : Generator) (events : list Event) :
  let dir := output_dir (self w) in
  let file := path_join dir "last_state.pt" in
  let saved := save_state e w in
  let resumed :=
    load_state dir {| self := later; disk := disk saved.2;
                      np_random := generator; trace := events |} in
  saved.1 = Return tt
  /\ disk saved.2 !! file
     = Some (StateFile e (agent (self w)) (memory (self w))
               (best_return (self w)))
  /\ resumed.1 = Return tt
  /\ memory (self resumed.2) = memory (self w)
  /\ filled (memory (self resumed.2)) = filled (memory (self w))
  /\ ptr (memory (self resumed.2)) = ptr (memory (self w))
  /\ agent (self resumed.2) = agent (self w)
  /\ best_return (self resumed.2) = best_return (self w)
  /\ start_epoch (self resumed.2) = (e + 1)%Z
  /\ output_dir (self resumed.2) = dir
  /\ epochs_to_run (self resumed.2)
     = range_from (e + 1) (Config.train_epochs (config later) + 1)
  /\ (load_state dir saved.2).1 = Return tt
  /\ start_epoch (self (load_state dir saved.2).2) = (e + 1)%Z
  /\ memory (self (load_state dir saved.2).2) = memory (self w)
  /\ best_return (self (load_state dir saved.2).2) = best_return (self w).
Proof.
  cbn zeta. unfold save_state, load_state, torch_save_to, torch_load,
    gets, modify, mbind, M_bind. cbn.
  rewrite !lookup_insert_eq. cbn. repeat split; reflexivity.
Qed.
End persistence.

(** ** Episodes *)

Section episodes.
Context `{C : Collaborators}.

Lemma train_episode_metrics_nil (total_reward : Q) :
  train_episode_metrics total_reward [] = Raise ZeroDivisionError.
Proof. reflexivity. Qed.

Lemma train_episode_metrics_cons total_reward loss losses :
  exists d, train_episode_metrics total_reward (loss :: losses) = Ok d
            /\ length d = 2.
Proof.
  unfold train_episode_metrics, py_truediv. cbn [length].
  destruct (decide (S (length losses) = 0)) as [?|_]; [lia|].
  destruct (decide (Z.of_nat (S (length losses)) = 0)%Z) as [?|_]; [lia|].
  cbn. by eexists.
Qed.

End episodes.

(** ** The epoch loop: what a run does to [best_return] and the trace *)

Section epoch_loop.
Context `{C : Collaborators}.

Lemma M_bind_unfold {A B} (m : M A) (k : A -> M B) (w : World) :
  (m ≫= k) w = match m w with
               | (Return a, w') => k a w'
               | (Throw e, w') => (Throw e, w')
               | (Timeout, w') => (Timeout, w')
               end.
Proof. reflexivity. Qed.

Section preserves.
Context (P : relation World) `{!PreOrder P}.

Lemma preserves_bind {A B} (m : M A) (k : A -> M B) :
  preserves P m -> (forall a, preserves P (k a)) ->
  preserves P (m ≫= k).
Proof.
  intros Hm Hk w. rewrite M_bind_unfold. specialize (Hm w).
  destruct (m w) as [[a| |] w']; cbn in *; [|done..].
  etrans; [done|]. apply Hk.
Qed.

Lemma preserves_ret {A} (a : A) : preserves P (mret a).
Proof. intros w. reflexivity. Qed.
Lemma preserves_throw {A} e : preserves P (throw (A := A) e).
Proof. intros w. reflexivity. Qed.
Lemma preserves_timeout {A} : preserves P (timeout (A := A)).
Proof. intros w. reflexivity. Qed.
Lemma preserves_lift {A} (r : result A) : preserves P (lift r).
Proof. destruct r; [apply preserves_ret | apply preserves_throw]. Qed.
Lemma preserves_gets {A} (f : Trainer -> A) : preserves P (gets f).
Proof. intros w. reflexivity. Qed.
Lemma preserves_torch_load path : preserves P (torch_load path).
Proof. intros w. reflexivity. Qed.
Lemma preserves_fmap {A B} (f : A -> B) (m : M A) :
  preserves P m -> preserves P (f <$> m).
Proof.
  intros Hm. unfold fmap, M_fmap. apply preserves_bind; [done|].
  intros a. apply preserves_ret.
Qed.
End preserves.

Global Instance quiet_preorder : PreOrder quiet.
Proof.
  split.
  - intros w. split; [done|]. exists []. by rewrite app_nil_r.
  - intros w1 w2 w3 [Hb (evs & Ht & Hq)] [Hb' (evs' & Ht' & Hq')].
    split; [congruence|]. exists (evs ++ evs').
    rewrite Ht', Ht, app_assoc. split; [done|]. by apply Forall_app.
Qed.

Lemma quiet_same_trace w w' :
  best_return (self w') = best_return (self w) -> trace w' = trace w ->
  quiet w w'.
Proof. intros Hb Ht. split; [done|]. exists []. by rewrite app_nil_r. Qed.

Lemma quiet_call_env {A} (f : Env -> A * Env) : preserves quiet (call_env f).
Proof.
  intros w. unfold call_env. destruct (f _). by apply quiet_same_trace.
Qed.
Lemma quiet_call_agent {A} (f : Agent -> A * Agent) :
  preserves quiet (call_agent f).
Proof.
  intros w. unfold call_agent. destruct (f _). by apply quiet_same_trace.
Qed.
Lemma quiet_set_memory m : preserves quiet (modify (set_memory m)).
Proof. intros w. by apply quiet_same_trace. Qed.
Lemma quiet_memory_get_batch size : preserves quiet (memory_get_batch size).
Proof.
  intros w. unfold memory_get_batch.
  destruct (get_batch _ _ _) as [[b s']|]; by apply quiet_same_trace.
Qed.
Lemma quiet_emit e : quiet_event e -> preserves quiet (emit e).
Proof. intros He w. split; [done|]. exists [e]. split; [done|]. by constructor. Qed.
Lemma quiet_torch_save_to path a :
  quiet_event (torch_save path a) -> preserves quiet (torch_save_to path a).
Proof.
  intros He w. split; [done|]. exists [torch_save path a].
  split; [done|]. by constructor.
Qed.

(** One step of a proof that a method is quiet. *)
Ltac quiet_step :=
  first
    [ apply preserves_ret; solve [typeclasses eauto]
    | apply preserves_throw; solve [typeclasses eauto]
    | apply preserves_timeout; solve [typeclasses eauto]
    | apply preserves_lift; solve [typeclasses eauto]
    | apply preserves_gets; solve [typeclasses eauto]
    | apply quiet_call_env
    | apply quiet_call_agent
    | apply quiet_set_memory
    | apply quiet_memory_get_batch
    | apply preserves_fmap; [typeclasses eauto|]
    | apply preserves_bind; [typeclasses eauto| |intros ?]
    | match goal with
      | |- preserves _ (match ?x with _ => _ end) => destruct x
      end ].

Lemma quiet_memory_add_sample t : preserves quiet (memory_add_sample t).
Proof. unfold memory_add_sample. repeat quiet_step. Qed.

Lemma quiet_learning_update : preserves quiet learning_update.
Proof. unfold learning_update. repeat quiet_step. Qed.

Lemma quiet_initialize_memory_loop steps st :
  preserves quiet (initialize_memory_loop steps st).
Proof.
  revert st. induction steps as [|step steps IH]; intros st; cbn.
  - quiet_step.
  - repeat first [ apply IH | apply quiet_memory_add_sample
                 | apply quiet_learning_update | quiet_step ].
Qed.

Lemma quiet_initialize_memory : preserves quiet initialize_memory.
Proof.
  unfold initialize_memory.
  repeat first [ apply quiet_initialize_memory_loop | quiet_step ].
Qed.

Lemma quiet_train_episode_loop fuel st total losses :
  preserves quiet (train_episode_loop fuel st total losses).
Proof.
  revert st total losses.
  induction fuel as [|fuel IH]; intros st total losses; cbn.
  - quiet_step.
  - repeat first [ apply IH | apply quiet_memory_add_sample
                 | apply quiet_learning_update | quiet_step ].
Qed.

Lemma quiet_train_episode fuel : preserves quiet (train_episode fuel).
Proof.
  unfold train_episode.
  repeat first [ apply quiet_train_episode_loop | quiet_step ].
Qed.

Lemma quiet_eval_episode_loop fuel st total :
  preserves quiet (eval_episode_loop fuel st total).
Proof.
  revert st total. induction fuel as [|fuel IH]; intros st total; cbn.
  - quiet_step.
  - repeat first [ apply IH | quiet_step ].
Qed.

Lemma quiet_eval_episode fuel : preserves quiet (eval_episode fuel).
Proof.
  unfold eval_episode.
  repeat first [ apply quiet_eval_episode_loop | quiet_step ].
Qed.

Lemma quiet_run_episodes episodes (episode : M dict) :
  preserves quiet episode -> preserves quiet (run_episodes episodes episode).
Proof.
  intros He. induction episodes as [|? episodes IH]; cbn.
  - quiet_step.
  - repeat first [ apply IH | apply He | quiet_step ].
Qed.

Lemma quiet_save_state epoch : preserves quiet (save_state epoch).
Proof.
  unfold save_state. quiet_step; [quiet_step|].
  by apply quiet_torch_save_to.
Qed.

(** *** Reading the passes off a trace *)

Lemma eval_passes_app evs evs' :
  not_checkpoint_first evs' ->
  eval_passes (evs ++ evs') = eval_passes evs ++ eval_passes evs'.
Proof.
  intros Hn. induction evs as [|e evs IH]; [done|].
  destruct e as [ep d|ep r|p a]; cbn; rewrite ?IH; [done| |done].
  f_equal. f_equal.
  destruct evs as [|e' evs]; [|done]. cbn.
  destruct evs' as [|[| |p [|]] evs']; done.
Qed.

Lemma eval_passes_quiet evs :
  Forall quiet_event evs ->
  eval_passes evs = [] /\ not_checkpoint_first evs.
Proof.
  induction 1 as [|e evs He _ [IH _]]; [done|].
  destruct e as [ep d|ep r|p [|]]; done.
Qed.

Lemma running_best_app b rs rs' :
  running_best b (rs ++ rs') = running_best (running_best b rs) rs'.
Proof. apply fold_left_app. Qed.

Lemma expected_passes_app b rs rs' :
  expected_passes b (rs ++ rs')
  = expected_passes b rs ++ expected_passes (running_best b rs) rs'.
Proof.
  revert b. induction rs as [|r rs IH]; intros b; [done|]. cbn.
  destruct (Qlt_le_dec b r); cbn; by rewrite IH.
Qed.

Lemma expected_passes_rewards b rs : (expected_passes b rs).*1 = rs.
Proof.
  revert b. induction rs as [|r rs IH]; intros b; [done|]. cbn.
  destruct (Qlt_le_dec b r); cbn; by rewrite IH.
Qed.

Lemma running_best_le b rs : (b <= running_best b rs)%Q.
Proof.
  revert b. induction rs as [|r rs IH]; intros b; cbn.
  - apply Qle_refl.
  - destruct (Qlt_le_dec b r) as [Hlt|Hle]; [|apply IH].
    eapply Qle_trans; [apply Qlt_le_weak, Hlt | apply IH].
Qed.

(** The passes computed by the comparison are those of the amended
    reading. *)
Lemma expected_passes_spec b rs :
  saved_iff_exceeds_best b (expected_passes b rs).
Proof.
  revert b. induction rs as [|r0 rs IH]; intros b i r s; [done|].
  cbn [expected_passes].
  destruct i as [|i].
  - destruct (Qlt_le_dec b r0) as [Hlt|Hle]; cbn; intros [= <- <-].
    + split; [|done]. intros _. split; [done|constructor].
    + split; [done|]. intros [Hlt _].
      exfalso. by apply (Qlt_not_le _ _ Hlt).
  - destruct (Qlt_le_dec b r0) as [Hlt|Hle]; cbn [lookup list_lookup take];
      intros Hi; rewrite (IH _ _ _ _ Hi), Forall_cons; cbn [fst].
    + split.
      * intros [Hr HF]. split; [|done]. by eapply Qlt_trans.
      * intros [_ [Hr HF]]. done.
    + split.
      * intros [Hr HF]. split; [done|]. split; [|done].
        by eapply Qle_lt_trans.
      * intros [Hr [_ HF]]. done.
Qed.

(** *** The invariant of the epoch loop *)

Global Instance tracks_preorder : PreOrder tracks.
Proof.
  split.
  - intros w. exists []. by rewrite app_nil_r.
  - intros w1 w2 w3 (evs & Ht & Hn & He & Hb) (evs' & Ht' & Hn' & He' & Hb').
    exists (evs ++ evs'). rewrite Ht', Ht, app_assoc. split; [done|].
    split; [by destruct evs|].
    rewrite eval_passes_app by done. rewrite fmap_app.
    rewrite expected_passes_app, running_best_app, <- Hb.
    split; [|done]. by rewrite <- He, <- He'.
Qed.

Lemma quiet_tracks w w' : quiet w w' -> tracks w w'.
Proof.
  intros [Hb (evs & Ht & Hq)]. exists evs.
  destruct (eval_passes_quiet evs Hq) as [-> Hn]. done.
Qed.

Lemma preserves_quiet_tracks {A} (m : M A) :
  preserves quiet m -> preserves tracks m.
Proof. intros Hm w. apply quiet_tracks, Hm. Qed.

(** What the comparison does, case by case. *)
Lemma evaluation_update_improves (w : World) (r : Q) :
  (best_return (self w) < r)%Q ->
  evaluation_update r w
  = (Return tt,
     {| self := set_best_return r (self w);
        disk := <[path_join (output_dir (self w)) "checkpoint.pt"
                  := CheckpointFile (agent (self w))]> (disk w);
        np_random := np_random w;
        trace := trace w
                 ++ [torch_save
                       (path_join (output_dir (self w)) "checkpoint.pt")
                       (CheckpointFile (agent (self w)))] |}).
Proof.
  intros Hlt. unfold evaluation_update. rewrite M_bind_unfold. cbn.
  destruct (Qlt_le_dec _ _) as [_|Hle]; [done|].
  exfalso. by apply (Qlt_not_le _ _ Hlt).
Qed.

Lemma evaluation_update_keeps (w : World) (r : Q) :
  (r <= best_return (self w))%Q ->
  evaluation_update r w = (Return tt, w).
Proof.
  intros Hle. unfold evaluation_update. rewrite M_bind_unfold. cbn.
  destruct (Qlt_le_dec _ _) as [Hlt|_]; [|done].
  exfalso. by apply (Qlt_not_le _ _ Hlt).
Qed.

Lemma tracks_evaluation epoch r :
  preserves tracks (emit (wandb_log_val epoch r);; evaluation_update r).
Proof.
  intros w. rewrite M_bind_unfold. cbn [emit].
  set (w1 := {| self := self w; disk := disk w; np_random := np_random w;
                trace := trace w ++ [wandb_log_val epoch r] |}).
  destruct (Qlt_le_dec (best_return (self w)) r) as [Hlt|Hle].
  - rewrite (evaluation_update_improves w1 r) by done. cbn.
    eexists [_; _]. rewrite <- app_assoc. split; [done|]. cbn.
    destruct (Qlt_le_dec _ _) as [_|Hle]; [done|].
    exfalso. by apply (Qlt_not_le _ _ Hlt).
  - rewrite (evaluation_update_keeps w1 r) by done. cbn.
    eexists [_]. split; [done|]. cbn.
    destruct (Qlt_le_dec _ _) as [Hlt|_]; [|done].
    exfalso. by apply (Qlt_not_le _ _ Hlt).
Qed.

Lemma tracks_train_epoch fuel epoch :
  preserves tracks (train_epoch fuel epoch).
Proof.
  unfold train_epoch.
  repeat first
    [ apply tracks_evaluation
    | apply preserves_quiet_tracks;
      first [ apply quiet_call_agent
            | apply quiet_run_episodes;
              first [apply quiet_train_episode | apply quiet_eval_episode]
            | apply quiet_save_state
            | by apply quiet_emit ]
    | apply preserves_ret; solve [typeclasses eauto]
    | apply preserves_lift; solve [typeclasses eauto]
    | apply preserves_gets; solve [typeclasses eauto]
    | apply preserves_bind; [typeclasses eauto| |intros ?]
    | match goal with
      | |- preserves _ (match ?x with _ => _ end) => destruct x
      end ].
Qed.

Lemma tracks_train_epochs_loop fuel epochs :
  preserves tracks (train_epochs_loop fuel epochs).
Proof.
  induction epochs as [|epoch epochs IH]; cbn.
  - apply preserves_ret. typeclasses eauto.
  - apply preserves_bind; [typeclasses eauto| |done].
    apply tracks_train_epoch.
Qed.

Lemma tracks_train fuel : preserves tracks (train fuel).
Proof.
  unfold train.
  apply preserves_bind; [typeclasses eauto| |intros ?].
  { apply preserves_quiet_tracks, quiet_initialize_memory. }
  apply preserves_bind; [typeclasses eauto| |intros ?].
  { apply preserves_gets. typeclasses eauto. }
  apply tracks_train_epochs_loop.
Qed.
(** *** Checkpoints are written by evaluation passes only *)

Lemma checkpoint_saves_app evs evs' :
  checkpoint_saves (evs ++ evs')
  = checkpoint_saves evs ++ checkpoint_saves evs'.
Proof. apply List.filter_app. Qed.

Lemma checkpoint_saves_quiet evs :
  Forall quiet_event evs -> checkpoint_saves evs = [].
Proof.
  induction 1 as [|e evs He _ IH]; [done|].
  destruct e as [ep d|ep r|p [|]]; done.
Qed.

Global Instance counts_checkpoints_preorder : PreOrder counts_checkpoints.
Proof.
  split.
  - intros w. exists []. by rewrite app_nil_r.
  - intros w1 w2 w3 (evs & Ht & Hn & Hc) (evs' & Ht' & Hn' & Hc').
    exists (evs ++ evs'). rewrite Ht', Ht, app_assoc. split; [done|].
    split; [by destruct evs|].
    rewrite checkpoint_saves_app, eval_passes_app by done.
    rewrite List.filter_app, !length_app. congruence.
Qed.

Lemma quiet_counts_checkpoints w w' : quiet w w' -> counts_checkpoints w w'.
Proof.
  intros [_ (evs & Ht & Hq)]. exists evs.
  destruct (eval_passes_quiet evs Hq) as [He Hn].
  by rewrite He, checkpoint_saves_quiet.
Qed.

Lemma preserves_quiet_counts_checkpoints {A} (m : M A) :
  preserves quiet m -> preserves counts_checkpoints m.
Proof. intros Hm w. apply quiet_counts_checkpoints, Hm. Qed.

Lemma counts_checkpoints_evaluation epoch r :
  preserves counts_checkpoints
    (emit (wandb_log_val epoch r);; evaluation_update r).
Proof.
  intros w. rewrite M_bind_unfold. cbn [emit].
  set (w1 := {| self := self w; disk := disk w; np_random := np_random w;
                trace := trace w ++ [wandb_log_val epoch r] |}).
  destruct (Qlt_le_dec (best_return (self w)) r) as [Hlt|Hle].
  - rewrite (evaluation_update_improves w1 r) by done. cbn.
    eexists [_; _]. rewrite <- app_assoc. done.
  - rewrite (evaluation_update_keeps w1 r) by done. cbn.
    by eexists [_].
Qed.

Lemma counts_checkpoints_train_epoch fuel epoch :
  preserves counts_checkpoints (train_epoch fuel epoch).
Proof.
  unfold train_epoch.
  repeat first
    [ apply counts_checkpoints_evaluation
    | apply preserves_quiet_counts_checkpoints;
      first [ apply quiet_call_agent
            | apply quiet_run_episodes;
              first [apply quiet_train_episode | apply quiet_eval_episode]
            | apply quiet_save_state
            | by apply quiet_emit ]
    | apply preserves_ret; solve [typeclasses eauto]
    | apply preserves_lift; solve [typeclasses eauto]
    | apply preserves_gets; solve [typeclasses eauto]
    | apply preserves_bind; [typeclasses eauto| |intros ?]
    | match goal with
      | |- preserves _ (match ?x with _ => _ end) => destruct x
      end ].
Qed.

Lemma counts_checkpoints_train fuel :
  preserves counts_checkpoints (train fuel).
Proof.
  assert (forall epochs,
            preserves counts_checkpoints (train_epochs_loop fuel epochs))
    as Hloop.
  { induction epochs as [|epoch epochs IH]; cbn.
    - apply preserves_ret. typeclasses eauto.
    - apply preserves_bind; [typeclasses eauto| |done].
      apply counts_checkpoints_train_epoch. }
  unfold train.
  apply preserves_bind; [typeclasses eauto| |intros ?].
  { apply preserves_quiet_counts_checkpoints, quiet_initialize_memory. }
  apply preserves_bind; [typeclasses eauto| |intros ?].
  { apply preserves_gets. typeclasses eauto. }
  apply Hloop.
Qed.

(** An episode whose loop ends without a loss raises, in the state the
    loop left. *)
Lemma train_episode_no_update fuel (w w1 : World) total_reward :
  (st ← process_state <$> call_env env_reset;
   train_episode_loop fuel st 0%Q []) w = (Return (total_reward, []), w1) ->
  train_episode fuel w = (Throw ZeroDivisionError, w1).
Proof.
  unfold train_episode. rewrite !M_bind_unfold.
  destruct ((process_state <$> call_env env_reset) w) as [[st| |] w0];
    [|done..].
  intros Hloop. rewrite M_bind_unfold, Hloop. reflexivity.
Qed.
End epoch_loop.

(** ** The example trainer *)

Lemma example_world_fresh interval script :
  Trainer_init (C := example_collaborators script) (example_args interval)
    ∅ 42%N
  = Ok (Return tt, example_world interval script).
Proof. reflexivity. Qed.

(** ** Episodes without a learning update *)

(** C2 (zero loss without updates) does not hold of the code.  The last
    line of [train_episode] divides by the number of losses although the
    line before it guards that division: with no losses the method raises
    [ZeroDivisionError], whatever the reward.  This happens on a fresh
    trainer with [learning_interval = 4] whose environment ends the episode
    at its first step; the transition of that step is in the memory when
    the exception leaves the method. *)
Theorem train_episode_without_update_raises :
  (forall total_reward : Q,
     train_episode_metrics total_reward [] = Raise ZeroDivisionError)
  /\ (train_episode 10 (example_world 4 example_script)).1
     = Throw ZeroDivisionError
  /\ filled (memory (self (train_episode 10
                             (example_world 4 example_script)).2)) = 1.
Proof.
  split; [reflexivity|]. split; vm_compute; reflexivity.
Qed.

(** ** The best-performance checkpoint *)

Section best_checkpoint.
Context `{C : Collaborators}.

(** C8, amended.  In every run of [train], also one that ends in an
    exception or runs out of fuel, the best-performance checkpoint is
    written after exactly those evaluation passes whose averaged reward
    strictly exceeds both every earlier averaged reward of the run and
    the value that [best_return] had when the run started, and nowhere
    else: the run writes as many checkpoints as it has such passes.
    [best_return] ends as the running maximum and never decreases.  The
    comparison itself sets [best_return] to the reward and writes the
    checkpoint when the reward is strictly greater, and changes nothing
    otherwise. *)
Theorem best_checkpoint_on_strict_improvement (fuel : nat) (w : World) :
  (exists evs,
     trace (train fuel w).2 = trace w ++ evs
     /\ saved_iff_exceeds_best (best_return (self w)) (eval_passes evs)
     /\ length (checkpoint_saves evs)
        = length (List.filter snd (eval_passes evs))
     /\ best_return (self (train fuel w).2)
        = running_best (best_return (self w)) (eval_passes evs).*1
     /\ (best_return (self w) <= best_return (self (train fuel w).2))%Q)
  /\ forall (w1 : World) (r : Q),
       ((best_return (self w1) < r)%Q ->
        best_return (self (evaluation_update r w1).2) = r
        /\ trace (evaluation_update r w1).2
           = trace w1
             ++ [torch_save
                   (path_join (output_dir (self w1)) "checkpoint.pt")
                   (CheckpointFile (agent (self w1)))])
       /\ ((r <= best_return (self w1))%Q ->
           evaluation_update r w1 = (Return tt, w1)).
Proof.
  split.
  - destruct (tracks_train fuel w) as (evs & Ht & _ & He & Hb).
    destruct (counts_checkpoints_train fuel w) as (evs' & Ht' & _ & Hc).
    assert (evs' = evs) as ->.
    { rewrite Ht in Ht'. by apply app_inv_head in Ht'. }
    exists evs. split; [done|]. split; [|split; [done|split; [done|]]].
    + rewrite He. apply expected_passes_spec.
    + rewrite Hb. apply running_best_le.
  - intros w1 r. split.
    + intros Hlt. by rewrite evaluation_update_improves.
    + apply evaluation_update_keeps.
Qed.

Lemma load_checkpoint_best_return dir (w : World) :
  best_return (self (load_checkpoint dir w).2) = best_return (self w).
Proof.
  unfold load_checkpoint. rewrite M_bind_unfold. cbn.
  by destruct (disk w !! _) as [[|]|].
Qed.

Lemma running_best_positive b rs :
  (0 <= b)%Q ->
  running_best b rs
  = running_best b (List.filter (fun r => negb (Qle_bool r 0)) rs).
Proof.
  revert b. induction rs as [|r rs IH]; intros b Hb; [done|]. cbn.
  destruct (Qle_bool r 0) eqn:Hr; cbn.
  - apply Qle_bool_iff in Hr.
    destruct (Qlt_le_dec b r) as [Hlt|_]; [|by apply IH].
    exfalso. apply (Qlt_not_le _ _ Hlt). by eapply Qle_trans.
  - destruct (Qlt_le_dec b r) as [Hlt|_]; apply IH; [|done].
    eapply Qle_trans; [exact Hb|]. by apply Qlt_le_weak.
Qed.

(** C9 (the floor of a fresh trainer).  A trainer constructed without
    [resume] starts with [best_return = 0].  In every run of [train] from
    it, an evaluation pass whose averaged reward is at most 0 writes no
    checkpoint, be it the first pass or one that exceeds all earlier
    rewards; [best_return] ends as the running maximum of the positive
    rewards alone and stays at least 0; on a reward of at most 0 the
    comparison changes nothing, at the start and at the end of the
    run. *)
Theorem fresh_trainer_ignores_nonpositive (args : Args)
    (files : gmap string Artifact) (generator : Generator)
    (o : outcome unit) (w0 : World) (fuel : nat) :
  resume args = None ->
  Trainer_init args files generator = Ok (o, w0) ->
  best_return (self w0) = 0%Q
  /\ (exists evs,
        trace (train fuel w0).2 = trace w0 ++ evs
        /\ (forall i r s, eval_passes evs !! i = Some (r, s) ->
               (r <= 0)%Q -> s = false)
        /\ best_return (self (train fuel w0).2)
           = running_best 0
               (List.filter (fun r => negb (Qle_bool r 0))
                  (eval_passes evs).*1))
  /\ (0 <= best_return (self (train fuel w0).2))%Q
  /\ forall r, (r <= 0)%Q ->
       evaluation_update r w0 = (Return tt, w0)
       /\ evaluation_update r (train fuel w0).2
          = (Return tt, (train fuel w0).2).
Proof.
  intros Hres Hinit.
  assert (best_return (self w0) = 0%Q) as Hb0.
  { unfold Trainer_init, Trainer_new in Hinit.
    destruct (ReplayMemory_init _ _ _) as [m|]; [|done].
    cbn in Hinit. injection Hinit as Hinit.
    apply (f_equal snd) in Hinit. cbn [snd] in Hinit. subst w0.
    unfold Trainer_restore. rewrite Hres, M_bind_unfold. cbn.
    destruct (load args); [|done].
    by rewrite load_checkpoint_best_return. }
  destruct (tracks_train fuel w0) as (evs & Ht & _ & He & Hb).
  assert (0 <= best_return (self (train fuel w0).2))%Q as Hge.
  { rewrite Hb, <- Hb0. apply running_best_le. }
  split; [done|]. split; [|split; [done|]].
  - exists evs. split; [done|]. split.
    + intros i r s Hi Hr.
      rewrite He in Hi. apply expected_passes_spec in Hi.
      destruct s; [|done]. destruct Hi as [[Hlt _] _]; [done|].
      rewrite Hb0 in Hlt. exfalso. by apply (Qlt_not_le _ _ Hlt).
    + rewrite Hb, Hb0. by apply running_best_positive.
  - intros r Hr. split; apply evaluation_update_keeps.
    + by rewrite Hb0.
    + by eapply Qle_trans.
Qed.
End best_checkpoint.

(** C8 as the design document states it fails on a fresh trainer whose two
    evaluation passes average -5 and -3: the run returns, the second reward
    exceeds the first, and no checkpoint is written. *)
Lemma best_checkpoint_counterexample :
  (train 10 (example_world 1 example_script)).1 = Return tt
  /\ eval_passes (trace (train 10 (example_world 1 example_script)).2)
     = [((-5)%Q, false); ((-3)%Q, false)]
  /\ ~ saved_iff_exceeds_earlier
         (eval_passes (trace (train 10 (example_world 1 example_script)).2)).
Proof.
  assert (eval_passes (trace (train 10 (example_world 1 example_script)).2)
          = [((-5)%Q, false); ((-3)%Q, false)]) as Hpasses
    by (vm_compute; reflexivity).
  split; [vm_compute; reflexivity|]. split; [exact Hpasses|].
  rewrite Hpasses. intros Hclaim.
  destruct (Hclaim 1 (-3)%Q false eq_refl) as [_ Hsaved].
  discriminate Hsaved. repeat constructor.
Qed.

(** C9, run on the example. *)
Lemma fresh_trainer_ignores_nonpositive_witness :
  resume (example_args 1) = None
  /\ Trainer_init (C := example_collaborators example_script)
       (example_args 1) ∅ 42%N
     = Ok (Return tt, example_world 1 example_script)
  /\ best_return (self (example_world 1 example_script)) = 0%Q
  /\ (exists evs,
        trace (train 10 (example_world 1 example_script)).2
        = trace (example_world 1 example_script) ++ evs
        /\ (forall i r s, eval_passes evs !! i = Some (r, s) ->
               (r <= 0)%Q -> s = false)
        /\ best_return (self (train 10 (example_world 1 example_script)).2)
           = running_best 0
               (List.filter (fun r => negb (Qle_bool r 0))
                  (eval_passes evs).*1))
  /\ (0 <= best_return
             (self (train 10 (example_world 1 example_script)).2))%Q.
Proof.
  split; [reflexivity|].
  assert (Trainer_init (C := example_collaborators example_script)
            (example_args 1) ∅ 42%N
          = Ok (Return tt, example_world 1 example_script)) as Hinit
    by reflexivity.
  split; [exact Hinit|].
  destruct (fresh_trainer_ignores_nonpositive
              (C := example_collaborators example_script)
              (example_args 1) ∅ 42%N (Return tt)
              (example_world 1 example_script) 10 eq_refl Hinit)
    as (Hb & He & Hge & _).
  split; [exact Hb|]. split; [exact He | exact Hge].
Defined.

(** ** Floating point: the round trip through a byte *)

Section rounding.
Local Open Scope Q_scope.

(** *** Powers of two and the binary logarithm *)

Lemma Qpos_neq0 q : 0 < q -> ~ q == 0.
Proof. intros Hq E. rewrite E in Hq. by apply (Qlt_irrefl 0). Qed.

Lemma pow2_pos e : 0 < 2 ^ e.
Proof. apply Qpower_0_lt. reflexivity. Qed.

Lemma pow2_add a b : 2 ^ (a + b) == 2 ^ a * 2 ^ b.
Proof. apply Qpower_plus. discriminate. Qed.

Lemma pow2_le a b : (a <= b)%Z -> 2 ^ a <= 2 ^ b.
Proof. intros. apply Qpower_le_compat_l; [done|]. discriminate. Qed.

Lemma pow2_lt a b : (a < b)%Z -> 2 ^ a < 2 ^ b.
Proof. intros. apply Qpower_lt_compat_l; [done|]. reflexivity. Qed.

Lemma pow2_lt_inv a b : 2 ^ a < 2 ^ b -> (a < b)%Z.
Proof. intros. eapply Qpower_lt_compat_l_inv; [done|]. reflexivity. Qed.

Lemma pow2_Z n : (0 <= n)%Z -> inject_Z (2 ^ n) == 2 ^ n.
Proof. intros. by rewrite Zpower_Qpower. Qed.

Lemma ilog2_spec q : 0 < q -> 2 ^ ilog2 q <= q /\ q < 2 ^ (ilog2 q + 1).
Proof.
  intros Hq. unfold ilog2.
  destruct (Qle_bool 1 q) eqn:H1.
  - apply Qle_bool_iff in H1.
    assert (1 <= Qfloor q)%Z as Hf.
    { change 1%Z with (Qfloor 1). by apply Qfloor_resp_le. }
    destruct (Z.log2_spec (Qfloor q) ltac:(lia)) as [Hlo Hhi].
    pose proof (Z.log2_nonneg (Qfloor q)) as Hnn.
    split.
    + rewrite <- pow2_Z by done.
      eapply Qle_trans; [|apply Qfloor_le]. by rewrite <- Zle_Qle.
    + rewrite <- pow2_Z by lia.
      eapply Qlt_le_trans; [apply Qlt_floor|]. rewrite <- Zle_Qle. lia.
  - assert (q < 1) as Hlt.
    { apply Qnot_le_lt. intros Hle. apply Qle_bool_iff in Hle. congruence. }
    assert (1 < / q) as Hinv.
    { apply Qlt_shift_inv_l; [done|]. lra. }
    assert (1 < Qceiling (/ q))%Z as Hc.
    { rewrite Zlt_Qlt. eapply Qlt_le_trans; [exact Hinv|]. apply Qle_ceiling. }
    destruct (Z.log2_up_spec _ Hc) as [Hlo Hhi].
    pose proof (Z.log2_up_pos _ Hc) as Hpos.
    set (u := Z.log2_up (Qceiling (/ q))) in *.
    assert (0 < / q) as Hiq by lra.
    split.
    + (* 2^-u <= q  since  1/q <= c <= 2^u *)
      rewrite Qpower_opp.
      apply Qle_shift_inv_r; [apply pow2_pos|].
      assert (/ q <= 2 ^ u) as Hb.
      { rewrite <- pow2_Z by lia. eapply Qle_trans; [apply Qle_ceiling|].
        by rewrite <- Zle_Qle. }
      (* 1 <= q * 2^u *)
      assert (q * / q == 1) as Hqq by (by apply Qmult_inv_r, Qpos_neq0).
      rewrite <- Hqq. apply Qmult_le_l; [done|]. exact Hb.
    + (* q < 2^(1-u) since 2^(u-1) <= c - 1 < 1/q *)
      replace (- u + 1)%Z with (- (u - 1))%Z by lia.
      rewrite Qpower_opp.
      assert (2 ^ (u - 1) < / q) as Hb.
      { rewrite <- pow2_Z by lia.
        eapply Qle_lt_trans; [|apply Qceiling_lt].
        rewrite <- Zle_Qle. rewrite <- Z.sub_1_r in Hlo. lia. }
      apply Qlt_shift_inv_l; [apply pow2_pos|].
      assert (q * / q == 1) as Hqq by (by apply Qmult_inv_r, Qpos_neq0).
      rewrite <- Hqq. apply Qmult_lt_l; [done|]. exact Hb.
Qed.

Lemma ilog2_unique q j : 0 < q -> 2 ^ j <= q -> q < 2 ^ (j + 1) -> ilog2 q = j.
Proof.
  intros Hq Hlo Hhi. destruct (ilog2_spec q Hq) as [Hlo' Hhi'].
  assert (ilog2 q < j + 1)%Z by (apply pow2_lt_inv; lra).
  assert (j < ilog2 q + 1)%Z by (apply pow2_lt_inv; lra).
  lia.
Qed.

Lemma ilog2_mono a b : 0 < a -> a <= b -> (ilog2 a <= ilog2 b)%Z.
Proof.
  intros Ha Hab.
  destruct (ilog2_spec a Ha) as [Hlo _].
  destruct (ilog2_spec b ltac:(lra)) as [_ Hhi].
  assert (ilog2 a < ilog2 b + 1)%Z by (apply pow2_lt_inv; lra).
  lia.
Qed.

(** *** Nearest integers *)
Lemma rne_cases q :
  let f := Qfloor q in
  (q - inject_Z f < 1 # 2 /\ rne q = f)
  \/ (1 # 2 < q - inject_Z f /\ rne q = (f + 1)%Z)
  \/ (q - inject_Z f == 1 # 2 /\ rne q = if Z.even f then f else (f + 1)%Z).
Proof.
  cbn zeta. unfold rne.
  destruct (Qcompare (q - inject_Z (Qfloor q)) (1 # 2)) eqn:Hc.
  - right. right. by apply Qeq_alt in Hc.
  - left. by apply Qlt_alt in Hc.
  - right. left. by apply Qgt_alt in Hc.
Qed.

Lemma rne_floor q : (Qfloor q <= rne q <= Qfloor q + 1)%Z.
Proof.
  destruct (rne_cases q) as [[_ ->]|[[_ ->]|[_ ->]]]; [lia | lia |].
  destruct (Z.even _); lia.
Qed.

Lemma inject_Z_succ n : inject_Z (n + 1) == inject_Z n + 1.
Proof. by rewrite inject_Z_plus. Qed.

Lemma rne_near q : inject_Z (rne q) - (1 # 2) <= q /\ q <= inject_Z (rne q) + (1 # 2).
Proof.
  pose proof (Qfloor_le q) as Hlo. pose proof (Qlt_floor q) as Hhi.
  rewrite inject_Z_succ in Hhi.
  destruct (rne_cases q) as [[H ->]|[[H ->]|[H ->]]].
  - lra.
  - rewrite inject_Z_succ. lra.
  - destruct (Z.even _); rewrite ?inject_Z_succ; lra.
Qed.

Lemma rne_unique q (N : Z) :
  inject_Z N - (1 # 2) < q -> q < inject_Z N + (1 # 2) -> rne q = N.
Proof.
  intros Hlo Hhi. destruct (rne_near q) as [H1 H2].
  assert (inject_Z (rne q) < inject_Z N + 1) as Ha by lra.
  assert (inject_Z N < inject_Z (rne q) + 1) as Hb by lra.
  rewrite <- inject_Z_succ in Ha, Hb. rewrite <- Zlt_Qlt in Ha, Hb. lia.
Qed.

Lemma rne_Z (n : Z) : rne (inject_Z n) = n.
Proof. apply rne_unique; lra. Qed.

Lemma rne_mono a b : a <= b -> (rne a <= rne b)%Z.
Proof.
  intros Hab.
  pose proof (Qfloor_resp_le _ _ Hab) as Hf.
  pose proof (rne_floor a) as Fa. pose proof (rne_floor b) as Fb.
  destruct (decide (Qfloor a = Qfloor b)) as [Heq|Hne]; [|lia].
  destruct (Z_le_gt_dec (rne a) (rne b)) as [|Hgt]; [done|exfalso].
  assert (rne a = Qfloor a + 1 /\ rne b = Qfloor a)%Z as [Ra Rb] by lia.
  destruct (rne_cases a) as [[Ha Ra']|[[Ha Ra']|[Ha Ra']]];
    destruct (rne_cases b) as [[Hb Rb']|[[Hb Rb']|[Hb Rb']]];
    rewrite <- Heq in Hb; rewrite <- ?Heq in Rb';
    try lia; try lra.
Qed.

(** *** Rounding *)
Lemma round_0 prec emin : round prec emin 0 = 0.
Proof. reflexivity. Qed.

Lemma Qabs_pos_eq q : 0 < q -> Qabs q = q.
Proof.
  destruct q as [n d]. unfold Qlt, Qabs. cbn. intros H.
  f_equal. apply Z.abs_eq. lia.
Qed.

Lemma round_pos prec emin q :
  0 < q ->
  round prec emin q
  == inject_Z (rne (q / 2 ^ Z.max (ilog2 q - (prec - 1)) emin))
     * 2 ^ Z.max (ilog2 q - (prec - 1)) emin.
Proof.
  intros Hq. unfold round, fexp.
  destruct (Qeq_bool q 0) eqn:E.
  - apply Qeq_bool_iff in E. by apply Qpos_neq0 in Hq.
  - rewrite Qred_correct. by rewrite Qabs_pos_eq.
Qed.

Lemma round_nonneg prec emin q : 0 <= q -> 0 <= round prec emin q.
Proof.
  intros Hq. destruct (Qlt_le_dec 0 q) as [Hpos|Hle].
  - rewrite round_pos by done.
    apply Qmult_le_0_compat; [|apply Qlt_le_weak, pow2_pos].
    change 0 with (inject_Z 0). rewrite <- Zle_Qle.
    change 0%Z with (rne (inject_Z 0)). apply rne_mono.
    apply Qle_shift_div_l; [apply pow2_pos|].
    change (inject_Z 0) with 0. rewrite Qmult_0_l. lra.
  - assert (q == 0) as E by lra.
    unfold round. apply Qeq_bool_iff in E. rewrite E. lra.
Qed.

Lemma rne_scaled_le q e (n : Z) : q <= inject_Z n * 2 ^ e -> (rne (q / 2 ^ e) <= n)%Z.
Proof.
  intros H. rewrite <- (rne_Z n). apply rne_mono.
  apply Qle_shift_div_r; [apply pow2_pos|done].
Qed.

Lemma rne_scaled_ge q e (n : Z) : inject_Z n * 2 ^ e <= q -> (n <= rne (q / 2 ^ e))%Z.
Proof.
  intros H. rewrite <- (rne_Z n) at 1. apply rne_mono.
  apply Qle_shift_div_l; [apply pow2_pos|done].
Qed.

Lemma round_mono prec emin a b :
  (1 <= prec)%Z -> 0 <= a -> a <= b ->
  round prec emin a <= round prec emin b.
Proof.
  intros Hprec Ha Hab.
  destruct (Qlt_le_dec 0 a) as [Hpa|Hle].
  2:{ assert (a == 0) as E by lra.
      unfold round at 1. apply Qeq_bool_iff in E. rewrite E.
      apply round_nonneg. lra. }
  assert (0 < b) as Hpb by lra.
  rewrite (round_pos _ _ a), (round_pos _ _ b) by done.
  pose proof (ilog2_mono a b Hpa Hab) as Hlog.
  set (ea := Z.max (ilog2 a - (prec - 1)) emin).
  set (eb := Z.max (ilog2 b - (prec - 1)) emin).
  destruct (ilog2_spec a Hpa) as [_ Hahi].
  destruct (ilog2_spec b Hpb) as [Hblo _].
  destruct (decide (ea = eb)) as [Heq|Hne].
  - rewrite Heq. apply Qmult_le_compat_r; [|apply Qlt_le_weak, pow2_pos].
    rewrite <- Zle_Qle. apply rne_mono.
    apply Qmult_le_compat_r; [done|].
    apply Qlt_le_weak, Qinv_lt_0_compat, pow2_pos.
  - assert (ea < eb)%Z as Hlt by lia.
    assert (eb = ilog2 b - (prec - 1))%Z as Heb by lia.
    (* round a <= 2^(ea+prec) <= 2^(ilog2 b) <= round b *)
    apply Qle_trans with (2 ^ ilog2 b).
    + apply Qle_trans with (2 ^ (ea + prec)).
      * rewrite Z.add_comm, pow2_add.
        apply Qmult_le_compat_r; [|apply Qlt_le_weak, pow2_pos].
        rewrite <- (pow2_Z prec) by lia. rewrite <- Zle_Qle.
        apply rne_scaled_le. rewrite pow2_Z by lia.
        rewrite <- pow2_add, Z.add_comm.
        apply Qlt_le_weak. eapply Qlt_le_trans; [exact Hahi|].
        apply pow2_le. lia.
      * apply pow2_le. lia.
    + replace (ilog2 b) with ((prec - 1) + eb)%Z at 1 by lia.
      rewrite pow2_add.
      apply Qmult_le_compat_r; [|apply Qlt_le_weak, pow2_pos].
      rewrite <- (pow2_Z (prec - 1)) by lia. rewrite <- Zle_Qle.
      apply rne_scaled_ge. rewrite pow2_Z by lia.
      rewrite <- pow2_add.
      replace (prec - 1 + eb)%Z with (ilog2 b) by lia. done.
Qed.

Lemma round_f32_binade z j (N : Z) :
  0 < z -> 2 ^ j <= z -> z < 2 ^ (j + 1) -> (-126 <= j)%Z ->
  inject_Z N - (1 # 2) < z / 2 ^ (j - 23) ->
  z / 2 ^ (j - 23) < inject_Z N + (1 # 2) ->
  round_f32 z == inject_Z N * 2 ^ (j - 23).
Proof.
  intros Hz Hlo Hhi Hj H1 H2. unfold round_f32.
  rewrite round_pos by done.
  rewrite (ilog2_unique z j) by done.
  replace (Z.max (j - (24 - 1)) (-149)) with (j - 23)%Z by lia.
  by rewrite (rne_unique _ N).
Qed.

Lemma round_f32_below_integer (c j : Z) z :
  (-1 <= j <= 7)%Z ->
  2 ^ j < inject_Z c -> inject_Z c <= 2 ^ (j + 1) ->
  round_f32 (inject_Z c) == inject_Z c ->
  0 <= z -> round_f32 z < inject_Z c ->
  z <= inject_Z c - 2 ^ (j - 24).
Proof.
  intros Hj Hclo Hchi Hexact Hz Hround.
  destruct (Qlt_le_dec (inject_Z c - 2 ^ (j - 24)) z) as [Hgt|]; [exfalso|done].
  destruct (Qlt_le_dec z (inject_Z c)) as [Hlt|Hge].
  2:{ assert (0 <= inject_Z c) as Hc0.
      { pose proof (pow2_pos j). lra. }
      pose proof (round_mono 24 (-149) _ _ ltac:(lia) Hc0 Hge) as Hm.
      fold round_f32 in Hm. lra. }
  (* the half ulp below [c], and the scale of the binade *)
  assert (2 ^ (j - 23) == 2 * 2 ^ (j - 24)) as Ehalf.
  { replace (j - 23)%Z with (1 + (j - 24))%Z by lia. by rewrite pow2_add. }
  assert (2 ^ (23 - j) * 2 ^ (j - 23) == 1) as Einv.
  { rewrite <- pow2_add. by replace (23 - j + (j - 23))%Z with 0%Z by lia. }
  pose proof (pow2_pos (j - 24)) as Hh.
  pose proof (pow2_pos (j - 23)) as Hp.
  assert (2 ^ (j - 24) <= 1 # 2) as Hh1.
  { change (1 # 2) with (2 ^ (-1)). apply pow2_le. lia. }
  assert (2 ^ j <= inject_Z c - 2 ^ (j - 24)) as Hbin.
  { destruct (decide (j = -1)%Z) as [->|Hne].
    - assert (0 < c)%Z as Hc.
      { rewrite Zlt_Qlt. eapply Qlt_trans; [|exact Hclo]. apply pow2_pos. }
      assert (1 <= inject_Z c) as Hc1.
      { change 1 with (inject_Z 1). rewrite <- Zle_Qle. lia. }
      change (2 ^ (-1)) with (1 # 2). lra.
    - rewrite <- (pow2_Z j) in Hclo |- * by lia.
      rewrite <- Zlt_Qlt in Hclo.
      assert (inject_Z (2 ^ j) + 1 <= inject_Z c) as Hc1.
      { rewrite <- inject_Z_succ, <- Zle_Qle. lia. }
      lra. }
  set (N := (c * 2 ^ (23 - j))%Z).
  assert (inject_Z N == inject_Z c * 2 ^ (23 - j)) as EN.
  { unfold N. rewrite inject_Z_mult, pow2_Z by lia. done. }
  assert (inject_Z N * 2 ^ (j - 23) == inject_Z c) as ENc.
  { rewrite EN, <- Qmult_assoc, Einv. ring. }
  assert (round_f32 z == inject_Z c) as Hr.
  { pose proof (pow2_pos j) as Hpj.
    rewrite <- ENc. apply (round_f32_binade z j N); [lra | lra | lra | lia | |].
    - apply Qlt_shift_div_l; [done|].
      setoid_replace ((inject_Z N - (1 # 2)) * 2 ^ (j - 23))
        with (inject_Z N * 2 ^ (j - 23) - (1 # 2) * 2 ^ (j - 23)) using relation Qeq by ring.
      rewrite ENc, Ehalf.
      setoid_replace ((1 # 2) * (2 * 2 ^ (j - 24))) with (2 ^ (j - 24)) using relation Qeq by ring.
      done.
    - apply Qlt_shift_div_r; [done|].
      setoid_replace ((inject_Z N + (1 # 2)) * 2 ^ (j - 23))
        with (inject_Z N * 2 ^ (j - 23) + (1 # 2) * 2 ^ (j - 23)) using relation Qeq by ring.
      rewrite ENc, Ehalf. lra. }
  lra.
Qed.

Lemma roundtrip_check_all : forallb roundtrip_check (seqZ 0 256) = true.
Proof. vm_compute. reflexivity. Qed.

Lemma Qtrunc_nonneg q : 0 <= q -> Qtrunc q = Qfloor q.
Proof.
  destruct q as [n d]. unfold Qle, Qtrunc, Qfloor. cbn. intros H.
  apply Z.quot_div_nonneg; lia.
Qed.

Lemma round_f32_255 : round_f32 255 == 255.
Proof. vm_compute. reflexivity. Qed.

Lemma quantize_roundtrip x :
  0 <= x -> x <= 1 -> Qabs (x - dequantize (quantize x)) <= 1 # 255.
Proof.
  intros Hx0 Hx1.
  set (z := x * 255). set (P := round_f32 z).
  assert (0 <= z) as Hz0 by (unfold z; lra).
  assert (z <= 255) as Hz1 by (unfold z; lra).
  assert (0 <= P) as HP0 by (by apply round_nonneg).
  assert (P <= 255) as HP1.
  { rewrite <- round_f32_255. apply round_mono; [lia|done..]. }
  set (k := Qfloor P).
  assert (0 <= k <= 255)%Z as Hk.
  { split.
    - change 0%Z with (Qfloor 0). by apply Qfloor_resp_le.
    - change 255%Z with (Qfloor 255). by apply Qfloor_resp_le. }
  assert (quantize x = k) as ->.
  { unfold quantize, np.float_to_uint8. fold z P.
    rewrite Qtrunc_nonneg by done. apply Z.mod_small. lia. }
  pose proof (Qfloor_le P) as HkP. pose proof (Qlt_floor P) as HPk. fold k in HkP, HPk.
  assert (roundtrip_check k = true) as Hcheck.
  { pose proof roundtrip_check_all as Hall.
    rewrite forallb_forall in Hall. apply Hall.
    apply list_elem_of_In, elem_of_seqZ. lia. }
  unfold roundtrip_check in Hcheck. cbn zeta in Hcheck.
  repeat (apply andb_prop in Hcheck as [Hcheck ?]).
  repeat match goal with
         | H : Qeq_bool _ _ = true |- _ => apply Qeq_bool_iff in H
         | H : Qle_bool _ _ = true |- _ => apply Qle_bool_iff in H
         | H : negb (Qle_bool _ _) = true |- _ =>
             apply negb_true_iff in H
         | H : (_ <=? _)%Z = true |- _ => apply Z.leb_le in H
         end.
  rename Hcheck into Hexact, H5 into Hhalf, H4 into Hj1, H3 into Hj2,
    H2 into Hclo, H1 into Hchi, H0 into Hup, H into Hdown.
  set (j := (Z.log2_up (k + 1) - 1)%Z) in *.
  assert (2 ^ j < inject_Z (k + 1)) as Hclo'.
  { apply Qnot_le_lt. intros Hle. apply Qle_bool_iff in Hle. congruence. }
  (* from above: [P < k + 1] *)
  pose proof (round_f32_below_integer (k + 1) j z ltac:(lia) Hclo' Hchi
                Hexact Hz0 HPk) as Hupper.
  (* from below: [k <= P] *)
  assert (inject_Z k - (1 # 2) <= z) as Hlower.
  { destruct (Qlt_le_dec z (inject_Z k - (1 # 2))) as [Hlt|]; [exfalso|done].
    pose proof (round_mono 24 (-149) z _ ltac:(lia) Hz0
                  (Qlt_le_weak _ _ Hlt)) as Hm.
    fold round_f32 in Hm. fold P in Hm. lra. }
  apply Qabs_Qle_condition. unfold z in Hupper, Hlower.
  split; lra.
Qed.
End rounding.

(** ** Agreement with the Standard Library's specification of IEEE-754

    On every byte, [dequantize] is the binary64 quotient by 255 converted
    to binary32, as [SpecFloat] computes them; and on every frame value
    that [process_state] produces (the binary32 quotient of a byte by 255),
    the binary32 product with 255 of [SpecFloat] is the one of [quantize],
    which gives the byte back. *)

Lemma dequantize_SpecFloat :
  forallb (fun k =>
             Qeq_bool
               (SF2Q (binary32_of_binary64
                        (SFdiv 53 1024 (binary64_of_Z k) (binary64_of_Z 255))))
               (dequantize k))
    (seqZ 0 256) = true.
Proof. vm_compute. reflexivity. Qed.

Lemma quantize_SpecFloat :
  forallb (fun k =>
             let x := SFdiv 24 128 (binary32_of_Z k) (binary32_of_Z 255) in
             Qeq_bool (SF2Q x) (round_f32 (inject_Z k / 255))
             && Qeq_bool (SF2Q (SFmul 24 128 x (binary32_of_Z 255)))
                  (round_f32 (SF2Q x * 255))
             && (quantize (SF2Q x) =? k)%Z)
    (seqZ 0 256) = true.
Proof. vm_compute. reflexivity. Qed.

(** ** The round trip of a frame stack through the memory *)

Lemma scale_roundtrip (frames : list Q) :
  Forall (fun x => 0 <= x /\ x <= 1)%Q frames ->
  Forall2 (fun x y => Qabs (x - y) <= 1 # 255)%Q frames
    (rescale_from_uint8 (scale_to_uint8 frames)).
Proof.
  induction 1 as [|x frames [Hx0 Hx1] _ IH]; cbn; constructor; [|done].
  by apply quantize_roundtrip.
Qed.

Lemma add_sample_states m t m' :
  add_sample m t = Ok m' ->
  states m' !! ptr m = Some (scale_to_uint8 (state t))
  /\ next_states m' !! ptr m = Some (scale_to_uint8 (next_state t)).
Proof.
  intros Hadd.
  unfold add_sample, _insert_transform, np.setitem in Hadd.
  repeat case_decide; try done. cbn in Hadd.
  repeat case_decide; try done. injection Hadd as <-. cbn.
  by rewrite !list_lookup_insert_eq by done.
Qed.

(** C6 (round-trip scaling).  A frame stack with entries in [[0, 1]] that
    [add_sample] stores (a single-precision product with 255, truncated to
    a byte) comes back from [get_batch] (a double-precision division of
    the byte by 255, rounded to single precision) with every entry within
    [1/255] of the original; the same holds for the next-state stack. *)
Theorem state_roundtrip {R : Type} `{!RandomState R}
    (s s' : R) (m m' : ReplayMemory) (t : Transition) (bs : Z)
    (batch : Batch) :
  Forall (fun x => 0 <= x /\ x <= 1)%Q (state t) ->
  Forall (fun x => 0 <= x /\ x <= 1)%Q (next_state t) ->
  add_sample m t = Ok m' ->
  get_batch s m' bs = Ok (batch, s') ->
  exists idx,
    draw_indices s m' bs = Ok (idx, s')
    /\ forall j, idx !! j = Some (ptr m) ->
         exists row next_row,
           batch_state batch !! j = Some row
           /\ batch_next_state batch !! j = Some next_row
           /\ Forall2 (fun x y => Qabs (x - y) <= 1 # 255)%Q (state t) row
           /\ Forall2 (fun x y => Qabs (x - y) <= 1 # 255)%Q
                (next_state t) next_row.
Proof.
  intros Hst Hnst Hadd Hget.
  destruct (add_sample_states _ _ _ Hadd) as [Hs Hn].
  destruct (get_batch_inv _ _ _ _ _ Hget) as (idx & Hdraw & Hg).
  exists idx. split; [done|]. intros j Hj.
  destruct (gather_inv _ _ _ Hg) as (H1 & _ & H3 & _).
  destruct (Forall2_lookup_l _ _ _ _ _ H1 Hj) as (row & Hrow & Hr).
  destruct (Forall2_lookup_l _ _ _ _ _ H3 Hj) as (nrow & Hnrow & Hnr).
  rewrite Hs in Hr. rewrite Hn in Hnr. cbn in Hr, Hnr.
  injection Hr as <-. injection Hnr as <-.
  eexists _, _. do 2 (split; [done|]).
  split; by apply scale_roundtrip.
Qed.

(** C6, run on the example buffer: the stack [7/255, 1/3] is stored at
    position 3 and comes back first in a batch of three. *)
Lemma state_roundtrip_witness :
  Forall (fun x => 0 <= x /\ x <= 1)%Q (state (example_transition 7))
  /\ Forall (fun x => 0 <= x /\ x <= 1)%Q (next_state (example_transition 7))
  /\ add_sample example_memory (example_transition 7) = Ok example_memory_7
  /\ get_batch 42%N example_memory_7 3 = Ok example_batch_7
  /\ exists row,
       batch_state example_batch_7.1 !! 0 = Some row
       /\ Forall2 (fun x y => Qabs (x - y) <= 1 # 255)%Q
            (state (example_transition 7)) row.
Proof.
  assert (Forall (fun x => 0 <= x /\ x <= 1)%Q
            (state (example_transition 7))) as Hst.
  { repeat constructor; vm_compute; discriminate. }
  assert (Forall (fun x => 0 <= x /\ x <= 1)%Q
            (next_state (example_transition 7))) as Hnst.
  { repeat constructor; vm_compute; discriminate. }
  assert (add_sample example_memory (example_transition 7)
          = Ok example_memory_7) as Hadd by (vm_compute; reflexivity).
  assert (get_batch 42%N example_memory_7 3
          = Ok (example_batch_7.1, example_batch_7.2)) as Hget
    by (vm_compute; reflexivity).
  do 2 (split; [assumption|]). split; [exact Hadd|]. split; [exact Hget|].
  destruct (state_roundtrip _ _ _ _ _ _ _ Hst Hnst Hadd Hget)
    as (idx & Hdraw & Hidx).
  assert (idx = [3; 2; 1]) as -> by (vm_compute in Hdraw; congruence).
  destruct (Hidx 0 eq_refl) as (row & nrow & Hrow & _ & Hclose & _).
  exists row. split; [exact Hrow | exact Hclose].
Defined.

(** * Further properties of the memory *)

Section rounding_integers.
Local Open Scope Q_scope.

Lemma Qred_inject_Z (n : Z) : Qred (inject_Z n) = inject_Z n.
Proof.
  unfold Qred, inject_Z.
  pose proof (Z.ggcd_gcd n 1) as Hg.
  pose proof (Z.ggcd_correct_divisors n 1) as Hd.
  destruct (Z.ggcd n 1) as [g [a b]]. cbn in Hg, Hd.
  rewrite Z.gcd_1_r in Hg. subst g. destruct Hd as [-> Hb].
  replace b with 1%Z by lia. f_equal. lia.
Qed.

(** An integer of fewer than [prec] bits is a number of the format. *)
Lemma round_integer prec emin (n : Z) :
  (0 < prec)%Z -> (emin <= 0)%Z -> (Z.abs n < 2 ^ prec)%Z ->
  round prec emin (inject_Z n) = inject_Z n.
Proof.
  intros Hprec Hemin Hn. unfold round.
  destruct (Qeq_bool (inject_Z n) 0) eqn:E.
  - apply Qeq_bool_iff in E. change 0 with (inject_Z 0) in E.
    rewrite inject_Z_injective in E. by subst.
  - assert (n <> 0%Z) as Hn0 by (intros ->; done).
    set (e := fexp prec emin (inject_Z n)).
    assert (e <= 0)%Z as He.
    { unfold e, fexp. change (Qabs (inject_Z n)) with (inject_Z (Z.abs n)).
      assert (0 < inject_Z (Z.abs n)) as Hpos.
      { change 0 with (inject_Z 0). rewrite <- Zlt_Qlt. lia. }
      destruct (ilog2_spec _ Hpos) as [Hlo _].
      assert (2 ^ ilog2 (inject_Z (Z.abs n)) < 2 ^ prec) as Hlt.
      { eapply Qle_lt_trans; [exact Hlo|].
        rewrite <- (pow2_Z prec) by lia. by rewrite <- Zlt_Qlt. }
      apply pow2_lt_inv in Hlt. lia. }
    assert (inject_Z n / 2 ^ e == inject_Z (n * 2 ^ (- e))) as Hq.
    { rewrite inject_Z_mult, (pow2_Z (- e)) by lia.
      rewrite Qpower_opp. reflexivity. }
    assert (rne (inject_Z n / 2 ^ e) = (n * 2 ^ (- e))%Z) as ->.
    { apply rne_unique; rewrite Hq; lra. }
    etrans; [|apply (Qred_inject_Z n)].
    apply Qred_complete.
    rewrite inject_Z_mult, (pow2_Z (- e)) by lia.
    rewrite <- Qmult_assoc, <- pow2_add.
    replace (- e + e)%Z with 0%Z by lia. cbn. ring.
Qed.

(** The result of a rounding is in lowest terms. *)
Lemma round_Qred prec emin q : Qred (round prec emin q) = round prec emin q.
Proof.
  unfold round. destruct (Qeq_bool q 0); [done|].
  apply Qred_complete, Qred_correct.
Qed.

Lemma round_eq prec emin a b :
  round prec emin a == round prec emin b ->
  round prec emin a = round prec emin b.
Proof.
  intros H. rewrite <- (round_Qred _ _ a), <- (round_Qred _ _ b).
  by apply Qred_complete.
Qed.
End rounding_integers.

(** ** Bytes *)

Lemma byte_check_all : forallb byte_check (seqZ 0 256) = true.
Proof. vm_compute. reflexivity. Qed.

Lemma byte_check_spec k :
  is_byte k ->
  dequantize k = round_f32 (inject_Z k / 255)
  /\ quantize (round_f32 (inject_Z k / 255)) = k
  /\ unit_interval (dequantize k).
Proof.
  intros Hk.
  assert (byte_check k = true) as Hc.
  { pose proof byte_check_all as Hall.
    rewrite forallb_forall in Hall. apply Hall.
    apply list_elem_of_In, elem_of_seqZ. unfold is_byte in Hk. lia. }
  unfold byte_check in Hc.
  repeat (apply andb_prop in Hc as [Hc ?]).
  split; [|split; [|split]].
  - apply round_eq. by apply Qeq_bool_iff.
  - by apply Z.eqb_eq.
  - by apply Qle_bool_iff.
  - by apply Qle_bool_iff.
Qed.

Lemma scale_to_uint8_bytes frames : Forall is_byte (scale_to_uint8 frames).
Proof.
  apply Forall_fmap, Forall_true. intros x. apply Z.mod_pos_bound. lia.
Qed.

Lemma rescale_unit_interval row :
  Forall is_byte row -> Forall unit_interval (rescale_from_uint8 row).
Proof.
  intros H. apply Forall_fmap. eapply Forall_impl; [done|].
  intros k Hk. by apply byte_check_spec.
Qed.

(** On bytes, [_insert_transform] undoes the division by 255, and
    [get_batch] divides as single precision does. *)
Lemma scale_scaled_bytes ks :
  Forall is_byte ks ->
  scale_to_uint8 (scaled_bytes ks) = ks
  /\ rescale_from_uint8 ks = scaled_bytes ks.
Proof.
  induction 1 as [|k ks Hk _ [IH1 IH2]]; [done|].
  destruct (byte_check_spec k Hk) as (Hd & Hq & _).
  cbn. split; f_equal; done.
Qed.

(** ** What [add_sample] does and when it fails *)

Lemma add_sample_inv m t m' :
  add_sample m t = Ok m' ->
  ptr m < length (states m)
  /\ ptr m < length (next_states m)
  /\ ptr m < length (actions m)
  /\ ptr m < length (rewards m)
  /\ ptr m < length (terminal m)
  /\ mem_size m <> 0
  /\ m' = {| ptr := (ptr m + 1) mod mem_size m;
             filled := (filled m + 1) `min` mem_size m;
             device := device m;
             stack_size := stack_size m;
             mem_size := mem_size m;
             states := <[ptr m := scale_to_uint8 (state t)]> (states m);
             next_states :=
               <[ptr m := scale_to_uint8 (next_state t)]> (next_states m);
             actions := <[ptr m := np.int_to_uint8 (action t)]> (actions m);
             rewards := <[ptr m := round_f32 (reward t)]> (rewards m);
             terminal :=
               <[ptr m := np.int_to_uint8 (Z.b2z (done t))]> (terminal m) |}.
Proof.
  intros Hadd.
  unfold add_sample, _insert_transform, np.setitem in Hadd.
  repeat case_decide; try done. cbn in Hadd.
  repeat case_decide; try done. injection Hadd as <-. done.
Qed.

Lemma add_sample_Raise m t e :
  add_sample m t = Raise e -> e = IndexError \/ e = ZeroDivisionError.
Proof.
  unfold add_sample, _insert_transform, np.setitem.
  repeat case_decide; cbn; intros Heq; inversion Heq; auto.
Qed.

Lemma ReplayMemory_init_bytes memory_size dev stack m :
  ReplayMemory_init memory_size dev stack = Ok m -> stores_bytes m.
Proof.
  unfold ReplayMemory_init. case_decide; [done|]. intros [= <-].
  constructor; cbn; repeat apply Forall_replicate; try done; by left.
Qed.

Lemma add_sample_bytes m t m' :
  stores_bytes m -> add_sample m t = Ok m' -> stores_bytes m'.
Proof.
  intros [H1 H2 H3 H4] Hadd.
  destruct (add_sample_inv _ _ _ Hadd) as (_ & _ & _ & _ & _ & _ & ->).
  constructor; cbn; apply Forall_insert; try done.
  - apply scale_to_uint8_bytes.
  - apply scale_to_uint8_bytes.
  - apply Z.mod_pos_bound. lia.
  - destruct (done t); [by right | by left].
Qed.

Lemma add_samples_bytes m ts m' :
  stores_bytes m -> add_samples m ts = Ok m' -> stores_bytes m'.
Proof.
  revert m. induction ts as [|t ts IH]; intros m Hb; cbn.
  - by intros [= <-].
  - destruct (add_sample m t) as [m1|] eqn:Hadd; [|done]. cbn.
    apply IH. by eapply add_sample_bytes.
Qed.

(** X5 (a buffer without capacity).  The constructor accepts the capacity
    0.  On the buffer it returns then, and on every well-formed buffer of
    capacity 0, [add_sample] raises [IndexError] at its first store,
    whatever the transition: the modulo by [mem_size] is not reached. *)
Theorem add_sample_without_capacity_raises (dev : string) (stack : Z)
    (t : Transition) :
  (0 <= stack)%Z ->
  (exists m0, ReplayMemory_init 0 dev stack = Ok m0
              /\ wf m0 /\ mem_size m0 = 0
              /\ add_sample m0 t = Raise IndexError)
  /\ forall m, wf m -> mem_size m = 0 -> add_sample m t = Raise IndexError.
Proof.
  intros Hstack.
  assert (forall m, wf m -> mem_size m = 0 ->
                    add_sample m t = Raise IndexError) as Hraise.
  { intros m [Hs _ _ _ _ _ _] H0.
    unfold add_sample, _insert_transform, np.setitem.
    rewrite (decide_False (P := ptr m < length (states m))) by lia. done. }
  split; [|done].
  destruct (ReplayMemory_init 0 dev stack) as [m0|e] eqn:Hinit.
  - exists m0. pose proof (ReplayMemory_init_wf _ _ _ _ Hinit) as Hwf.
    assert (mem_size m0 = 0) as H0.
    { unfold ReplayMemory_init in Hinit. case_decide; [done|].
      by injection Hinit as <-. }
    auto.
  - unfold ReplayMemory_init in Hinit.
    rewrite decide_False in Hinit by lia. done.
Qed.

(** ** What [get_batch] returns and when it fails *)

Lemma take_rows_Raise {A} (arr : list A) idx e :
  np.take_rows arr idx = Raise e -> e = IndexError.
Proof.
  induction idx as [|i idx IH]; cbn; [done|].
  destruct (arr !! i); [|by intros [= <-]].
  destruct (np.take_rows arr idx); [done|]. intros [= <-]. by apply IH.
Qed.

Section sampling_extras.
Context {R : Type} `{!RandomState R}.

Lemma get_batch_not_enough (s : R) m bs :
  (Z.of_nat (filled m) <= bs)%Z ->
  get_batch s m bs = Raise (AssertionError "Not enough samples yet").
Proof.
  intros Hbs. unfold get_batch, draw_indices.
  by rewrite decide_False by lia.
Qed.

(** Past its assertion, [get_batch] raises [ValueError] or [IndexError]
    only. *)
Lemma get_batch_Raise (s : R) m bs e :
  (bs < Z.of_nat (filled m))%Z ->
  get_batch s m bs = Raise e -> e = ValueError \/ e = IndexError.
Proof.
  intros Hbs. unfold get_batch, draw_indices, np_random.choice.
  rewrite decide_True by done.
  destruct (decide (bs < 0)%Z); [by intros [= <-]; left|].
  destruct (decide _); [by intros [= <-]; left|].
  destruct (np_random.permutation _ _) as [perm s1].
  destruct (np.take_rows _ _) as [idx|e1] eqn:Hrows; cbn.
  - unfold gather.
    repeat match goal with
    | |- context [np.take_rows ?a ?i] =>
        let H := fresh in
        destruct (np.take_rows a i) eqn:H; cbn;
        [|apply take_rows_Raise in H; intros [= <-]; by right]
    end. done.
  - apply take_rows_Raise in Hrows. intros [= <-]. by right.
Qed.

Lemma Forall2_lookup_Forall {A B} (P : B -> Prop) (f : A -> B)
    (arr : list A) (idx : list nat) (rows : list B) :
  Forall (fun a => P (f a)) arr ->
  Forall2 (fun i v => f <$> arr !! i = Some v) idx rows ->
  Forall P rows.
Proof.
  intros Harr. induction 1 as [|i v idx rows Hv _ IH]; constructor; [|done].
  destruct (arr !! i) as [a|] eqn:Ha; [|done]. injection Hv as <-.
  rewrite Forall_lookup in Harr. by eapply Harr.
Qed.

(** X1 (the values of a batch).  Whatever was passed to [add_sample], a
    batch drawn from a buffer that the constructor and [add_sample] built
    holds frame entries in [[0, 1]], actions in [[0, 256)] and terminal
    flags 0 or 1. *)
Theorem batch_values_in_range (memory_size stack bs : Z) (dev : string)
    (ts : list Transition) (m : ReplayMemory) (s s' : R) (batch : Batch) :
  (m0 ← ReplayMemory_init memory_size dev stack; add_samples m0 ts) = Ok m ->
  get_batch s m bs = Ok (batch, s') ->
  Forall (Forall unit_interval) (batch_state batch)
  /\ Forall (Forall unit_interval) (batch_next_state batch)
  /\ Forall is_byte (batch_action batch)
  /\ Forall (fun d => d = 0%Q \/ d = 1%Q) (batch_done batch).
Proof.
  intros Hm Hget.
  destruct (ReplayMemory_init memory_size dev stack) as [m0|] eqn:Hinit;
    [|done]. cbn in Hm.
  assert (stores_bytes m) as [H1 H2 H3 H4].
  { eapply add_samples_bytes; [|done]. by eapply ReplayMemory_init_bytes. }
  destruct (get_batch_inv _ _ _ _ _ Hget) as (idx & _ & Hg).
  destruct (gather_inv _ _ _ Hg) as (G1 & G2 & G3 & _ & G5).
  split; [|split; [|split]].
  - eapply (Forall2_lookup_Forall _ rescale_from_uint8); [|done].
    eapply Forall_impl; [done|]. apply rescale_unit_interval.
  - eapply (Forall2_lookup_Forall _ rescale_from_uint8); [|done].
    eapply Forall_impl; [done|]. apply rescale_unit_interval.
  - eapply (Forall2_lookup_Forall _ id); [done|].
    eapply Forall2_impl; [done|]. intros i v ->. done.
  - eapply (Forall2_lookup_Forall _ inject_Z); [|done].
    eapply Forall_impl; [done|]. intros d [->| ->]; [by left | by right].
Qed.

(** X2 (scaled bytes are stored without loss).  A frame stack whose
    entries, as [add_sample] receives them, are bytes divided by 255 in
    single precision is stored as those bytes in that order, and
    [get_batch] returns the stack exactly as it was passed to
    [add_sample]; so for the next-state stack. *)
Theorem frames_stored_losslessly (s s' : R) (m m' : ReplayMemory)
    (t : Transition) (bs : Z) (batch : Batch)
    (ks next_ks : list Z) :
  Forall is_byte ks -> Forall is_byte next_ks ->
  state t = scaled_bytes ks ->
  next_state t = scaled_bytes next_ks ->
  add_sample m t = Ok m' ->
  get_batch s m' bs = Ok (batch, s') ->
  states m' !! ptr m = Some ks
  /\ next_states m' !! ptr m = Some next_ks
  /\ exists idx,
       draw_indices s m' bs = Ok (idx, s')
       /\ forall j, idx !! j = Some (ptr m) ->
            batch_state batch !! j = Some (state t)
            /\ batch_next_state batch !! j = Some (next_state t).
Proof.
  intros Hf Hnf Hst Hnst Hadd Hget.
  destruct (add_sample_states _ _ _ Hadd) as [Hs Hn].
  destruct (scale_scaled_bytes _ Hf) as [Hf1 Hf2].
  destruct (scale_scaled_bytes _ Hnf) as [Hn1 Hn2].
  rewrite Hst, Hf1 in Hs. rewrite Hnst, Hn1 in Hn.
  do 2 (split; [done|]).
  destruct (get_batch_inv _ _ _ _ _ Hget) as (idx & Hdraw & Hg).
  exists idx. split; [done|]. intros j Hj.
  destruct (gather_inv _ _ _ Hg) as (H1 & _ & H3 & _).
  destruct (Forall2_lookup_l _ _ _ _ _ H1 Hj) as (row & Hrow & Hr).
  destruct (Forall2_lookup_l _ _ _ _ _ H3 Hj) as (nrow & Hnrow & Hnr).
  rewrite Hs in Hr. rewrite Hn in Hnr. cbn in Hr, Hnr.
  injection Hr as <-. injection Hnr as <-.
  by rewrite Hrow, Hnrow, Hf2, Hn2, Hst, Hnst.
Qed.

(** X3 (integer rewards and terminal flags come back exactly).  A reward
    that is an integer of magnitude below [2^24] is a single-precision
    number: [get_batch] returns it unchanged, and the terminal flag as
    1 or 0. *)
Theorem integer_reward_and_done_exact (s s' : R) (m m' : ReplayMemory)
    (t : Transition) (bs : Z) (batch : Batch) (n : Z) :
  reward t = inject_Z n -> (Z.abs n < 2 ^ 24)%Z ->
  add_sample m t = Ok m' ->
  get_batch s m' bs = Ok (batch, s') ->
  rewards m' !! ptr m = Some (inject_Z n)
  /\ exists idx,
       draw_indices s m' bs = Ok (idx, s')
       /\ forall j, idx !! j = Some (ptr m) ->
            batch_reward batch !! j = Some (inject_Z n)
            /\ batch_done batch !! j
               = Some (if done t then 1%Q else 0%Q).
Proof.
  intros Hr Hn Hadd Hget.
  destruct (add_sample_inv _ _ _ Hadd) as (_ & _ & _ & Hp & Hp' & _ & ->).
  assert (round_f32 (reward t) = inject_Z n) as Hrnd.
  { rewrite Hr. by apply round_integer. }
  cbn [rewards ptr]. rewrite list_lookup_insert_eq, Hrnd by done.
  split; [done|].
  destruct (get_batch_inv _ _ _ _ _ Hget) as (idx & Hdraw & Hg).
  exists idx. split; [done|]. intros j Hj.
  destruct (gather_inv _ _ _ Hg) as (_ & _ & _ & H4 & H5).
  destruct (Forall2_lookup_l _ _ _ _ _ H4 Hj) as (r & -> & Hrr).
  destruct (Forall2_lookup_l _ _ _ _ _ H5 Hj) as (d & -> & Hdd).
  cbn in Hrr, Hdd.
  rewrite list_lookup_insert_eq, Hrnd in Hrr by done.
  rewrite list_lookup_insert_eq in Hdd by done. cbn in Hdd.
  split; [done|]. rewrite <- Hdd. by destruct (done t).
Qed.

(** X4 (a negative batch size).  The assertion of [get_batch] lets a
    negative batch size through, whatever the buffer holds; the draw then
    raises [ValueError]. *)
Theorem get_batch_negative_size (s : R) (m : ReplayMemory) (bs : Z) :
  (bs < 0)%Z -> get_batch s m bs = Raise ValueError.
Proof.
  intros Hbs. unfold get_batch, draw_indices, np_random.choice.
  rewrite decide_True by lia. by rewrite decide_True by lia.
Qed.
End sampling_extras.

(** X5, for a stack of four frames and an example transition. *)
Lemma add_sample_without_capacity_raises_witness :
  (0 <= 4)%Z
  /\ exists m0, ReplayMemory_init 0 "cpu" 4 = Ok m0
                /\ add_sample m0 (example_transition 7) = Raise IndexError.
Proof.
  split; [lia|].
  destruct (add_sample_without_capacity_raises "cpu" 4 (example_transition 7)
              ltac:(lia)) as [(m0 & Hinit & _ & _ & Hadd) _].
  exists m0. split; [exact Hinit | exact Hadd].
Defined.

(** X1, on a buffer built from three example transitions. *)
Lemma batch_values_in_range_witness :
  (m0 ← ReplayMemory_init 4 "cpu" 0;
   add_samples m0 (map example_transition (seqZ 0 3)))
  = Ok example_memory_built
  /\ get_batch 42%N example_memory_built 2 = Ok example_batch_built
  /\ Forall (Forall unit_interval) (batch_state example_batch_built.1)
  /\ Forall is_byte (batch_action example_batch_built.1).
Proof.
  assert ((m0 ← ReplayMemory_init 4 "cpu" 0;
           add_samples m0 (map example_transition (seqZ 0 3)))
          = Ok example_memory_built) as Hm by (vm_compute; reflexivity).
  assert (get_batch 42%N example_memory_built 2
          = Ok (example_batch_built.1, example_batch_built.2)) as Hget
    by (vm_compute; reflexivity).
  split; [exact Hm|]. split; [exact Hget|].
  destruct (batch_values_in_range _ _ _ _ _ _ _ _ _ Hm Hget)
    as (H1 & _ & H3 & _).
  split; [exact H1 | exact H3].
Defined.

(** X2, on the example buffer: the stack of the bytes 7 and 85 divided by
    255 is stored as 7 and 85 at position 3 and comes back first in a
    batch of three. *)
Lemma frames_stored_losslessly_witness :
  Forall is_byte [7; 85]%Z /\ Forall is_byte [8; 255]%Z
  /\ add_sample example_memory example_frames_transition
     = Ok example_memory_frames
  /\ get_batch 42%N example_memory_frames 3 = Ok example_batch_frames
  /\ states example_memory_frames !! 3 = Some [7; 85]%Z
  /\ batch_state example_batch_frames.1 !! 0
     = Some (state example_frames_transition).
Proof.
  assert (Forall is_byte [7; 85]%Z) as Hf by (repeat constructor; done).
  assert (Forall is_byte [8; 255]%Z) as Hnf by (repeat constructor; done).
  assert (add_sample example_memory example_frames_transition
          = Ok example_memory_frames) as Hadd by (vm_compute; reflexivity).
  assert (get_batch 42%N example_memory_frames 3
          = Ok (example_batch_frames.1, example_batch_frames.2)) as Hget
    by (vm_compute; reflexivity).
  do 2 (split; [assumption|]). split; [exact Hadd|]. split; [exact Hget|].
  destruct (frames_stored_losslessly 42%N _ example_memory _
              example_frames_transition 3 _ _ _ Hf Hnf eq_refl eq_refl
              Hadd Hget) as (Hs & _ & idx & Hdraw & Hidx).
  split; [exact Hs|].
  assert (idx = [3; 2; 1]) as -> by (vm_compute in Hdraw; congruence).
  exact (proj1 (Hidx 0 eq_refl)).
Defined.

(** X3, on the example buffer: the reward 7 of a transition that does not
    end its episode. *)
Lemma integer_reward_and_done_exact_witness :
  reward (example_transition 7) = inject_Z 7 /\ (Z.abs 7 < 2 ^ 24)%Z
  /\ add_sample example_memory (example_transition 7) = Ok example_memory_7
  /\ get_batch 42%N example_memory_7 3 = Ok example_batch_7
  /\ batch_reward example_batch_7.1 !! 0 = Some (inject_Z 7)
  /\ batch_done example_batch_7.1 !! 0 = Some 0%Q.
Proof.
  assert (add_sample example_memory (example_transition 7)
          = Ok example_memory_7) as Hadd by (vm_compute; reflexivity).
  assert (get_batch 42%N example_memory_7 3
          = Ok (example_batch_7.1, example_batch_7.2)) as Hget
    by (vm_compute; reflexivity).
  split; [reflexivity|]. split; [done|].
  split; [exact Hadd|]. split; [exact Hget|].
  destruct (integer_reward_and_done_exact 42%N _ example_memory _
              (example_transition 7) 3 _ 7 eq_refl eq_refl Hadd Hget)
    as (_ & idx & Hdraw & Hidx).
  assert (idx = [3; 2; 1]) as -> by (vm_compute in Hdraw; congruence).
  exact (Hidx 0 eq_refl).
Defined.

(** X4, on the example buffer. *)
Lemma get_batch_negative_size_witness :
  (-1 < 0)%Z /\ get_batch 42%N example_memory (-1) = Raise ValueError.
Proof.
  split; [lia|]. apply (get_batch_negative_size 42%N example_memory (-1)).
  lia.
Defined.

(** * Further properties of the trainer *)

(** One step of a proof that a method preserves a relation; [prim] proves
    the relation between a world and what a primitive makes of it. *)
Ltac preserves_step prim :=
  first
    [ apply preserves_ret; solve [typeclasses eauto]
    | apply preserves_throw; solve [typeclasses eauto]
    | apply preserves_timeout; solve [typeclasses eauto]
    | apply preserves_lift; solve [typeclasses eauto]
    | apply preserves_gets; solve [typeclasses eauto]
    | apply preserves_fmap; [typeclasses eauto|]
    | apply preserves_bind; [typeclasses eauto| |intros ?]
    | match goal with
      | |- preserves _ (match ?x with _ => _ end) => destruct x
      end
    | match goal with
      | |- preserves _ (call_env ?f) =>
          let w := fresh "w" in
          intros w; unfold call_env; destruct (f (env (self w))); cbn; prim
      | |- preserves _ (call_agent ?f) =>
          let w := fresh "w" in
          intros w; unfold call_agent; destruct (f (agent (self w)));
          cbn; prim
      | |- preserves _ (memory_get_batch _) =>
          let w := fresh "w" in
          intros w; unfold memory_get_batch;
          destruct (get_batch _ _ _) as [[? ?]|]; cbn; prim
      | |- preserves _ (modify _) =>
          let w := fresh "w" in intros w; cbn; prim
      | |- preserves _ (emit _) =>
          let w := fresh "w" in intros w; cbn; prim
      | |- preserves _ (torch_save_to _ _) =>
          let w := fresh "w" in intros w; cbn; prim
      end ].

(** ** Running a method *)

Section running.
Context `{C : Collaborators}.

Lemma M_bind_Return {A B} (m : M A) (k : A -> M B) (w w' : World) (b : B) :
  (m ≫= k) w = (Return b, w') ->
  exists a w1, m w = (Return a, w1) /\ k a w1 = (Return b, w').
Proof.
  rewrite M_bind_unfold. destruct (m w) as [[a| |] w1]; [|done..].
  intros H. by exists a, w1.
Qed.

Lemma run_preserves (P : relation World) {A} (m : M A) (w w1 : World)
    (o : outcome A) :
  preserves P m -> m w = (o, w1) -> P w w1.
Proof. intros Hm Hw. specialize (Hm w). by rewrite Hw in Hm. Qed.

Lemma call_env_eq {A} (f : Env -> A * Env) (w : World) :
  call_env f w
  = (Return (f (env (self w))).1,
     set_self (set_env (f (env (self w))).2) w).
Proof. unfold call_env. by destruct (f _). Qed.

Lemma call_agent_eq {A} (f : Agent -> A * Agent) (w : World) :
  call_agent f w
  = (Return (f (agent (self w))).1,
     set_self (set_agent (f (agent (self w))).2) w).
Proof. unfold call_agent. by destruct (f _). Qed.

Lemma save_state_eq epoch (w : World) :
  save_state epoch w
  = (Return tt,
     {| self := self w;
        disk := <[state_file (self w)
                  := StateFile epoch (agent (self w)) (memory (self w))
                       (best_return (self w))]> (disk w);
        np_random := np_random w;
        trace := trace w
                 ++ [torch_save (state_file (self w))
                       (StateFile epoch (agent (self w)) (memory (self w))
                          (best_return (self w)))] |}).
Proof. reflexivity. Qed.

Lemma save_checkpoint_eq (w : World) :
  save_checkpoint w
  = (Return tt,
     {| self := self w;
        disk := <[checkpoint_file (self w)
                  := CheckpointFile (agent (self w))]> (disk w);
        np_random := np_random w;
        trace := trace w
                 ++ [torch_save (checkpoint_file (self w))
                       (CheckpointFile (agent (self w)))] |}).
Proof. reflexivity. Qed.

Lemma load_state_found dir (w : World) e ag mem b :
  disk w !! path_join dir "last_state.pt" = Some (StateFile e ag mem b) ->
  load_state dir w
  = (Return tt,
     set_self (fun t => set_output_dir dir
                          (set_start_epoch (e + 1)
                             (set_best_return b
                                (set_memory mem (set_agent ag t))))) w).
Proof.
  intros H. unfold load_state. rewrite M_bind_unfold. cbn [torch_load].
  rewrite H. reflexivity.
Qed.

Lemma load_checkpoint_found dir (w : World) ag :
  disk w !! path_join dir "checkpoint.pt" = Some (CheckpointFile ag) ->
  load_checkpoint dir w
  = (Return tt,
     set_self (fun t => set_output_dir dir (set_agent ag t)) w).
Proof.
  intros H. unfold load_checkpoint. rewrite M_bind_unfold. cbn [torch_load].
  rewrite H. reflexivity.
Qed.

Lemma memory_add_sample_eq t (w : World) m' :
  add_sample (memory (self w)) t = Ok m' ->
  memory_add_sample t w = (Return tt, set_self (set_memory m') w).
Proof.
  intros H. unfold memory_add_sample. rewrite M_bind_unfold. cbn [gets].
  rewrite M_bind_unfold, H. reflexivity.
Qed.

Lemma memory_add_sample_Return t (w w1 : World) :
  memory_add_sample t w = (Return tt, w1) ->
  add_sample (memory (self w)) t = Ok (memory (self w1))
  /\ batch_size (self w1) = batch_size (self w)
  /\ config (self w1) = config (self w).
Proof.
  unfold memory_add_sample. rewrite M_bind_unfold. cbn.
  rewrite M_bind_unfold.
  destruct (add_sample _ _) as [m'|e]; cbn; [|done].
  by intros [= <-].
Qed.

Lemma preserves_run_episodes (P : relation World) `{!PreOrder P}
    episodes (episode : M dict) :
  preserves P episode -> preserves P (run_episodes episodes episode).
Proof.
  intros He. induction episodes as [|? episodes IH]; cbn.
  - apply preserves_ret. typeclasses eauto.
  - repeat first [ apply IH | apply He | preserves_step idtac ].
Qed.

(** *** What a stable relation is preserved by *)

Section stable.
Context (P : relation World) `{!Stable P}.

Ltac stable_step :=
  first [ apply Stable_call_env | apply Stable_call_agent
        | apply Stable_get_batch | apply Stable_add_sample
        | preserves_step idtac ].

Lemma stable_learning_update : preserves P learning_update.
Proof. unfold learning_update. repeat stable_step. Qed.

Lemma stable_initialize_memory : preserves P initialize_memory.
Proof.
  assert (forall steps st, preserves P (initialize_memory_loop steps st))
    as Hloop.
  { induction steps as [|step steps IH]; intros st; cbn.
    - stable_step.
    - repeat first [ apply IH | apply stable_learning_update
                   | stable_step ]. }
  unfold initialize_memory. repeat first [ apply Hloop | stable_step ].
Qed.

Lemma stable_train_episode fuel : preserves P (train_episode fuel).
Proof.
  assert (forall st total losses,
            preserves P (train_episode_loop fuel st total losses)) as Hloop.
  { induction fuel as [|fuel IH]; intros st total losses; cbn.
    - stable_step.
    - repeat first [ apply IH | apply stable_learning_update
                   | stable_step ]. }
  unfold train_episode. repeat first [ apply Hloop | stable_step ].
Qed.

Lemma stable_eval_episode fuel : preserves P (eval_episode fuel).
Proof.
  assert (forall st total, preserves P (eval_episode_loop fuel st total))
    as Hloop.
  { induction fuel as [|fuel IH]; intros st total; cbn.
    - stable_step.
    - repeat first [ apply IH | stable_step ]. }
  unfold eval_episode. repeat first [ apply Hloop | stable_step ].
Qed.
End stable.
End running.

(** ** Evaluation episodes *)

Section evaluation.
Context `{C : Collaborators}.

Global Instance only_env_agent_preorder : PreOrder only_env_agent.
Proof.
  split.
  - intros w. by repeat split.
  - intros w1 w2 w3 H12 H23. unfold only_env_agent in *.
    destruct_and!. repeat split; congruence.
Qed.

Lemma only_env_agent_eval_episode fuel :
  preserves only_env_agent (eval_episode fuel).
Proof.
  assert (forall st total,
            preserves only_env_agent (eval_episode_loop fuel st total))
    as Hloop.
  { induction fuel as [|fuel IH]; intros st total; cbn.
    - preserves_step idtac.
    - repeat first [ apply IH | preserves_step ltac:(by repeat split) ]. }
  unfold eval_episode.
  repeat first [ apply Hloop | preserves_step ltac:(by repeat split) ].
Qed.

(** X6 (an evaluation episode changes the environment and the agent
    only).  Whatever its outcome, [eval_episode] leaves the memory,
    [best_return], the epoch counter, the output directory, the files,
    numpy's generator and the trace as they were: it stores no
    transition, and it neither samples nor learns. *)
Theorem eval_episode_changes_env_and_agent_only (fuel : nat) (w : World) :
  let w' := (eval_episode fuel w).2 in
  memory (self w') = memory (self w)
  /\ best_return (self w') = best_return (self w)
  /\ start_epoch (self w') = start_epoch (self w)
  /\ output_dir (self w') = output_dir (self w)
  /\ config (self w') = config (self w)
  /\ disk w' = disk w
  /\ np_random w' = np_random w
  /\ trace w' = trace w.
Proof.
  cbn zeta. pose proof (only_env_agent_eval_episode fuel w) as H.
  unfold only_env_agent in H. destruct_and!. done.
Qed.
End evaluation.

(** ** The files of a run *)

Section files.
Context `{C : Collaborators}.

Lemma state_file_not_checkpoint_file (dir : string) :
  path_join dir "last_state.pt" <> path_join dir "checkpoint.pt".
Proof.
  unfold path_join. cbn.
  destruct (decide (dir = "")) as [->|_]; [done|].
  destruct (ends_with_slash dir); intros H.
  - apply (inj (String.append dir)) in H. done.
  - apply (inj (String.append dir)) in H. done.
Qed.

Lemma writes_own_files_quiet w w' :
  config (self w') = config (self w) ->
  output_dir (self w') = output_dir (self w) ->
  start_epoch (self w') = start_epoch (self w) ->
  disk w' = disk w -> trace w' = trace w ->
  writes_own_files w w'.
Proof.
  intros ? ? ? Hd Ht. repeat split; try done.
  - intros. by rewrite Hd.
  - exists []. by rewrite app_nil_r.
Qed.

Ltac writes_own_files_step :=
  preserves_step ltac:(by apply writes_own_files_quiet).

Global Instance writes_own_files_stable : Stable writes_own_files.
Proof.
  assert (PreOrder writes_own_files) as Hpre.
  { split.
    - intros w. repeat split; try done. exists []. by rewrite app_nil_r.
    - intros w1 w2 w3 (H1 & H2 & H3 & H4 & evs & H5 & H6)
        (H1' & H2' & H3' & H4' & evs' & H5' & H6').
      unfold state_file, checkpoint_file, own_file_event in *.
      split; [congruence|]. split; [congruence|]. split; [congruence|].
      split.
      + intros path Hp Hq. rewrite H4', H4; [done..| |]; by rewrite H2.
      + exists (evs ++ evs'). rewrite H5', H5, app_assoc. split; [done|].
        apply Forall_app. split; [done|].
        eapply Forall_impl; [done|]. intros e.
        unfold state_file, checkpoint_file. by rewrite H2. }
  split; [done|intros ??|intros ??|intros ?|intros ?].
  - writes_own_files_step.
  - writes_own_files_step.
  - writes_own_files_step.
  - unfold memory_add_sample. repeat writes_own_files_step.
Qed.

Lemma writes_own_files_emit e :
  (forall t, own_file_event t e) -> preserves writes_own_files (emit e).
Proof.
  intros He w. repeat split; try done. exists [e]. split; [done|].
  by constructor.
Qed.

Lemma writes_own_files_save_state epoch :
  preserves writes_own_files (save_state epoch).
Proof.
  intros w. rewrite save_state_eq. cbn [snd].
  unfold writes_own_files. cbn [self disk trace].
  do 3 (split; [done|]). split.
  - intros path Hp _. by rewrite lookup_insert_ne.
  - eexists [_]. split; [done|]. by constructor.
Qed.

Lemma writes_own_files_save_checkpoint :
  preserves writes_own_files save_checkpoint.
Proof.
  intros w. rewrite save_checkpoint_eq. cbn [snd].
  unfold writes_own_files. cbn [self disk trace].
  do 3 (split; [done|]). split.
  - intros path _ Hp. by rewrite lookup_insert_ne.
  - eexists [_]. split; [done|]. by constructor.
Qed.

Lemma writes_own_files_train_epoch fuel epoch :
  preserves writes_own_files (train_epoch fuel epoch).
Proof.
  unfold train_epoch, evaluation_update.
  repeat first
    [ apply writes_own_files_save_state
    | apply writes_own_files_save_checkpoint
    | apply writes_own_files_emit; done
    | apply preserves_run_episodes;
      [typeclasses eauto
      |first [ apply stable_train_episode | apply stable_eval_episode ];
       typeclasses eauto]
    | writes_own_files_step ].
Qed.

Lemma writes_own_files_train fuel : preserves writes_own_files (train fuel).
Proof.
  assert (forall epochs,
            preserves writes_own_files (train_epochs_loop fuel epochs))
    as Hloop.
  { induction epochs as [|epoch epochs IH]; cbn.
    - writes_own_files_step.
    - repeat first [ apply IH | apply writes_own_files_train_epoch
                   | writes_own_files_step ]. }
  unfold train.
  repeat first [ apply Hloop
               | apply stable_initialize_memory; typeclasses eauto
               | writes_own_files_step ].
Qed.

(** X7 (a run writes its two files only).  Whatever its outcome, [train]
    changes no file but [last_state.pt] and [checkpoint.pt] in the output
    directory, every snapshot it saves goes to the first and every
    checkpoint to the second, and it keeps the output directory, the
    configuration and the first epoch. *)
Theorem train_writes_its_two_files_only (fuel : nat) (w : World) :
  let w' := (train fuel w).2 in
  let state_path := path_join (output_dir (self w)) "last_state.pt" in
  let checkpoint_path := path_join (output_dir (self w)) "checkpoint.pt" in
  (forall path, path <> state_path -> path <> checkpoint_path ->
     disk w' !! path = disk w !! path)
  /\ (exists evs,
        trace w' = trace w ++ evs
        /\ forall path a, torch_save path a ∈ evs ->
             match a with
             | StateFile _ _ _ _ => path = state_path
             | CheckpointFile _ => path = checkpoint_path
             end)
  /\ output_dir (self w') = output_dir (self w)
  /\ config (self w') = config (self w)
  /\ start_epoch (self w') = start_epoch (self w).
Proof.
  cbn zeta.
  destruct (writes_own_files_train fuel w)
    as (H1 & H2 & H3 & H4 & evs & H5 & H6).
  split; [exact H4|]. split; [|done].
  exists evs. split; [done|]. intros path a Hin.
  rewrite Forall_forall in H6. apply (H6 _ Hin).
Qed.

(** X16 (the snapshot and the checkpoint do not overwrite each other).
    The two files have different paths, whatever the output directory:
    after [save_state] and [save_checkpoint], in either order, each file
    holds what was saved to it. *)
Theorem snapshot_and_checkpoint_coexist (w : World) (e : Z) :
  let dir := output_dir (self w) in
  let snapshot :=
    StateFile e (agent (self w)) (memory (self w)) (best_return (self w)) in
  let checkpoint := CheckpointFile (agent (self w)) in
  path_join dir "last_state.pt" <> path_join dir "checkpoint.pt"
  /\ disk (save_checkpoint (save_state e w).2).2
       !! path_join dir "last_state.pt" = Some snapshot
  /\ disk (save_checkpoint (save_state e w).2).2
       !! path_join dir "checkpoint.pt" = Some checkpoint
  /\ disk (save_state e (save_checkpoint w).2).2
       !! path_join dir "last_state.pt" = Some snapshot
  /\ disk (save_state e (save_checkpoint w).2).2
       !! path_join dir "checkpoint.pt" = Some checkpoint.
Proof.
  cbn zeta. pose proof (state_file_not_checkpoint_file (output_dir (self w))).
  split; [done|].
  repeat (progress (rewrite ?save_state_eq, ?save_checkpoint_eq;
                    cbn [snd disk self])).
  unfold state_file, checkpoint_file. cbn [self output_dir].
  rewrite lookup_insert_ne by done. rewrite !lookup_insert_eq.
  rewrite lookup_insert_ne by done. rewrite lookup_insert_eq. done.
Qed.
End files.

(** ** The epochs of a run *)

Section epochs.
Context `{C : Collaborators}.

Lemma epoch_marks_app evs evs' :
  epoch_marks (evs ++ evs') = epoch_marks evs ++ epoch_marks evs'.
Proof.
  induction evs as [|e evs IH]; [done|].
  destruct e as [ep d|ep r|p [|]]; cbn; by rewrite IH.
Qed.

Lemma keeps_snapshot_quiet w w' :
  config (self w') = config (self w) ->
  output_dir (self w') = output_dir (self w) ->
  start_epoch (self w') = start_epoch (self w) ->
  best_return (self w') = best_return (self w) ->
  disk w' = disk w -> trace w' = trace w ->
  keeps_snapshot w w'.
Proof.
  intros ? ? ? Hb Hd Ht. repeat split; try done.
  - by rewrite Hd.
  - rewrite Hb. apply Qle_refl.
  - exists []. by rewrite app_nil_r.
Qed.

Ltac keeps_snapshot_step :=
  preserves_step ltac:(by apply keeps_snapshot_quiet).

Global Instance keeps_snapshot_stable : Stable keeps_snapshot.
Proof.
  assert (PreOrder keeps_snapshot) as Hpre.
  { split.
    - intros w. by apply keeps_snapshot_quiet.
    - intros w1 w2 w3 (H1 & H2 & H3 & H4 & H5 & evs & H6 & H7)
        (H1' & H2' & H3' & H4' & H5' & evs' & H6' & H7').
      unfold keeps_snapshot, state_file in *.
      split; [congruence|]. split; [congruence|]. split; [congruence|].
      split; [rewrite H2 in H4'; congruence|].
      split; [by eapply Qle_trans|].
      exists (evs ++ evs'). rewrite H6', H6, app_assoc. split; [done|].
      by rewrite epoch_marks_app, H7, H7'. }
  split; [done|intros ??|intros ??|intros ?|intros ?].
  - keeps_snapshot_step.
  - keeps_snapshot_step.
  - keeps_snapshot_step.
  - unfold memory_add_sample. repeat keeps_snapshot_step.
Qed.

Lemma keeps_snapshot_emit e :
  epoch_marks [e] = [] -> preserves keeps_snapshot (emit e).
Proof.
  intros He w. repeat split; try done; [apply Qle_refl|]. by exists [e].
Qed.

Lemma keeps_snapshot_evaluation_update r :
  preserves keeps_snapshot (evaluation_update r).
Proof.
  intros w. destruct (Qlt_le_dec (best_return (self w)) r) as [Hlt|Hle].
  - rewrite evaluation_update_improves by done. cbn [snd].
    unfold keeps_snapshot. cbn [self disk trace].
    do 3 (split; [done|]). split; [|split].
    + rewrite lookup_insert_ne; [done|].
      intros H. symmetry in H.
      by apply state_file_not_checkpoint_file in H.
    + cbn. by apply Qlt_le_weak.
    + by eexists [_].
  - rewrite evaluation_update_keeps by done. reflexivity.
Qed.

(** What a completed epoch leaves: its metrics logged, then its snapshot
    written, and the snapshot still in its file. *)
Lemma train_epoch_Return fuel epoch (w w' : World) :
  train_epoch fuel epoch w = (Return tt, w') ->
  config (self w') = config (self w)
  /\ output_dir (self w') = output_dir (self w)
  /\ start_epoch (self w') = start_epoch (self w)
  /\ (exists ag mem b,
        disk w' !! state_file (self w) = Some (StateFile epoch ag mem b)
        /\ (b <= best_return (self w'))%Q)
  /\ exists evs,
       trace w' = trace w ++ evs
       /\ epoch_marks evs = [epoch_logged epoch; epoch_saved epoch].
Proof.
  unfold train_epoch. intros H.
  apply M_bind_Return in H as (? & w1 & H1 & H).
  apply M_bind_Return in H as (cfg & w2 & H2 & H).
  apply M_bind_Return in H as (ds & w3 & H3 & H).
  apply M_bind_Return in H as (? & w4 & H4 & H).
  apply M_bind_Return in H as (? & w5 & H5 & H).
  assert (keeps_snapshot w w3)
    as (Hc & Ho & Hs & _ & _ & evs1 & Ht1 & Hm1).
  { etrans; [|etrans].
    - eapply run_preserves; [|exact H1]. keeps_snapshot_step.
    - eapply run_preserves; [|exact H2]. keeps_snapshot_step.
    - eapply run_preserves; [|exact H3].
      apply preserves_run_episodes; [typeclasses eauto|].
      apply stable_train_episode. typeclasses eauto. }
  apply (f_equal snd) in H4. cbn [snd emit] in H4. subst w4.
  rewrite save_state_eq in H5.
  apply (f_equal snd) in H5. cbn [snd self disk trace] in H5. subst w5.
  match type of H with
  | ?m _ = _ => assert (preserves keeps_snapshot m) as Hk
  end.
  { repeat first
      [ apply keeps_snapshot_evaluation_update
      | apply keeps_snapshot_emit; done
      | apply preserves_run_episodes;
        [typeclasses eauto
        |apply stable_eval_episode; typeclasses eauto]
      | keeps_snapshot_step ]. }
  apply (run_preserves _ _ _ _ _ Hk) in H.
  destruct H as (Hc' & Ho' & Hs' & Hd & Hb & evs2 & Ht2 & Hm2).
  cbn [self disk trace] in *. unfold state_file in *.
  split; [congruence|]. split; [congruence|]. split; [congruence|].
  split.
  - eexists _, _, _. split; [|exact Hb].
    rewrite <- Ho, Hd. by rewrite lookup_insert_eq.
  - eexists. rewrite Ht2, Ht1, <- !app_assoc. split; [done|].
    rewrite !epoch_marks_app, Hm1, Hm2. done.
Qed.

Lemma train_epochs_loop_Return fuel epochs (w w' : World) :
  train_epochs_loop fuel epochs w = (Return tt, w') ->
  config (self w') = config (self w)
  /\ output_dir (self w') = output_dir (self w)
  /\ start_epoch (self w') = start_epoch (self w)
  /\ (forall e, last epochs = Some e ->
        exists ag mem b,
          disk w' !! state_file (self w) = Some (StateFile e ag mem b)
          /\ (b <= best_return (self w'))%Q)
  /\ exists evs,
       trace w' = trace w ++ evs
       /\ epoch_marks evs
          = flat_map (fun e => [epoch_logged e; epoch_saved e]) epochs.
Proof.
  revert w. induction epochs as [|e0 epochs IH]; intros w Hrun.
  - injection Hrun as <-. do 3 (split; [done|]). split; [done|].
    exists []. by rewrite app_nil_r.
  - cbn in Hrun. apply M_bind_Return in Hrun as ([] & w1 & H1 & Hrun).
    apply train_epoch_Return in H1
      as (Hc & Ho & Hs & Hsnap & evs1 & Ht1 & Hm1).
    destruct (IH w1 Hrun) as (Hc' & Ho' & Hs' & Hsnap' & evs2 & Ht2 & Hm2).
    split; [congruence|]. split; [congruence|]. split; [congruence|].
    split.
    + intros e Hlast. destruct epochs as [|e1 epochs].
      * injection Hrun as <-. injection Hlast as <-. done.
      * unfold state_file in *. rewrite Ho in Hsnap'. by apply Hsnap'.
    + exists (evs1 ++ evs2). rewrite Ht2, Ht1, app_assoc. split; [done|].
      rewrite epoch_marks_app, Hm1, Hm2. done.
Qed.

Lemma train_Return fuel (w w' : World) :
  train fuel w = (Return tt, w') ->
  exists w1,
    keeps_snapshot w w1
    /\ train_epochs_loop fuel (epochs_to_run (self w)) w1 = (Return tt, w').
Proof.
  unfold train. intros Hrun.
  apply M_bind_Return in Hrun as ([] & w1 & H1 & Hrun).
  apply M_bind_Return in Hrun as (t & w2 & H2 & Hrun).
  injection H2 as <- <-.
  apply (run_preserves keeps_snapshot) in H1;
    [|apply stable_initialize_memory; typeclasses eauto].
  exists w1. split; [done|].
  destruct H1 as (Hc & _ & Hs & _).
  unfold epochs_to_run in *. by rewrite <- Hs, <- Hc.
Qed.

Lemma last_range_from (a b : Z) :
  (a < b)%Z -> last (range_from a b) = Some (b - 1)%Z.
Proof.
  intros Hab. unfold range_from.
  replace (b - a)%Z with (Z.of_nat (S (Z.to_nat (b - a - 1)))) by lia.
  rewrite seqZ_S, last_snoc. f_equal. lia.
Qed.

(** X8 (a completed run can be resumed, and resuming it trains no
    further).  When [train] returns after at least one epoch,
    [last_state.pt] holds the snapshot of the last epoch,
    [train_epochs]; its [best_return] is the value before that epoch's
    evaluation, at most the final one.  [load_state] on the output
    directory then returns, and leaves a trainer whose epoch range is
    empty. *)
Theorem train_leaves_last_snapshot (fuel : nat) (w w' : World) :
  train fuel w = (Return tt, w') ->
  (start_epoch (self w) <= Config.train_epochs (config (self w)))%Z ->
  let dir := output_dir (self w) in
  let final := Config.train_epochs (config (self w)) in
  exists ag mem b,
    disk w' !! path_join dir "last_state.pt"
    = Some (StateFile final ag mem b)
    /\ (b <= best_return (self w'))%Q
    /\ (load_state dir w').1 = Return tt
    /\ agent (self (load_state dir w').2) = ag
    /\ memory (self (load_state dir w').2) = mem
    /\ best_return (self (load_state dir w').2) = b
    /\ start_epoch (self (load_state dir w').2) = (final + 1)%Z
    /\ epochs_to_run (self (load_state dir w').2) = [].
Proof.
  intros Hrun Hstart. cbn zeta.
  apply train_Return in Hrun as (w1 & (Hc & Ho & Hs & _) & Hrun).
  apply train_epochs_loop_Return in Hrun as (Hc' & Ho' & _ & Hsnap & _).
  destruct (Hsnap (Config.train_epochs (config (self w))))
    as (ag & mem & b & Hd & Hb).
  { unfold epochs_to_run. rewrite last_range_from by lia. f_equal. lia. }
  exists ag, mem, b. unfold state_file in Hd. rewrite Ho in Hd.
  split; [done|]. split; [done|].
  rewrite (load_state_found _ _ _ _ _ _ Hd). cbn. repeat split.
  unfold epochs_to_run, range_from. cbn. rewrite Hc', Hc.
  by replace (_ - _)%Z with 0%Z by lia.
Qed.

(** X18 (every epoch is logged and saved, once and in order).  When
    [train] returns, the training metrics it logged and the snapshots it
    wrote are those of the epochs from [start_epoch] to [train_epochs],
    each epoch logged and then saved, in increasing order. *)
Theorem train_logs_and_saves_every_epoch (fuel : nat) (w w' : World) :
  train fuel w = (Return tt, w') ->
  exists evs,
    trace w' = trace w ++ evs
    /\ epoch_marks evs
       = flat_map (fun e => [epoch_logged e; epoch_saved e])
           (range_from (start_epoch (self w))
              (Config.train_epochs (config (self w)) + 1)).
Proof.
  intros Hrun.
  apply train_Return
    in Hrun as (w1 & (_ & _ & _ & _ & _ & evs1 & Ht1 & Hm1) & Hrun).
  apply train_epochs_loop_Return
    in Hrun as (_ & _ & _ & _ & evs2 & Ht2 & Hm2).
  exists (evs1 ++ evs2). rewrite Ht2, Ht1, app_assoc. split; [done|].
  by rewrite epoch_marks_app, Hm1, Hm2.
Qed.

(** The first epoch under [eval_every = 0]: once its training episodes
    have returned, the epoch is logged, its snapshot is written, and the
    modulo raises. *)
Lemma train_epoch_eval_every_zero fuel epoch (w : World) :
  Config.eval_every (config (self w)) = 0%Z ->
  let w2 := (call_agent (fun a => (tt, agent_train a)) w).2 in
  let episodes :=
    run_episodes (range (Config.episodes_per_epoch (config (self w))))
      (train_episode fuel) w2 in
  let snapshot :=
    StateFile epoch (agent (self episodes.2)) (memory (self episodes.2))
      (best_return (self episodes.2)) in
  train_epoch fuel epoch w
  = match episodes.1 with
    | Return ds =>
        (Throw ZeroDivisionError,
         {| self := self episodes.2;
            disk := <[state_file (self episodes.2) := snapshot]>
                      (disk episodes.2);
            np_random := np_random episodes.2;
            trace := trace episodes.2
                     ++ [wandb_log_train epoch (return_dict ds);
                         torch_save (state_file (self episodes.2))
                           snapshot] |})
    | Throw e => (Throw e, episodes.2)
    | Timeout => (Timeout, episodes.2)
    end.
Proof.
  intros Hev. cbn zeta. unfold train_epoch.
  rewrite M_bind_unfold, call_agent_eq. cbn [fst snd].
  rewrite M_bind_unfold. cbn [gets self set_self config set_agent].
  rewrite M_bind_unfold.
  destruct (run_episodes _ _ _) as [[ds|e|] w3]; [|done..].
  cbn [fst snd]. rewrite M_bind_unfold. cbn [emit].
  rewrite M_bind_unfold, save_state_eq. cbn [self disk trace np_random].
  rewrite M_bind_unfold, Hev. cbn. by rewrite <- app_assoc.
Qed.

(** X17 (an evaluation interval of 0).  With [eval_every = 0] and an
    epoch to run, [train] never returns.  Once the memory initialization
    and the training episodes of the first epoch have returned, [train]
    logs that epoch, writes its snapshot and raises [ZeroDivisionError]
    at the modulo, before any evaluation; if one of them raises or runs
    out of fuel instead, [train] ends there with that outcome and
    neither logs an epoch nor writes a snapshot. *)
Theorem train_fails_when_eval_every_is_zero (fuel : nat) (w : World) :
  Config.eval_every (config (self w)) = 0%Z ->
  (start_epoch (self w) <= Config.train_epochs (config (self w)))%Z ->
  let first := start_epoch (self w) in
  let w1 := (initialize_memory w).2 in
  let w2 := (call_agent (fun a => (tt, agent_train a)) w1).2 in
  let episodes :=
    run_episodes (range (Config.episodes_per_epoch (config (self w))))
      (train_episode fuel) w2 in
  let snapshot :=
    StateFile first (agent (self episodes.2)) (memory (self episodes.2))
      (best_return (self episodes.2)) in
  (train fuel w).1 <> Return tt
  /\ train fuel w
     = match (initialize_memory w).1, episodes.1 with
       | Return _, Return ds =>
           (Throw ZeroDivisionError,
            {| self := self episodes.2;
               disk := <[state_file (self w) := snapshot]> (disk episodes.2);
               np_random := np_random episodes.2;
               trace := trace episodes.2
                        ++ [wandb_log_train first (return_dict ds);
                            torch_save (state_file (self w)) snapshot] |})
       | Return _, Throw e => (Throw e, episodes.2)
       | Return _, Timeout => (Timeout, episodes.2)
       | Throw e, _ => (Throw e, w1)
       | Timeout, _ => (Timeout, w1)
       end
  /\ exists evs,
       trace (train fuel w).2 = trace w ++ evs
       /\ epoch_marks evs
          = match (initialize_memory w).1, episodes.1 with
            | Return _, Return _ => [epoch_logged first; epoch_saved first]
            | _, _ => []
            end.
Proof.
  intros Hev Hstart. cbn zeta.
  assert (keeps_snapshot w (initialize_memory w).2) as Hk1.
  { apply (run_preserves _ initialize_memory _ _ (initialize_memory w).1);
      [apply stable_initialize_memory; typeclasses eauto|].
    by destruct (initialize_memory w). }
  set (w1 := (initialize_memory w).2) in *.
  set (w2 := (call_agent (fun a => (tt, agent_train a)) w1).2).
  set (episodes :=
         run_episodes (range (Config.episodes_per_epoch (config (self w))))
           (train_episode fuel) w2).
  assert (keeps_snapshot w1 episodes.2) as Hk2.
  { etrans.
    - apply (run_preserves _ (call_agent (fun a => (tt, agent_train a)))
               _ _ (Return tt)); [keeps_snapshot_step|].
      subst w2. by rewrite call_agent_eq.
    - apply (run_preserves _
               (run_episodes
                  (range (Config.episodes_per_epoch (config (self w))))
                  (train_episode fuel)) _ _ episodes.1).
      + apply preserves_run_episodes; [typeclasses eauto|].
        apply stable_train_episode. typeclasses eauto.
      + subst episodes. by destruct (run_episodes _ _ _). }
  destruct Hk1 as (Hc1 & Ho1 & Hs1 & _ & _ & evs1 & Ht1 & Hm1).
  destruct Hk2 as (Hc2 & Ho2 & Hs2 & _ & _ & evs2 & Ht2 & Hm2).
  assert (state_file (self episodes.2) = state_file (self w)) as Hfile.
  { unfold state_file. congruence. }
  assert (train fuel w
          = match (initialize_memory w).1, episodes.1 with
            | Return _, Return ds =>
                (Throw ZeroDivisionError,
                 {| self := self episodes.2;
                    disk := <[state_file (self w)
                              := StateFile (start_epoch (self w))
                                   (agent (self episodes.2))
                                   (memory (self episodes.2))
                                   (best_return (self episodes.2))]>
                              (disk episodes.2);
                    np_random := np_random episodes.2;
                    trace := trace episodes.2
                             ++ [wandb_log_train (start_epoch (self w))
                                   (return_dict ds);
                                 torch_save (state_file (self w))
                                   (StateFile (start_epoch (self w))
                                      (agent (self episodes.2))
                                      (memory (self episodes.2))
                                      (best_return (self episodes.2)))] |})
            | Return _, Throw e => (Throw e, episodes.2)
            | Return _, Timeout => (Timeout, episodes.2)
            | Throw e, _ => (Throw e, w1)
            | Timeout, _ => (Timeout, w1)
            end) as Hrun.
  { unfold train. rewrite M_bind_unfold. subst w1.
    destruct (initialize_memory w) as [[[]|e|] w1] eqn:Hinit;
      cbn [fst snd] in *; [|done..].
    rewrite M_bind_unfold. cbn [gets id].
    unfold epochs_to_run, range_from. rewrite Hs1, Hc1.
    rewrite seqZ_cons by lia. cbn [train_epochs_loop].
    rewrite M_bind_unfold.
    rewrite train_epoch_eval_every_zero by by rewrite Hc1.
    rewrite Hc1. fold w2. fold episodes.
    destruct episodes.1; by rewrite ?Hfile. }
  split; [|split; [exact Hrun|]].
  - rewrite Hrun. by destruct (initialize_memory w).1, episodes.1.
  - rewrite Hrun.
    destruct (initialize_memory w).1 as [[]| |]; [|by exists evs1..].
    destruct episodes.1; cbn [snd trace].
    + exists (evs1 ++ evs2 ++ [wandb_log_train (start_epoch (self w))
                                 (return_dict a);
                               torch_save (state_file (self w))
                                 (StateFile (start_epoch (self w))
                                    (agent (self episodes.2))
                                    (memory (self episodes.2))
                                    (best_return (self episodes.2)))]).
      rewrite Ht2, Ht1, <- !app_assoc. split; [done|].
      rewrite !epoch_marks_app, Hm1, Hm2. done.
    + exists (evs1 ++ evs2). rewrite Ht2, Ht1, <- !app_assoc.
      split; [done|]. by rewrite epoch_marks_app, Hm1, Hm2.
    + exists (evs1 ++ evs2). rewrite Ht2, Ht1, <- !app_assoc.
      split; [done|]. by rewrite epoch_marks_app, Hm1, Hm2.
Qed.
End epochs.

(** ** The memory during a run *)

Section counting.
Context `{C : Collaborators}.

Global Instance same_memory_preorder : PreOrder same_memory.
Proof.
  split.
  - intros w. by repeat split.
  - intros w1 w2 w3 (H1 & H2 & H3) (H1' & H2' & H3').
    repeat split; congruence.
Qed.

Ltac same_memory_step := preserves_step ltac:(by repeat split).

Lemma same_memory_learning_update : preserves same_memory learning_update.
Proof. unfold learning_update. repeat same_memory_step. Qed.

Lemma initialize_memory_loop_count steps st (w w' : World) :
  initialize_memory_loop steps st w = (Return tt, w') ->
  wf (memory (self w)) ->
  let m := memory (self w) in
  let m' := memory (self w') in
  wf m'
  /\ mem_size m' = mem_size m
  /\ filled m' = (filled m + length steps) `min` mem_size m
  /\ ptr m' = (ptr m + length steps) mod mem_size m
  /\ batch_size (self w') = batch_size (self w)
  /\ config (self w') = config (self w).
Proof.
  cbn zeta. revert st w.
  induction steps as [|step steps IH]; intros st w H Hwf.
  - injection H as <-. cbn [length]. rewrite !Nat.add_0_r.
    split_and!; try done.
    + destruct Hwf. lia.
    + destruct Hwf as [_ _ _ _ _ _ [?| ->]]; [by rewrite Nat.mod_small|done].
  - cbn [initialize_memory_loop] in H.
    apply M_bind_Return in H as (act & w1 & H1 & H).
    apply M_bind_Return in H as ([[nf rew] dn] & w2 & H2 & H).
    apply M_bind_Return in H as ([] & w3 & H3 & H).
    apply M_bind_Return in H as (st' & w4 & H4 & H).
    apply M_bind_Return in H as (cfg & w5 & H5 & H).
    apply M_bind_Return in H as (r & w6 & H6 & H).
    apply M_bind_Return in H as (m & w7 & H7 & H).
    apply M_bind_Return in H as (size & w8 & H8 & H).
    apply M_bind_Return in H as ([] & w9 & H9 & H).
    apply (run_preserves same_memory) in H1; [|same_memory_step].
    apply (run_preserves same_memory) in H2; [|same_memory_step].
    apply memory_add_sample_Return in H3 as (Hadd & Hb3 & Hc3).
    apply (run_preserves same_memory) in H4;
      [|destruct dn; repeat same_memory_step].
    apply (run_preserves same_memory) in H5; [|same_memory_step].
    apply (run_preserves same_memory) in H6; [|same_memory_step].
    apply (run_preserves same_memory) in H7; [|same_memory_step].
    apply (run_preserves same_memory) in H8; [|same_memory_step].
    apply (run_preserves same_memory) in H9;
      [|case_decide; repeat first [ apply same_memory_learning_update
                                  | same_memory_step ]].
    assert (same_memory w w2) as (Hm2 & Hb2 & Hc2) by (by etrans).
    assert (same_memory w3 w9) as (Hm9 & Hb9 & Hc9)
      by (repeat (etrans; [eassumption|]); reflexivity).
    rewrite Hm2 in Hadd. rewrite <- Hm9 in Hadd.
    assert (0 < mem_size (memory (self w))) as HM.
    { destruct (add_sample_inv _ _ _ Hadd) as (Hlt & _).
      destruct Hwf as [Hs _ _ _ _ _ _]. lia. }
    destruct (add_sample_ok _ {| state := st; action := act;
                                 next_state := process_state nf;
                                 reward := rew; done := dn |} Hwf HM)
      as (m1 & Hadd' & Hwf1 & HM1 & Hp1 & Hf1 & _).
    assert (m1 = memory (self w9)) as -> by congruence.
    destruct (IH _ _ H Hwf1) as (Hwf' & HM' & Hf' & Hp' & Hb' & Hc').
    split; [done|]. split; [congruence|].
    split; [rewrite Hf', Hf1, HM1; cbn [length]; lia|].
    split; [|split; congruence].
    rewrite Hp', Hp1, HM1. cbn [length].
    rewrite Nat.Div0.add_mod_idemp_l. f_equal. lia.
Qed.

Lemma initialize_memory_count (w w' : World) :
  initialize_memory w = (Return tt, w') ->
  wf (memory (self w)) ->
  let m := memory (self w) in
  let m' := memory (self w') in
  let n := Z.to_nat (Config.memory_init_steps (config (self w))) in
  wf m'
  /\ mem_size m' = mem_size m
  /\ filled m' = (filled m + n) `min` mem_size m
  /\ ptr m' = (ptr m + n) mod mem_size m
  /\ batch_size (self w') = batch_size (self w)
  /\ config (self w') = config (self w).
Proof.
  intros H Hwf. cbn zeta. unfold initialize_memory in H.
  apply M_bind_Return in H as (st & w1 & H1 & H).
  apply M_bind_Return in H as (cfg & w2 & H2 & H).
  apply (run_preserves same_memory) in H1; [|repeat same_memory_step].
  injection H2 as <- <-. destruct H1 as (Hm & Hb & Hc).
  rewrite <- Hm in Hwf.
  apply initialize_memory_loop_count in H as (? & ? & ? & ? & ? & ?);
    [|done].
  unfold range in *. rewrite length_seqZ in *. rewrite Hc, Hm in *.
  split_and!; congruence.
Qed.

(** X9 (the memory initialization stores one transition per step).  When
    [initialize_memory] returns on a well-formed memory, it has inserted
    [memory_init_steps] transitions: [filled] has grown by that number up
    to the capacity, and [ptr] has advanced by it around the ring. *)
Theorem initialize_memory_adds_init_steps (w w' : World) :
  initialize_memory w = (Return tt, w') ->
  wf (memory (self w)) ->
  let m := memory (self w) in
  let m' := memory (self w') in
  let n := Z.to_nat (Config.memory_init_steps (config (self w))) in
  wf m'
  /\ mem_size m' = mem_size m
  /\ filled m' = (filled m + n) `min` mem_size m
  /\ ptr m' = (ptr m + n) mod mem_size m.
Proof.
  intros H Hwf.
  destruct (initialize_memory_count _ _ H Hwf) as (? & ? & ? & ? & _).
  done.
Qed.
End counting.

(** ** The assertion of [get_batch] during a run *)

Section assertion.
Context `{C : Collaborators}.

Lemma no_assert_bind {A B} (m : M A) (k : A -> M B) (w : World) :
  ~ asserts (m w).1 ->
  (forall a w1, m w = (Return a, w1) -> ~ asserts (k a w1).1) ->
  ~ asserts ((m ≫= k) w).1.
Proof.
  intros Hm Hk. rewrite M_bind_unfold.
  destruct (m w) as [[a|e|] w1]; [by apply Hk|done..].
Qed.

Lemma no_assert_fmap {A B} (f : A -> B) (m : M A) (w : World) :
  ~ asserts (m w).1 -> ~ asserts ((f <$> m) w).1.
Proof.
  intros Hm. apply no_assert_bind; [done|]. intros a w1 _. cbn. tauto.
Qed.

Lemma memory_add_sample_no_assert t (w : World) :
  ~ asserts (memory_add_sample t w).1.
Proof.
  unfold memory_add_sample. rewrite M_bind_unfold. cbn.
  rewrite M_bind_unfold.
  destruct (add_sample _ _) as [m'|e] eqn:Hadd; cbn; [tauto|].
  destruct (add_sample_Raise _ _ _ Hadd) as [-> | ->]; tauto.
Qed.

Lemma learning_update_no_assert (w : World) :
  (batch_size (self w) < Z.of_nat (filled (memory (self w))))%Z ->
  ~ asserts (learning_update w).1.
Proof.
  intros Hbs. unfold learning_update. rewrite M_bind_unfold. cbn [gets].
  apply no_assert_bind.
  - unfold memory_get_batch.
    destruct (get_batch _ _ _) as [[b s']|e] eqn:Hg; cbn; [tauto|].
    destruct (get_batch_Raise _ _ _ _ Hbs Hg) as [-> | ->]; tauto.
  - intros b w1 _. rewrite M_bind_unfold, call_agent_eq.
    rewrite M_bind_unfold, call_agent_eq. cbn. tauto.
Qed.

Lemma learning_update_not_enough (w : World) :
  (Z.of_nat (filled (memory (self w))) <= batch_size (self w))%Z ->
  learning_update w
  = (Throw (AssertionError "Not enough samples yet"), w).
Proof.
  intros H. unfold learning_update. rewrite M_bind_unfold. cbn [gets].
  rewrite M_bind_unfold. unfold memory_get_batch.
  by rewrite get_batch_not_enough.
Qed.

Lemma lift_py_mod_no_assert a b (w : World) :
  ~ asserts (lift (py_mod a b) w).1.
Proof. unfold py_mod. case_decide; cbn; tauto. Qed.

Lemma initialize_memory_loop_no_assert steps st (w : World) :
  ~ asserts (initialize_memory_loop steps st w).1.
Proof.
  revert st w. induction steps as [|step steps IH]; intros st w;
    [cbn; tauto|].
  cbn [initialize_memory_loop].
  apply no_assert_bind; [rewrite call_env_eq; cbn; tauto|]. intros act w1 _.
  apply no_assert_bind; [rewrite call_env_eq; cbn; tauto|].
  intros [[nf rew] dn] w2 _.
  apply no_assert_bind; [apply memory_add_sample_no_assert|].
  intros [] w3 _.
  apply no_assert_bind.
  { destruct dn; [|cbn; tauto]. apply no_assert_fmap.
    rewrite call_env_eq. cbn. tauto. }
  intros st' w4 _. rewrite M_bind_unfold. cbn [gets].
  apply no_assert_bind; [apply lift_py_mod_no_assert|]. intros r w5 _.
  rewrite M_bind_unfold. cbn [gets]. rewrite M_bind_unfold. cbn [gets].
  apply no_assert_bind; [|intros; apply IH].
  case_decide as Hguard; [|cbn; tauto].
  apply no_assert_bind; [|cbn; tauto].
  apply learning_update_no_assert. tauto.
Qed.

Lemma initialize_memory_no_assert (w : World) :
  ~ asserts (initialize_memory w).1.
Proof.
  unfold initialize_memory.
  apply no_assert_bind;
    [apply no_assert_fmap; rewrite call_env_eq; cbn; tauto|].
  intros st w1 _. rewrite M_bind_unfold. cbn [gets].
  apply initialize_memory_loop_no_assert.
Qed.

(** X10 (the memory initialization never fails on the assertion).  The
    learning update of [initialize_memory] is guarded by
    [filled > batch_size]: whatever the trainer, the method does not end
    in an [AssertionError]. *)
Theorem initialize_memory_never_asserts (w : World) (msg : string) :
  (initialize_memory w).1 <> Throw (AssertionError msg).
Proof.
  intros Heq. pose proof (initialize_memory_no_assert w) as H.
  by rewrite Heq in H.
Qed.

(** X11 (the learning update of a training episode is not guarded).
    With a learning update at every step, on a memory that holds fewer
    transitions than a batch takes, [train_episode] stores the
    transition of its first step and then fails on the assertion of
    [get_batch]. *)
Theorem train_episode_asserts_on_small_memory (fuel : nat) (w : World) :
  let m := memory (self w) in
  wf m -> 0 < mem_size m ->
  (Z.of_nat (filled m) < batch_size (self w))%Z ->
  Config.learning_interval (config (self w)) = 1%Z ->
  (train_episode (S fuel) w).1
  = Throw (AssertionError "Not enough samples yet")
  /\ filled (memory (self (train_episode (S fuel) w).2))
     = (filled m + 1) `min` mem_size m.
Proof.
  cbn zeta. intros Hwf HM Hbs Hli.
  assert (exists w',
            train_episode (S fuel) w
            = (Throw (AssertionError "Not enough samples yet"), w')
            /\ filled (memory (self w'))
               = (filled (memory (self w)) + 1)
                   `min` mem_size (memory (self w)))
    as (w' & -> & Hf); [|done].
  unfold train_episode. rewrite M_bind_unfold.
  unfold fmap, M_fmap. rewrite M_bind_unfold, call_env_eq. cbn [mret M_ret].
  cbn [train_episode_loop].
  rewrite M_bind_unfold, M_bind_unfold, call_agent_eq.
  rewrite M_bind_unfold, call_env_eq.
  set (w1 := set_self (set_env _) (set_self (set_agent _) _)).
  destruct (env_step _ _) as [[[nf rew] dn] e2] eqn:Hstep in *.
  cbn [fst snd] in *.
  match goal with
  | |- context [memory_add_sample ?t'] => set (t := t')
  end.
  destruct (add_sample_ok (memory (self w1)) t Hwf HM)
    as (m' & Hadd & _ & _ & _ & Hf & _).
  rewrite M_bind_unfold, (memory_add_sample_eq _ _ _ Hadd).
  rewrite M_bind_unfold. cbn [gets]. rewrite M_bind_unfold. cbn [gets].
  rewrite M_bind_unfold.
  replace (Config.learning_interval _) with 1%Z by (by rewrite <- Hli).
  unfold py_mod. rewrite decide_False by done. rewrite Z.mod_1_r.
  cbn [lift mret M_ret]. rewrite decide_True by done.
  rewrite M_bind_unfold, M_bind_unfold, learning_update_not_enough.
  - eexists. split; [reflexivity|]. exact Hf.
  - cbn. rewrite Hf. cbn. lia.
Qed.

(** *** A run after a sufficient initialization *)

Lemma same_memory_grows w w' : same_memory w w' -> memory_grows w w'.
Proof.
  intros (Hm & Hb & _). split; [done|]. rewrite Hm. intros Hwf.
  split; [done|lia].
Qed.

Lemma memory_grows_enough w w' :
  memory_grows w w' -> enough_samples w -> enough_samples w'.
Proof.
  intros [Hb H] [Hwf Hbs]. destruct (H Hwf) as [Hwf' Hf].
  split; [done|]. rewrite Hb. lia.
Qed.

Ltac memory_grows_step :=
  preserves_step ltac:(by apply same_memory_grows; repeat split).

Global Instance memory_grows_stable : Stable memory_grows.
Proof.
  assert (PreOrder memory_grows) as Hpre.
  { split.
    - intros w. split; [done|]. intros Hwf. split; [done|lia].
    - intros w1 w2 w3 [Hb H] [Hb' H']. split; [congruence|].
      intros Hwf. destruct (H Hwf) as [Hwf2 Hf].
      destruct (H' Hwf2) as [? ?]. split; [done|lia]. }
  split; [done|intros ??|intros ??|intros ?|intros t].
  - memory_grows_step.
  - memory_grows_step.
  - memory_grows_step.
  - intros w. unfold memory_add_sample. rewrite M_bind_unfold. cbn.
    rewrite M_bind_unfold.
    destruct (add_sample _ _) as [m'|e] eqn:Hadd; cbn; [|reflexivity].
    split; [done|]. cbn. intros Hwf.
    split; [by eapply add_sample_wf|].
    destruct (add_sample_inv _ _ _ Hadd) as (_ & _ & _ & _ & _ & _ & ->).
    cbn. destruct Hwf. lia.
Qed.

Lemma memory_grows_train_epoch fuel epoch :
  preserves memory_grows (train_epoch fuel epoch).
Proof.
  unfold train_epoch, evaluation_update, save_state, save_checkpoint.
  repeat first
    [ apply preserves_run_episodes;
      [typeclasses eauto
      |first [ apply stable_train_episode | apply stable_eval_episode ];
       typeclasses eauto]
    | memory_grows_step ].
Qed.

(** [H] says that a method preserving [memory_grows] ran from a world
    with enough samples: so has the world it left. *)
Ltac advance H Hw tac :=
  apply (run_preserves memory_grows) in H; [|tac];
  apply (memory_grows_enough _ _ H) in Hw; clear H.

Lemma train_episode_metrics_Raise total losses e :
  train_episode_metrics total losses = Raise e -> e = ZeroDivisionError.
Proof.
  unfold train_episode_metrics, py_truediv.
  repeat case_decide; cbn; intros Heq; by inversion Heq.
Qed.

Lemma getitem_Raise d key e : getitem d key = Raise e -> e = KeyError.
Proof.
  induction d as [|[k v] d IH]; cbn; [by intros [= <-]|].
  by case_decide.
Qed.

Lemma train_episode_loop_no_assert fuel st total losses (w : World) :
  enough_samples w ->
  ~ asserts (train_episode_loop fuel st total losses w).1.
Proof.
  revert st total losses w.
  induction fuel as [|fuel IH]; intros st total losses w Hw;
    [cbn; tauto|].
  cbn [train_episode_loop].
  apply no_assert_bind; [rewrite call_agent_eq; cbn; tauto|].
  intros act w1 H1. advance H1 Hw memory_grows_step.
  apply no_assert_bind; [rewrite call_env_eq; cbn; tauto|].
  intros [[nf rew] dn] w2 H2. advance H2 Hw memory_grows_step.
  apply no_assert_bind; [apply memory_add_sample_no_assert|].
  intros [] w3 H3. advance H3 Hw ltac:(apply Stable_add_sample).
  rewrite M_bind_unfold. cbn [gets]. rewrite M_bind_unfold. cbn [gets].
  apply no_assert_bind; [apply lift_py_mod_no_assert|].
  intros r w4 H4. advance H4 Hw memory_grows_step.
  apply no_assert_bind.
  { case_decide; [|cbn; tauto].
    apply no_assert_bind; [|cbn; tauto].
    apply learning_update_no_assert, Hw. }
  intros losses' w5 H5.
  advance H5 Hw ltac:(case_decide;
                      repeat first [ apply stable_learning_update;
                                     typeclasses eauto
                                   | memory_grows_step ]).
  destruct dn; [cbn; tauto|]. by apply IH.
Qed.

Lemma train_episode_no_assert fuel (w : World) :
  enough_samples w -> ~ asserts (train_episode fuel w).1.
Proof.
  intros Hw. unfold train_episode.
  apply no_assert_bind;
    [apply no_assert_fmap; rewrite call_env_eq; cbn; tauto|].
  intros st w1 H1. advance H1 Hw ltac:(repeat memory_grows_step).
  apply no_assert_bind; [by apply train_episode_loop_no_assert|].
  intros [total losses] w2 _.
  destruct (train_episode_metrics total losses) as [d|e] eqn:Hm;
    cbn; [tauto|].
  apply train_episode_metrics_Raise in Hm as ->. tauto.
Qed.

Lemma eval_episode_no_assert fuel (w : World) :
  ~ asserts (eval_episode fuel w).1.
Proof.
  assert (forall st total w, ~ asserts (eval_episode_loop fuel st total w).1)
    as Hloop.
  { induction fuel as [|fuel IH]; intros st total w'; [cbn; tauto|].
    cbn [eval_episode_loop].
    apply no_assert_bind; [rewrite call_agent_eq; cbn; tauto|].
    intros act w1 _.
    apply no_assert_bind; [rewrite call_env_eq; cbn; tauto|].
    intros [[nf rew] dn] w2 _. destruct dn; [cbn; tauto|]. apply IH. }
  unfold eval_episode.
  apply no_assert_bind;
    [apply no_assert_fmap; rewrite call_env_eq; cbn; tauto|].
  intros st w1 _. apply no_assert_bind; [apply Hloop|].
  intros total w2 _. cbn. tauto.
Qed.

Lemma run_episodes_no_assert episodes (episode : M dict) (w : World) :
  (forall w, enough_samples w -> ~ asserts (episode w).1) ->
  preserves memory_grows episode ->
  enough_samples w ->
  ~ asserts (run_episodes episodes episode w).1.
Proof.
  intros Hsafe Hgrows. revert w.
  induction episodes as [|? episodes IH]; intros w Hw; [cbn; tauto|].
  cbn [run_episodes].
  apply no_assert_bind; [by apply Hsafe|]. intros d w1 H1.
  advance H1 Hw ltac:(exact Hgrows).
  apply no_assert_bind; [by apply IH|]. intros ds w2 _. cbn. tauto.
Qed.

Lemma train_epoch_no_assert fuel epoch (w : World) :
  enough_samples w -> ~ asserts (train_epoch fuel epoch w).1.
Proof.
  intros Hw. unfold train_epoch.
  apply no_assert_bind; [rewrite call_agent_eq; cbn; tauto|].
  intros ? w1 H1. advance H1 Hw memory_grows_step.
  rewrite M_bind_unfold. cbn [gets].
  apply no_assert_bind.
  { apply run_episodes_no_assert; [| |done].
    - intros. by apply train_episode_no_assert.
    - apply stable_train_episode. typeclasses eauto. }
  intros ds w2 H2.
  advance H2 Hw ltac:(apply preserves_run_episodes;
                      [typeclasses eauto
                      |apply stable_train_episode; typeclasses eauto]).
  apply no_assert_bind; [cbn; tauto|].
  intros ? w3 H3. advance H3 Hw memory_grows_step.
  apply no_assert_bind; [rewrite save_state_eq; cbn; tauto|].
  intros ? w4 H4.
  advance H4 Hw ltac:(unfold save_state; repeat memory_grows_step).
  apply no_assert_bind; [apply lift_py_mod_no_assert|].
  intros r w5 H5. advance H5 Hw memory_grows_step.
  case_decide; [|cbn; tauto].
  apply no_assert_bind; [rewrite call_agent_eq; cbn; tauto|].
  intros ? w6 H6. advance H6 Hw memory_grows_step.
  apply no_assert_bind.
  { apply run_episodes_no_assert; [| |done].
    - intros. apply eval_episode_no_assert.
    - apply stable_eval_episode. typeclasses eauto. }
  intros vds w7 _.
  apply no_assert_bind.
  { destruct (getitem _ _) as [v|e] eqn:Hg; cbn; [tauto|].
    apply getitem_Raise in Hg as ->. tauto. }
  intros v w8 _.
  apply no_assert_bind; [cbn; tauto|].
  intros ? w9 _.
  destruct (Qlt_le_dec (best_return (self w9)) v).
  - rewrite evaluation_update_improves by done. cbn. tauto.
  - rewrite evaluation_update_keeps by done. cbn. tauto.
Qed.

Lemma train_epochs_loop_no_assert fuel epochs (w : World) :
  enough_samples w -> ~ asserts (train_epochs_loop fuel epochs w).1.
Proof.
  revert w. induction epochs as [|epoch epochs IH]; intros w Hw;
    [cbn; tauto|].
  cbn [train_epochs_loop].
  apply no_assert_bind; [by apply train_epoch_no_assert|].
  intros ? w1 H1. advance H1 Hw ltac:(apply memory_grows_train_epoch).
  by apply IH.
Qed.

(** X12 (a sufficient initialization rules the assertion out).  On a
    well-formed memory, when both [memory_init_steps] and the capacity
    exceed the batch size, no call of [get_batch] in [train] fails on its
    assertion, in the initialization or in any episode of any epoch: the
    run does not end in an [AssertionError]. *)
Theorem train_never_asserts (fuel : nat) (w : World) (msg : string) :
  wf (memory (self w)) ->
  (batch_size (self w) < Config.memory_init_steps (config (self w)))%Z ->
  (batch_size (self w) < Z.of_nat (mem_size (memory (self w))))%Z ->
  (train fuel w).1 <> Throw (AssertionError msg).
Proof.
  intros Hwf Hsteps Hsize.
  assert (~ asserts (train fuel w).1) as H;
    [|intros Heq; by rewrite Heq in H].
  unfold train.
  apply no_assert_bind; [apply initialize_memory_no_assert|].
  intros [] w1 H1.
  assert (enough_samples w1) as Hw1.
  { destruct (initialize_memory_count _ _ H1 Hwf)
      as (Hwf1 & HM & Hf & _ & Hb & _).
    split; [done|]. rewrite Hb, Hf. lia. }
  rewrite M_bind_unfold. cbn [gets].
  by apply train_epochs_loop_no_assert.
Qed.
End assertion.

(** ** Restoring a trainer *)

Section restoring.
Context `{C : Collaborators}.

(** X13 (resuming without a snapshot).  When the directory given as
    [resume] holds no [last_state.pt], the constructor raises
    [FileNotFoundError] with the message of [load_state]; the trainer is
    still as constructed, and [load] has not been looked at. *)
Theorem resume_without_snapshot_raises (args : Args)
    (files : gmap string Artifact) (generator : Generator)
    (dir : string) (w : World) :
  resume args = Some dir ->
  files !! path_join dir "last_state.pt" = None ->
  Trainer_new args files generator = Ok w ->
  Trainer_init args files generator
  = Ok (Throw (FileNotFoundError ("Could not find saved state at " +:+ dir)),
        w)
  /\ best_return (self w) = 0%Q
  /\ start_epoch (self w) = 1%Z
  /\ output_dir (self w) = args_output_dir args.
Proof.
  intros Hres Hfile Hnew. unfold Trainer_init. rewrite Hnew. cbn.
  unfold Trainer_new in Hnew.
  destruct (ReplayMemory_init _ _ _) as [m|]; [|done].
  injection Hnew as <-. cbn. split; [|done].
  unfold Trainer_restore. rewrite Hres, M_bind_unfold.
  unfold load_state. rewrite M_bind_unfold. cbn [torch_load disk].
  by rewrite Hfile.
Qed.

(** X14 (a checkpoint restores the agent only).  [load_checkpoint] on
    the directory that [save_checkpoint] wrote to, in this trainer or in
    a later one over the same files, returns with the saved agent and
    that directory as output directory; the memory, [best_return] and the
    first epoch of the loading trainer stay as they are. *)
Theorem save_then_load_checkpoint (w : World) (later : Trainer)
    (generator : Generator) (events : list Event) :
  let dir := output_dir (self w) in
  let saved := save_checkpoint w in
  let loaded :=
    load_checkpoint dir {| self := later; disk := disk saved.2;
                           np_random := generator; trace := events |} in
  saved.1 = Return tt
  /\ disk saved.2 !! path_join dir "checkpoint.pt"
     = Some (CheckpointFile (agent (self w)))
  /\ loaded.1 = Return tt
  /\ agent (self loaded.2) = agent (self w)
  /\ output_dir (self loaded.2) = dir
  /\ memory (self loaded.2) = memory later
  /\ best_return (self loaded.2) = best_return later
  /\ start_epoch (self loaded.2) = start_epoch later
  /\ epochs_to_run (self loaded.2) = epochs_to_run later.
Proof.
  cbn zeta. rewrite save_checkpoint_eq. cbn [fst snd disk].
  rewrite (load_checkpoint_found _ _ (agent (self w)));
    [|cbn [disk]; apply lookup_insert_eq].
  unfold checkpoint_file. rewrite lookup_insert_eq. done.
Qed.

(** X15 (resuming and loading together).  With both [resume] and [load]
    the constructor restores the snapshot first and the checkpoint
    second: the agent is the checkpoint's, the memory, [best_return] and
    the first epoch are the snapshot's, and the output directory is the
    one given as [load]. *)
Theorem resume_then_load (args : Args) (files : gmap string Artifact)
    (generator : Generator) (state_dir ckpt_dir : string) (e : Z)
    (state_agent ckpt_agent : Agent) (mem : ReplayMemory) (b : Q)
    (w0 : World) :
  resume args = Some state_dir ->
  load args = Some ckpt_dir ->
  files !! path_join state_dir "last_state.pt"
  = Some (StateFile e state_agent mem b) ->
  files !! path_join ckpt_dir "checkpoint.pt"
  = Some (CheckpointFile ckpt_agent) ->
  Trainer_new args files generator = Ok w0 ->
  exists w,
    Trainer_init args files generator = Ok (Return tt, w)
    /\ agent (self w) = ckpt_agent
    /\ memory (self w) = mem
    /\ best_return (self w) = b
    /\ start_epoch (self w) = (e + 1)%Z
    /\ output_dir (self w) = ckpt_dir
    /\ disk w = files.
Proof.
  intros Hres Hload Hstate Hckpt Hnew. unfold Trainer_init.
  rewrite Hnew. cbn.
  assert (disk w0 = files) as Hdisk.
  { unfold Trainer_new in Hnew.
    destruct (ReplayMemory_init _ _ _); [|done]. by injection Hnew as <-. }
  unfold Trainer_restore. rewrite Hres, Hload, M_bind_unfold.
  rewrite (load_state_found _ _ e state_agent mem b) by by rewrite Hdisk.
  rewrite (load_checkpoint_found _ _ ckpt_agent) by by cbn; rewrite Hdisk.
  eexists. split; [reflexivity|]. done.
Qed.
End restoring.

(** ** The further properties on the examples *)

Lemma example_fresh_memory_wf : wf example_fresh_memory.
Proof. apply (ReplayMemory_init_wf 4 "cpu" 4). reflexivity. Qed.

Lemma example_run_returns :
  train 10 (example_world 1 example_script)
  = (Return tt, (train 10 (example_world 1 example_script)).2).
Proof.
  assert ((train 10 (example_world 1 example_script)).1 = Return tt) as H
    by (vm_compute; reflexivity).
  destruct (train 10 (example_world 1 example_script)) as [o w'].
  cbn in *. by subst.
Qed.

Lemma example_initialization_returns :
  initialize_memory (example_world 1 example_script)
  = (Return tt, (initialize_memory (example_world 1 example_script)).2).
Proof.
  assert ((initialize_memory (example_world 1 example_script)).1
          = Return tt) as H by (vm_compute; reflexivity).
  destruct (initialize_memory (example_world 1 example_script)) as [o w'].
  cbn in *. by subst.
Qed.

(** X8, on the example run of two epochs. *)
Lemma train_leaves_last_snapshot_witness :
  train 10 (example_world 1 example_script)
  = (Return tt, (train 10 (example_world 1 example_script)).2)
  /\ (1 <= 2)%Z
  /\ exists ag mem b,
       disk (train 10 (example_world 1 example_script)).2
         !! "outputs/double_q/breakout/run/last_state.pt"
       = Some (StateFile 2 ag mem b)
       /\ epochs_to_run
            (self (load_state "outputs/double_q/breakout/run"
                     (train 10 (example_world 1 example_script)).2).2)
          = [].
Proof.
  split; [exact example_run_returns|]. split; [lia|].
  destruct (train_leaves_last_snapshot
              (C := example_collaborators example_script)
              10 (example_world 1 example_script) _ example_run_returns
              ltac:(cbn; lia))
    as (ag & mem & b & Hd & _ & _ & _ & _ & _ & _ & He).
  exists ag, mem, b. split; [exact Hd | exact He].
Defined.

(** X18, on the example run of two epochs. *)
Lemma train_logs_and_saves_every_epoch_witness :
  train 10 (example_world 1 example_script)
  = (Return tt, (train 10 (example_world 1 example_script)).2)
  /\ exists evs,
       trace (train 10 (example_world 1 example_script)).2 = [] ++ evs
       /\ epoch_marks evs
          = [epoch_logged 1; epoch_saved 1; epoch_logged 2; epoch_saved 2].
Proof.
  split; [exact example_run_returns|].
  exact (train_logs_and_saves_every_epoch
           (C := example_collaborators example_script)
           10 (example_world 1 example_script) _ example_run_returns).
Defined.

(** X17, on the example trainer with [eval_every = 0]: the first epoch is
    logged and saved, then the modulo raises. *)
Lemma train_fails_when_eval_every_is_zero_witness :
  Config.eval_every (config (self example_world_no_eval)) = 0%Z
  /\ (1 <= 2)%Z
  /\ (train 10 example_world_no_eval).1 = Throw ZeroDivisionError
  /\ exists evs,
       trace (train 10 example_world_no_eval).2
       = trace example_world_no_eval ++ evs
       /\ epoch_marks evs = [epoch_logged 1; epoch_saved 1].
Proof.
  split; [reflexivity|]. split; [lia|].
  destruct (train_fails_when_eval_every_is_zero
              (C := example_collaborators example_script)
              10 example_world_no_eval eq_refl ltac:(cbn; lia))
    as (_ & Hrun & evs & Ht & Hm).
  assert ((initialize_memory example_world_no_eval).1 = Return tt) as Hi
    by (vm_compute; reflexivity).
  rewrite Hi in Hrun, Hm.
  match type of Hm with
  | context [match ?o with Return _ => _ | Throw _ => _ | Timeout => _ end] =>
      assert (exists ds, o = Return ds) as [ds Hd]
        by (vm_compute; eexists; reflexivity);
      rewrite Hd in Hrun, Hm
  end.
  split; [by rewrite Hrun|]. exists evs. split; [exact Ht | exact Hm].
Defined.

(** X9, on the example trainer: two steps into an empty memory of
    capacity 4. *)
Lemma initialize_memory_adds_init_steps_witness :
  initialize_memory (example_world 1 example_script)
  = (Return tt, (initialize_memory (example_world 1 example_script)).2)
  /\ wf example_fresh_memory
  /\ filled (memory (self (initialize_memory
                             (example_world 1 example_script)).2))
     = (0 + 2) `min` 4
  /\ ptr (memory (self (initialize_memory
                          (example_world 1 example_script)).2))
     = (0 + 2) mod 4.
Proof.
  split; [exact example_initialization_returns|].
  split; [exact example_fresh_memory_wf|].
  destruct (initialize_memory_adds_init_steps
              (C := example_collaborators example_script)
              (example_world 1 example_script) _
              example_initialization_returns example_fresh_memory_wf)
    as (_ & _ & Hf & Hp).
  split; [exact Hf | exact Hp].
Defined.

(** X11, on the example trainer before its memory is initialized. *)
Lemma train_episode_asserts_on_small_memory_witness :
  wf example_fresh_memory /\ 0 < 4 /\ (0 < 1)%Z
  /\ (train_episode 10 (example_world 1 example_script)).1
     = Throw (AssertionError "Not enough samples yet").
Proof.
  split; [exact example_fresh_memory_wf|]. split; [lia|]. split; [lia|].
  refine (proj1 (train_episode_asserts_on_small_memory
                   (C := example_collaborators example_script)
                   9 (example_world 1 example_script)
                   example_fresh_memory_wf _ _ eq_refl)).
  - cbn. lia.
  - cbn. lia.
Defined.

(** X12, on the example trainer: batch size 1, two initialization steps,
    capacity 4. *)
Lemma train_never_asserts_witness :
  wf example_fresh_memory /\ (1 < 2)%Z /\ (1 < 4)%Z
  /\ (train 10 (example_world 1 example_script)).1
     <> Throw (AssertionError "Not enough samples yet").
Proof.
  split; [exact example_fresh_memory_wf|]. split; [lia|]. split; [lia|].
  apply (train_never_asserts (C := example_collaborators example_script)
           10 (example_world 1 example_script) _ example_fresh_memory_wf).
  - cbn. lia.
  - cbn. lia.
Defined.

(** X13, on the example files: no snapshot under [runs/missing]. *)
Lemma resume_without_snapshot_raises_witness :
  example_files !! "runs/missing/last_state.pt" = None
  /\ exists w,
       Trainer_new (C := example_collaborators example_script)
         (example_args_restore (Some "runs/missing") (Some "runs/b"))
         example_files 42%N = Ok w
       /\ Trainer_init (C := example_collaborators example_script)
            (example_args_restore (Some "runs/missing") (Some "runs/b"))
            example_files 42%N
          = Ok (Throw (FileNotFoundError
                         "Could not find saved state at runs/missing"), w).
Proof.
  assert (example_files !! "runs/missing/last_state.pt" = None) as Hfile
    by (vm_compute; reflexivity).
  split; [exact Hfile|].
  eexists. split; [reflexivity|].
  exact (proj1 (resume_without_snapshot_raises
                  (C := example_collaborators example_script)
                  (example_args_restore (Some "runs/missing") (Some "runs/b"))
                  example_files 42%N "runs/missing" _ eq_refl Hfile
                  eq_refl)).
Defined.

(** X15, on the example files: the snapshot of [runs/a] and the
    checkpoint of [runs/b]. *)
Lemma resume_then_load_witness :
  example_files !! "runs/a/last_state.pt"
  = Some (StateFile (C := example_collaborators example_script) 1
            example_snapshot_agent example_memory (3 # 2))
  /\ example_files !! "runs/b/checkpoint.pt"
     = Some (CheckpointFile (C := example_collaborators example_script)
               example_checkpoint_agent)
  /\ exists w,
       Trainer_init (C := example_collaborators example_script)
         (example_args_restore (Some "runs/a") (Some "runs/b"))
         example_files 42%N = Ok (Return tt, w)
       /\ agent (self w)
          = (example_checkpoint_agent
             : @Agent (example_collaborators example_script))
       /\ memory (self w) = example_memory
       /\ best_return (self w) = (3 # 2)%Q
       /\ start_epoch (self w) = 2%Z
       /\ output_dir (self w) = "runs/b".
Proof.
  assert (example_files !! "runs/a/last_state.pt"
          = Some (StateFile (C := example_collaborators example_script) 1
            example_snapshot_agent example_memory (3 # 2)))
    as Hstate by (vm_compute; reflexivity).
  assert (example_files !! "runs/b/checkpoint.pt"
          = Some (CheckpointFile (C := example_collaborators example_script)
               example_checkpoint_agent))
    as Hckpt by (vm_compute; reflexivity).
  split; [exact Hstate|]. split; [exact Hckpt|].
  assert (exists w0,
            Trainer_new (C := example_collaborators example_script)
              (example_args_restore (Some "runs/a") (Some "runs/b"))
              example_files 42%N = Ok w0) as [w0 Hnew]
    by (eexists; reflexivity).
  destruct (resume_then_load
              (C := example_collaborators example_script)
              (example_args_restore (Some "runs/a") (Some "runs/b"))
              example_files 42%N "runs/a" "runs/b" 1
              example_snapshot_agent example_checkpoint_agent
              example_memory (3 # 2) w0 eq_refl eq_refl Hstate Hckpt Hnew)
    as (w & Hinit & Ha & Hm & Hb & Hs & Ho & _).
  exists w. split; [exact Hinit|]. split; [exact Ha|]. split; [exact Hm|].
  split; [exact Hb|]. split; [exact Hs | exact Ho].
Defined.

(** * Properties of the dataset *)

Lemma py_getitem_nat {A} (xs : list A) (i : nat) (x : A) :
  xs !! i = Some x -> py_getitem xs (Z.of_nat i) = Ok x.
Proof.
  intros Hx. pose proof (lookup_lt_Some _ _ _ Hx) as Hlt.
  unfold py_getitem. repeat case_decide; try lia.
  by rewrite Nat2Z.id, Hx.
Qed.

Lemma py_getitem_out_of_range {A} (xs : list A) (idx : Z) :
  (Z.of_nat (length xs) <= idx \/ idx < - Z.of_nat (length xs))%Z ->
  py_getitem xs idx = Raise IndexError.
Proof.
  intros H. unfold py_getitem. repeat case_decide; try lia; done.
Qed.

Lemma py_getitem_negative {A} (xs : list A) (idx : Z) :
  (- Z.of_nat (length xs) <= idx < 0)%Z ->
  py_getitem xs idx = py_getitem xs (idx + Z.of_nat (length xs)).
Proof.
  intros H. unfold py_getitem. repeat case_decide; try lia; done.
Qed.

(** ** Blocks of a flattened array *)

Lemma length_bind_blocks {A} (f : nat -> list A) k n :
  (forall i, i < n -> length (f i) = k) ->
  length (seq 0 n ≫= f) = n * k.
Proof.
  induction n as [|n IH]; intros Hf; [done|].
  rewrite seq_S, bind_app, length_app, IH by (intros; apply Hf; lia).
  cbn. rewrite app_nil_r, Hf by lia. lia.
Qed.

Lemma lookup_bind_blocks {A} (f : nat -> list A) k n i j :
  (forall i, i < n -> length (f i) = k) ->
  i < n -> j < k ->
  (seq 0 n ≫= f) !! (i * k + j) = f i !! j.
Proof.
  induction n as [|n IH]; intros Hf Hi Hj; [lia|].
  rewrite seq_S, bind_app. cbn. rewrite app_nil_r.
  assert (length (seq 0 n ≫= f) = n * k) as Hlen
    by (apply length_bind_blocks; intros; apply Hf; lia).
  destruct (decide (i = n)) as [->|Hne].
  - rewrite lookup_app_r by lia. f_equal. lia.
  - rewrite lookup_app_l by nia. apply IH; [|lia|done].
    intros. apply Hf. lia.
Qed.

Lemma length_permute_2_0_1 {A} (d : A) H W C x :
  length (permute_2_0_1 d H W C x) = C * H * W.
Proof.
  unfold permute_2_0_1.
  rewrite (length_bind_blocks _ (H * W)); [lia|]. intros c _.
  rewrite (length_bind_blocks _ W); [lia|]. intros h _.
  rewrite (length_bind_blocks _ 1); [lia|]. done.
Qed.

(** The entry [(c, h, w)] of the permuted tensor is the entry [(h, w, c)]
    of the original. *)
Lemma lookup_permute_2_0_1 {A} (d : A) H W C x c h w :
  length x = H * W * C ->
  c < C -> h < H -> w < W ->
  permute_2_0_1 d H W C x !! ((c * H + h) * W + w)
  = x !! ((h * W + w) * C + c).
Proof.
  intros Hx Hc Hh Hw. unfold permute_2_0_1.
  replace ((c * H + h) * W + w) with (c * (H * W) + (h * W + w)) by lia.
  rewrite (lookup_bind_blocks _ (H * W)); [|intros c' _|done|nia].
  2:{ rewrite (length_bind_blocks _ W); [lia|]. intros h' _.
      rewrite (length_bind_blocks _ 1); [lia|]. done. }
  rewrite (lookup_bind_blocks _ W); [|intros h' _|done|done].
  2:{ rewrite (length_bind_blocks _ 1); [lia|]. done. }
  replace w with (w * 1 + 0) at 1 by lia.
  rewrite (lookup_bind_blocks _ 1); [|done|done|lia]. cbn.
  assert (h * W + w < H * W) as Hhw by nia.
  assert ((h * W + w) * C + c < H * W * C) as Hi by nia.
  destruct (lookup_lt_is_Some_2 x ((h * W + w) * C + c)) as [v Hv]; [lia|].
  rewrite Hv. f_equal. by apply nth_lookup_Some.
Qed.

Lemma Forall_permute_2_0_1 {A} (P : A -> Prop) (d : A) H W C x :
  P d -> Forall P x -> Forall P (permute_2_0_1 d H W C x).
Proof.
  intros Hd Hx. unfold permute_2_0_1.
  apply Forall_bind, Forall_true. intros c.
  apply Forall_bind, Forall_true. intros h.
  apply Forall_bind, Forall_true. intros w.
  constructor; [|done].
  destruct (decide ((h * W + w) * C + c < length x)) as [Hlt|Hge].
  - destruct (lookup_lt_is_Some_2 x _ Hlt) as [v Hv].
    rewrite (nth_lookup_Some _ _ _ _ Hv).
    rewrite Forall_lookup in Hx. by eapply Hx.
  - by rewrite nth_overflow by lia.
Qed.

Section dataset.
Import data_utils.

(** X19 (an item of the dataset).  For a position that holds a frame and
    an action, [__getitem__] returns the action and a tensor of shape
    [(channels, height, width)] whose entry [(c, h, w)] is the pixel
    [(h, w, c)] of the frame, scaled as [get_batch] scales a stored byte;
    the entries of a [uint8] frame lie in [[0, 1]]. *)
Theorem dataset_item_scaled_and_permuted (self : ExperienceDataset)
    (i : nat) (f : Frame) (a : Z) :
  states self !! i = Some f -> actions self !! i = Some a ->
  well_shaped f ->
  exists item,
    __getitem__ self (Z.of_nat i) = Ok (item, a)
    /\ shape item = [channels f; height f; width f]
    /\ length (entries item) = channels f * height f * width f
    /\ (forall c h w,
          c < channels f -> h < height f -> w < width f ->
          entries item !! ((c * height f + h) * width f + w)
          = dequantize <$> pixels f !! ((h * width f + w) * channels f + c))
    /\ (Forall is_byte (pixels f) -> Forall unit_interval (entries item)).
Proof.
  intros Hf Ha Hshape. unfold __getitem__.
  rewrite (py_getitem_nat _ _ _ Hf), (py_getitem_nat _ _ _ Ha). cbn.
  eexists. split; [reflexivity|]. cbn. split; [done|].
  split; [by rewrite length_map, length_permute_2_0_1|]. split.
  - intros c h w Hc Hh Hw. rewrite list_lookup_fmap.
    rewrite lookup_permute_2_0_1 by (rewrite ?length_map; done).
    rewrite list_lookup_fmap. by destruct (pixels f !! _).
  - intros Hbytes. apply Forall_fmap, Forall_permute_2_0_1; [done|].
    apply Forall_fmap. eapply Forall_impl; [done|].
    intros k Hk. by apply byte_check_spec.
Qed.

(** X20 (indices of the dataset).  With as many actions as frames, an
    index at or beyond [__len__], or below its negation, raises
    [IndexError]; a negative index down to the negation of [__len__]
    gives the item that counts from the end, frame and action of the same
    position. *)
Theorem dataset_index_wraps_or_raises (self : ExperienceDataset)
    (idx : Z) :
  let n := Z.of_nat (__len__ self) in
  length (actions self) = length (states self) ->
  ((n <= idx \/ idx < - n)%Z -> __getitem__ self idx = Raise IndexError)
  /\ ((- n <= idx < 0)%Z ->
      __getitem__ self idx = __getitem__ self (idx + n)).
Proof.
  cbn zeta. unfold __len__, __getitem__. intros Hlen. split.
  - intros H. by rewrite (py_getitem_out_of_range (states self)).
  - intros H. rewrite (py_getitem_negative (states self)) by done.
    rewrite (py_getitem_negative (actions self)) by lia.
    by rewrite Hlen.
Qed.
End dataset.

(** X19, on the example dataset: the entry [(0, 0, 1)] of the second item
    is the pixel [(0, 1, 0)], which is 30. *)
Lemma dataset_item_scaled_and_permuted_witness :
  data_utils.states example_dataset !! 1 = Some example_frame
  /\ data_utils.actions example_dataset !! 1 = Some 1%Z
  /\ data_utils.well_shaped example_frame
  /\ exists item,
       data_utils.__getitem__ example_dataset 1 = Ok (item, 1%Z)
       /\ data_utils.shape item = [2; 1; 2]
       /\ data_utils.entries item !! 1 = Some (dequantize 30).
Proof.
  split; [reflexivity|]. split; [reflexivity|]. split; [reflexivity|].
  destruct (dataset_item_scaled_and_permuted example_dataset 1
              example_frame 1 eq_refl eq_refl eq_refl)
    as (item & Hitem & Hshape & _ & Hentry & _).
  exists item. split; [exact Hitem|]. split; [exact Hshape|].
  exact (Hentry 0 0 1 ltac:(cbn; lia) ltac:(cbn; lia) ltac:(cbn; lia)).
Defined.

(** X20, on the example dataset of two items. *)
Lemma dataset_index_wraps_or_raises_witness :
  length (data_utils.actions example_dataset)
  = length (data_utils.states example_dataset)
  /\ data_utils.__getitem__ example_dataset 2 = Raise IndexError
  /\ data_utils.__getitem__ example_dataset (-1)
     = data_utils.__getitem__ example_dataset (-1 + 2).
Proof.
  split; [reflexivity|].
  destruct (dataset_index_wraps_or_raises example_dataset 2 eq_refl)
    as [Hout _].
  destruct (dataset_index_wraps_or_raises example_dataset (-1) eq_refl)
    as [_ Hneg].
  split; [apply Hout; cbn; lia | apply Hneg; cbn; lia].
Defined.
